(** * ttcli: option strategy construction (src/ttcli/option.py, src/ttcli/utils.py)

    A shallow embedding of the quote/greeks aggregation loops, the delta
    selection scan, the combo pricing, the leg construction and the
    parameter validation of the [call], [put] and [strangle] commands,
    together with [choose_expiration] and [is_monthly].

    Conventions.
    - [Decimal] values are rationals ([Q]).  The arithmetic on quotes
      (the sums and differences of bids and asks and the division by
      [Decimal(2)]) is that of the default context of Python's [decimal]:
      the exact result rounded to 28 significant digits, ties to even,
      with the trapped [Overflow] ([Py.context]).  The deviation of a
      delta, the strike plus or minus the width and the figures of the
      order review are computed exactly; they round only on operands of
      more than 26 digits.  Equality of prices is [Qeq] ([==]).
    - The configuration is a [ConfigParser] as read from the file; an
      option is read as [SectionProxy.get] reads it, the [DEFAULT]
      section standing in for a missing option and the value going
      through [BasicInterpolation].
    - A Python [dict] is an insertion-ordered association list: assigning
      to an existing key keeps the key's position, a new key goes last.
    - Console output, prompts and network calls are recorded in a trace
      of [Effect]s; failures are Python exceptions ([exn]).
    - The streamer's [listen] generator never ends in live operation; a
      stream given as a finite list that runs out before the loop returns
      stands for a feed that has not delivered yet ([Blocked]). *)

From Stdlib Require Import ZArith QArith Qabs Qround Lqa List String Bool Lia.
From Stdlib Require Import Permutation Sorted.
Import ListNotations.
Open Scope Z_scope.

Set Implicit Arguments.

(** ** Python runtime: values, dictionaries, exceptions, effects *)

Module Py.

(** [Decimal] comparison [a < b]. *)
Definition Qltb (a b : Q) : bool := negb (Qle_bool b a).

(** [round(x, 2)] on a [Decimal]: quantize to two places, ties to even. *)
Definition round2 (x : Q) : Q :=
  let y := (x * (100 # 1))%Q in
  let f := Qfloor y in
  let twice_frac := ((y - inject_Z f) * (2 # 1))%Q in
  let n :=
    if Qltb twice_frac (1 # 1) then f
    else if Qltb (1 # 1) twice_frac then f + 1
    else if Z.even f then f else f + 1 in
  (inject_Z n / (100 # 1))%Q.

(** The default context of the [decimal] module: 28 significant digits,
    ties to even, exponents from -999999 to 999999.  The result of an
    arithmetic operation is its exact value rounded in this context;
    values are kept as rationals, so the trailing zeros a [Decimal]
    carries are not recorded. *)
Definition prec : Z := 28.
Definition Emax : Z := 999999.
Definition Emin : Z := -999999.
Definition Etiny : Z := Emin - (prec - 1).

(** [10 ** e] for any integer [e]. *)
Definition pow10 (e : Z) : Q :=
  if 0 <=? e then inject_Z (10 ^ e) else / inject_Z (10 ^ (- e)).

(** The number of decimal digits of a positive integer. *)
Fixpoint digits_from (fuel : nat) (n : Z) : Z :=
  match fuel with
  | O => 0
  | S fuel' => if n <? 10 then 1 else 1 + digits_from fuel' (n / 10)
  end.
Definition digits (n : Z) : Z := digits_from (S (Z.to_nat (Z.log2 n))) n.

(** [Decimal.adjusted()] of a non-zero value: the exponent of its
    leading digit, i.e. the [e] with [10 ** e <= |x| < 10 ** (e + 1)]. *)
Definition adjusted (x : Q) : Z :=
  let p := Z.abs (Qnum x) in
  let q := Z.pos (Qden x) in
  if q <=? p then digits (p / q) - 1 else - digits ((q - 1) / p).

(** The nearest integer, the even one on a tie. *)
Definition round_half_even (y : Q) : Z :=
  let f := Qfloor y in
  let twice_frac := ((y - inject_Z f) * (2 # 1))%Q in
  if Qltb twice_frac (1 # 1) then f
  else if Qltb (1 # 1) twice_frac then f + 1
  else if Z.even f then f else f + 1.

(** [x] with its last digit at [10 ** e]. *)
Definition rescale (x : Q) (e : Z) : Q :=
  (inject_Z (round_half_even (x / pow10 e)) * pow10 e)%Q.

(** The exact result [x] of an operation as the context rounds it: to
    28 significant digits, or to the smallest exponent [Etiny] when [x]
    is subnormal. *)
Definition rounded (x : Q) : Q :=
  if Qeq_bool x 0 then x
  else rescale x (Z.max (adjusted x - (prec - 1)) Etiny).

(** A rounded result whose leading digit lies above [Emax]. *)
Definition overflows (r : Q) : bool :=
  if Qeq_bool r 0 then false else Emax <? adjusted r.

(** Insertion-ordered dictionaries keyed by strings. *)
Definition dict (V : Type) : Type := list (string * V).

Fixpoint dict_set {V} (k : string) (v : V) (d : dict V) : dict V :=
  match d with
  | [] => [(k, v)]
  | (k', v') :: d' =>
      if String.eqb k k' then (k, v) :: d' else (k', v') :: dict_set k v d'
  end.

Fixpoint dict_get {V} (k : string) (d : dict V) : option V :=
  match d with
  | [] => None
  | (k', v') :: d' => if String.eqb k k' then Some v' else dict_get k d'
  end.

Definition keys {V} (d : dict V) : list string := map fst d.
Definition values {V} (d : dict V) : list V := map snd d.
Definition len {V} (d : dict V) : Z := Z.of_nat (List.length d).

(** The exceptions the modelled code can raise. [StopIteration] is what
    [next()] raises on an exhausted generator (it leaves the coroutine
    as a [RuntimeError]). *)
Inductive exn : Type :=
| AttributeError | UnboundLocalError | StopIteration | KeyError
| IndexError | ValueError | TypeError | EOFError | InvalidOperation
| Overflow.

Inductive EventType : Type := GREEKS | QUOTE.

(** A calendar date, as [datetime.date]. *)
Record date : Type := Date { year : Z; month : Z; day : Z }.

Inductive Effect : Type :=
| PrintError (msg : string)                         (* print_error *)
| Login                                             (* RenewableSession() *)
| GetChain (symbol : string)                        (* NestedOptionChain.get_chain *)
| Offer (number : Z) (exp : date) (is_default : bool) (* menu line *)
| Prompt (text : string)                            (* input(text) *)
| Connect                                           (* DXLinkStreamer(sesh) *)
| Subscribe (channel : EventType) (symbols : list string)
| ShowQuote (bid mid ask : Q)     (* quote table row, printed with 2 decimals *)
| GetOptions (symbols : list string)                (* Option.get_options *)
| GetOption (symbol : string).                      (* Option.get_option *)

Inductive outcome (A : Type) : Type :=
| Done (a : A)          (* control reaches the end of the modelled code *)
| Raised (e : exn)      (* an exception propagates *)
| Aborted               (* print_error followed by [return] *)
| Blocked.              (* an [await] on the feed never resumes *)
Arguments Raised {A} e.
Arguments Aborted {A}.
Arguments Blocked {A}.

(** Trace-and-outcome monad. *)
Definition M (A : Type) : Type := (list Effect * outcome A)%type.

Definition ret {A} (a : A) : M A := ([], Done a).
Definition bind {A B} (m : M A) (f : A -> M B) : M B :=
  match m with
  | (t, Done a) => let (t', r) := f a in (t ++ t', r)
  | (t, Raised e) => (t, Raised e)
  | (t, Aborted) => (t, Aborted)
  | (t, Blocked) => (t, Blocked)
  end.
Definition emit (e : Effect) : M unit := ([e], Done tt).
Definition raise {A} (e : exn) : M A := ([], Raised e).
Definition abort {A} : M A := ([], Aborted).
Definition blocked {A} : M A := ([], Blocked).

(** What an arithmetic operation with exact result [x] returns:
    [Overflow] is trapped, the other signals of rounding are not. *)
Definition context (x : Q) : M Q :=
  let r := rounded x in
  if overflows r then raise Overflow else ret r.

(** [a + b], [a - b] and [a / Decimal(2)] on [Decimal]s. *)
Definition Decimal_add (a b : Q) : M Q := context (a + b).
Definition Decimal_sub (a b : Q) : M Q := context (a - b).
Definition Decimal_half (a : Q) : M Q := context (a / (2 # 1)).

(** [next(x for x in xs if p x)]. *)
Definition next {A} (p : A -> bool) (xs : list A) : M A :=
  match find p xs with
  | Some x => ret x
  | None => raise StopIteration
  end.

(** [d[k]]. *)
Definition getitem {V} (d : dict V) (k : string) : M V :=
  match dict_get k d with
  | Some v => ret v
  | None => raise KeyError
  end.

(** [xs[i]] for a non-negative literal index. *)
Definition index {A} (xs : list A) (i : nat) : M A :=
  match nth_error xs i with
  | Some x => ret x
  | None => raise IndexError
  end.

(** Stable [list.sort(key=...)] and [list.sort(key=..., reverse=True)]:
    elements with equal keys keep their relative order in both. *)
Fixpoint insert_asc {A} (key : A -> Q) (x : A) (l : list A) : list A :=
  match l with
  | [] => [x]
  | y :: l' => if Qle_bool (key x) (key y) then x :: l
               else y :: insert_asc key x l'
  end.
Definition sort_asc {A} (key : A -> Q) (l : list A) : list A :=
  fold_right (insert_asc key) [] l.

Fixpoint insert_desc {A} (key : A -> Q) (x : A) (l : list A) : list A :=
  match l with
  | [] => [x]
  | y :: l' => if Qle_bool (key y) (key x) then x :: l
               else y :: insert_desc key x l'
  end.
Definition sort_desc {A} (key : A -> Q) (l : list A) : list A :=
  fold_right (insert_desc key) [] l.

End Py.
Import Py.

Declare Scope py_scope.
Notation "x <- m ;; k" := (bind m (fun x => k))
  (at level 100, m at next level, right associativity) : py_scope.
Notation "m ;;; k" := (bind m (fun _ => k))
  (at level 100, right associativity) : py_scope.
Open Scope py_scope.

(** ** tastytrade SDK data (tastytrade.dxfeed, tastytrade.instruments, tastytrade.order) *)

Module SDK.

(** Events carry the feed symbol they belong to. *)
Class Event (E : Type) : Type := eventSymbol : E -> string.

Record Greeks : Type := mkGreeks { g_symbol : string; delta : Q }.
Record Quote : Type := mkQuote { q_symbol : string; bidPrice : Q; askPrice : Q }.

#[export] Instance Greeks_Event : Event Greeks := g_symbol.
#[export] Instance Quote_Event : Event Quote := q_symbol.

Record Strike : Type := mkStrike {
  strike_price : Q;
  call : string;
  put : string;
  call_streamer_symbol : string;
  put_streamer_symbol : string }.

Record NestedOptionChainExpiration : Type := mkExpiration {
  expiration_date : date;
  strikes : list Strike }.

Record NestedOptionChain : Type := mkChain {
  expirations : list NestedOptionChainExpiration }.

(** An option instrument as returned by [Option.get_option(s)]. *)
Record OptionInstr : Type := mkOption { symbol : string; o_strike_price : Q }.

Inductive OrderAction : Type := BUY_TO_OPEN | SELL_TO_OPEN.
Inductive OrderTimeInForce : Type := DAY | GTC.
Inductive OrderType : Type := LIMIT | MARKET.
Inductive PriceEffect : Type := CREDIT | DEBIT.

Record Leg : Type := mkLeg {
  leg_symbol : string; quantity : Z; action : OrderAction }.

(** [Option.build_leg(quantity, action)]. *)
Definition build_leg (o : OptionInstr) (quantity : Z) (action : OrderAction) : Leg :=
  mkLeg (symbol o) quantity action.

Record NewOrder : Type := mkOrder {
  time_in_force : OrderTimeInForce;
  order_type : OrderType;
  legs : list Leg;
  price : Q;
  price_effect : PriceEffect }.

End SDK.
Import SDK.

(** ** src/ttcli/utils.py *)

Module utils.

(** [datetime.date.weekday], from the proleptic Gregorian ordinal
    (Monday is 0, Friday is 4). *)
Definition is_leap (y : Z) : bool :=
  (y mod 4 =? 0) && (negb (y mod 100 =? 0) || (y mod 400 =? 0)).

Definition days_before_year (y : Z) : Z :=
  let p := y - 1 in p * 365 + p / 4 - p / 100 + p / 400.

Definition days_before_month (y m : Z) : Z :=
  nth (Z.to_nat m) [0; 0; 31; 59; 90; 120; 151; 181; 212; 243; 273; 304; 334] 0
  + (if (2 <? m) && is_leap y then 1 else 0).

Definition toordinal (d : date) : Z :=
  days_before_year (year d) + days_before_month (year d) (month d) + day d.

Definition weekday (d : date) : Z := (toordinal d + 6) mod 7.

Definition is_monthly (day_ : date) : bool :=
  (weekday day_ =? 4) && ((15 <=? day day_) && (day day_ <=? 21)).

End utils.
Import utils.

(** ** src/ttcli/option.py *)

Module ttcli_option.

Definition date_eqb (a b : date) : bool :=
  (year a =? year b) && (month a =? month b) && (day a =? day b).

(** What the operator typed at an integer prompt, as [int(raw)] sees it:
    the empty string, a text that parses to an integer, or any other
    (non-empty) text. *)
Inductive RawInput : Type := Blank | IntText (n : Z) | OtherText.

(** What the operator typed at the limit-price prompt, as [Decimal(price)]
    sees it. *)
Inductive PriceInput : Type := EmptyPrice | DecimalText (d : Q) | InvalidText.

(** [exps.index(x)]. *)
Fixpoint list_index (x : date) (exps : list date) : option nat :=
  match exps with
  | [] => None
  | e :: exps' => if date_eqb e x then Some O
                  else option_map S (list_index x exps')
  end.

(** The menu printed by the [for i, exp in enumerate(exps)] loop. *)
Fixpoint print_menu (default : nat) (i : nat) (exps : list date) : M unit :=
  match exps with
  | [] => ret tt
  | exp :: exps' =>
      emit (Offer (Z.of_nat i + 1) exp (Nat.eqb i default)) ;;;
      print_menu default (S i) exps'
  end.

(** The [while choice not in range(1, len(exps) + 1)] loop. *)
Fixpoint choose_loop (exps : list date) (default : nat) (choice : Z)
         (stdin : list RawInput) : M date :=
  if (1 <=? choice) && (choice <? Z.of_nat (List.length exps) + 1) then
    index exps (Z.to_nat (choice - 1))
  else
    match stdin with
    | [] => emit (Prompt "Please choose an expiration: ") ;;; raise EOFError
    | raw :: stdin' =>
        emit (Prompt "Please choose an expiration: ") ;;;
        match raw with
        | IntText n => choose_loop exps default n stdin'
        | Blank => index exps default
        | OtherText => choose_loop exps default choice stdin'
        end
    end.

(** [get_tasty_monthly()] belongs to the tastytrade SDK and depends on
    today's date; its value is the parameter [tasty_monthly]. *)
Definition choose_expiration (tasty_monthly : date) (stdin : list RawInput)
           (chain : NestedOptionChain) (include_weeklies : bool) : M date :=
  let exps := map expiration_date (expirations chain) in
  let exps := if negb include_weeklies then filter is_monthly exps else exps in
  match list_index tasty_monthly exps with
  | None => raise ValueError
  | Some default =>
      print_menu default O exps ;;;
      choose_loop exps default 0 stdin
  end.

(** *** Aggregation loops *)

(** [quote.eventSymbol != skip] *)
Definition differs (s : string) (skip : option string) : bool :=
  match skip with
  | None => true
  | Some k => negb (String.eqb s k)
  end.

Fixpoint listen_quotes_from (n_quotes : Z) (skip : option string)
         (quote_dict : dict Quote) (streamer : list Quote)
  : option (dict Quote) :=
  match streamer with
  | [] => None
  | quote :: streamer' =>
      let quote_dict :=
        if differs (eventSymbol quote) skip
        then dict_set (eventSymbol quote) quote quote_dict
        else quote_dict in
      if len quote_dict =? n_quotes then Some quote_dict
      else listen_quotes_from n_quotes skip quote_dict streamer'
  end.

Definition listen_quotes (n_quotes : Z) (streamer : list Quote)
           (skip : option string) : option (dict Quote) :=
  listen_quotes_from n_quotes skip [] streamer.

Fixpoint listen_greeks_from (n_greeks : Z) (greeks_dict : dict Greeks)
         (streamer : list Greeks) : option (dict Greeks) :=
  match streamer with
  | [] => None
  | greeks :: streamer' =>
      let greeks_dict := dict_set (eventSymbol greeks) greeks greeks_dict in
      if len greeks_dict =? n_greeks then Some greeks_dict
      else listen_greeks_from n_greeks greeks_dict streamer'
  end.

Definition listen_greeks (n_greeks : Z) (streamer : list Greeks)
  : option (dict Greeks) :=
  listen_greeks_from n_greeks [] streamer.

(** [await f(...)]: a loop that has not returned is still waiting. *)
Definition await {A} (r : option A) : M A :=
  match r with
  | Some a => ret a
  | None => blocked
  end.

(** [await streamer.get_event(EventType.QUOTE)] *)
Definition get_event (streamer : list Quote) : M Quote :=
  await (hd_error streamer).

(** *** Delta selection *)

Inductive OptionKind : Type := CALL | PUT.

(** [g.delta * Decimal(100) - delta] in [call], [... + delta] in [put]. *)
Definition deviation (k : OptionKind) (target : Z) (g : Greeks) : Q :=
  match k with
  | CALL => (delta g * (100 # 1) - inject_Z target)%Q
  | PUT => (delta g * (100 # 1) + inject_Z target)%Q
  end.

(** The scan [for g in greeks: diff = abs(...); if diff < lowest: ...];
    [pick g] is what the loop stores ([g] itself in [call] and [put],
    [g.eventSymbol] in [strangle]). *)
Fixpoint closest {A} (dev : Greeks -> Q) (pick : Greeks -> A)
         (greeks : list Greeks) (lowest : Q) (selected : option A)
  : Q * option A :=
  match greeks with
  | [] => (lowest, selected)
  | g :: greeks' =>
      let diff := Qabs (dev g) in
      if Qltb diff lowest then closest dev pick greeks' diff (Some (pick g))
      else closest dev pick greeks' lowest selected
  end.

(** [lowest = 100; selected = None; for g in greeks: ...]. With
    [delta = None] the subtraction raises [TypeError] on the first
    reading. *)
Definition select_by_delta {A} (k : OptionKind) (pick : Greeks -> A)
           (greeks : list Greeks) (delta : option Z) : M (option A) :=
  match delta with
  | Some d => ret (snd (closest (deviation k d) pick greeks (100 # 1)%Q None))
  | None => match greeks with
            | [] => ret None
            | _ :: _ => raise TypeError
            end
  end.

(** *** The commands *)

(** Everything a command obtains from outside: the brokerage API, the
    SDK's clock-dependent default expiration, the operator's keyboard
    and the two event channels of the streamer. *)
Record World : Type := mkWorld {
  get_chain : string -> NestedOptionChain;
  get_tasty_monthly : date;
  stdin_expiration : list RawInput;
  greeks_feed : list Greeks;
  quote_feed : list Quote;
  stdin_price : PriceInput;
  get_options : list string -> list OptionInstr;
  get_option : string -> OptionInstr }.

Definition is_not_None {A} (x : option A) : bool :=
  match x with Some _ => true | None => false end.

(** Truthiness of an optional [Decimal] and of an optional [int]. *)
Definition truthy_decimal (x : option Q) : bool :=
  match x with Some q => negb (Qeq_bool q (0 # 1)) | None => false end.
Definition truthy_int (x : option Z) : bool :=
  match x with Some n => negb (n =? 0) | None => false end.

(** A local variable is unbound until its first assignment. *)
Inductive local (A : Type) : Type := Unbound | Bound (v : A).
Arguments Unbound {A}.

(** [selected.eventSymbol] *)
Definition selected_eventSymbol (selected : local (option Greeks)) : M string :=
  match selected with
  | Unbound => raise UnboundLocalError
  | Bound None => raise AttributeError
  | Bound (Some g) => ret (eventSymbol g)
  end.

(** [s.call_streamer_symbol] in [call], [s.put_streamer_symbol] in [put]. *)
Definition streamer_symbol (k : OptionKind) (s : Strike) : string :=
  match k with CALL => call_streamer_symbol s | PUT => put_streamer_symbol s end.

(** [next(s.strike_price for s in subchain.strikes
          if s.call_streamer_symbol == selected.eventSymbol)]: the
    condition is evaluated on the first strike, where [None.eventSymbol]
    raises. *)
Definition strike_of_selected (k : OptionKind) (strikes : list Strike)
           (selected : option Greeks) : M Q :=
  match strikes, selected with
  | [], _ => raise StopIteration
  | _ :: _, None => raise AttributeError
  | _ :: _, Some g =>
      s <- next (fun s => String.eqb (streamer_symbol k s) (eventSymbol g)) strikes ;;
      ret (strike_price s)
  end.

(** [s.call] in [call], [s.put] in [put]. *)
Definition contract (k : OptionKind) (s : Strike) : string :=
  match k with CALL => SDK.call s | PUT => SDK.put s end.

(** [strike + width] in [call], [strike - width] in [put]. *)
Definition spread_price (k : OptionKind) (strike : Q) (width : Z) : Q :=
  match k with
  | CALL => (strike + inject_Z width)%Q
  | PUT => (strike - inject_Z width)%Q
  end.

(** [res.sort(key=lambda x: x.strike_price)] in [call],
    [res.sort(key=lambda x: x.strike_price, reverse=True)] in [put]. *)
Definition sort_res (k : OptionKind) (res : list OptionInstr) : list OptionInstr :=
  match k with
  | CALL => sort_asc o_strike_price res
  | PUT => sort_desc o_strike_price res
  end.

(** [input('Please enter a limit price ...')], [round(mid, 2)] on empty
    input, then [Decimal(price)].  [round(mid, 2)] is a quantize: it
    raises [InvalidOperation] when the rounded value needs more than 28
    digits. *)
Definition limit_price (w : World) (mid : Q) : M Q :=
  emit (Prompt "Please enter a limit price per quantity (default mid): ") ;;;
  match stdin_price w with
  | EmptyPrice =>
      if Qle_bool (pow10 (prec - 2)) (Qabs (round2 mid))
      then raise InvalidOperation
      else ret (round2 mid)
  | DecimalText d => ret d
  | InvalidText => raise InvalidOperation
  end.

Definition primary (quantity : Z) : OrderAction :=
  if quantity <? 0 then SELL_TO_OPEN else BUY_TO_OPEN.
Definition hedge (quantity : Z) : OrderAction :=
  if quantity <? 0 then BUY_TO_OPEN else SELL_TO_OPEN.

Definition new_order (gtc : bool) (legs : list Leg) (price : Q) (quantity : Z)
  : NewOrder :=
  mkOrder (if gtc then GTC else DAY) LIMIT legs price
          (if quantity <? 0 then CREDIT else DEBIT).

(** The local variables of [call] / [put] when the order has been built. *)
Record SingleLocals : Type := mkSingle {
  sl_strike : Q;
  sl_selected : string;               (* selected.eventSymbol *)
  sl_spread_strike : option Strike;   (* bound when [width] is truthy *)
  sl_short_symbol : string;
  sl_bid : Q;
  sl_ask : Q;
  sl_mid : Q;
  sl_order : NewOrder }.

(** [call] and [put] are the same text up to the five places gathered in
    [streamer_symbol], [deviation], [spread_price], [contract] and
    [sort_res]; the body is given once, by stages, for an [OptionKind]. *)

(** Lines 83-91 / 211-219: the parameter checks. *)
Definition check_single (strike : option Q) (delta : option Z) : M unit :=
  if is_not_None strike && is_not_None delta then
    emit (PrintError "Must specify either delta or strike, but not both.") ;;;
    abort
  else if negb (truthy_decimal strike) && negb (truthy_int delta) then
    emit (PrintError "Please specify either delta or strike for the option.") ;;;
    abort
  else if match delta with Some d => 99 <? Z.abs d | None => false end then
    emit (PrintError "Delta value is too high, -99 <= delta <= 99") ;;;
    abort
  else ret tt.

(** Lines 93-98: session, chain, expiration, subchain, streamer. *)
Definition open_subchain (w : World) (symbol : string) (weeklies : bool)
  : M NestedOptionChainExpiration :=
  emit Login ;;;
  emit (GetChain symbol) ;;;
  let chain := get_chain w symbol in
  expiration <- choose_expiration (get_tasty_monthly w) (stdin_expiration w)
                                  chain weeklies ;;
  subchain <- next (fun e => date_eqb (expiration_date e) expiration)
                   (expirations chain) ;;
  emit Connect ;;;
  ret subchain.

(** Lines 99-114 / 227-242: [if not strike:] the strike is found by
    delta; otherwise [selected] stays unbound. *)
Definition resolve_strike (k : OptionKind) (w : World)
           (subchain : NestedOptionChainExpiration)
           (strike : option Q) (delta : option Z)
  : M (local (option Greeks) * Q) :=
  match (if truthy_decimal strike then strike else None) with
  | Some s => ret (Unbound, s)
  | None =>
      let dxfeeds := map (streamer_symbol k) (strikes subchain) in
      emit (Subscribe GREEKS dxfeeds) ;;;
      greeks_dict <- await (listen_greeks (Z.of_nat (List.length dxfeeds))
                                          (greeks_feed w)) ;;
      let greeks := values greeks_dict in
      selected <- select_by_delta k (fun g => g) greeks delta ;;
      s <- strike_of_selected k (strikes subchain) selected ;;
      ret (Bound selected, s)
  end.

(** [(bid + ask) / Decimal(2)] *)
Definition mean (bid ask : Q) : M Q :=
  total <- Decimal_add bid ask ;;
  Decimal_half total.

(** Lines 116-128 / 244-256: bid, ask and mid of the spread or of the
    single option. *)
Definition quote_single (k : OptionKind) (w : World)
           (subchain : NestedOptionChainExpiration)
           (selected : local (option Greeks)) (strike : Q) (width : option Z)
  : M (string * option Strike * Q * Q * Q) :=
  if truthy_int width then
    let wd := match width with Some x => x | None => 0 end in
    spread_strike <- next (fun s => Qeq_bool (strike_price s)
                                             (spread_price k strike wd))
                          (strikes subchain) ;;
    sym <- selected_eventSymbol selected ;;
    emit (Subscribe QUOTE [sym; streamer_symbol k spread_strike]) ;;;
    quote_dict <- await (listen_quotes 2 (quote_feed w) None) ;;
    q_sel <- getitem quote_dict sym ;;
    q_spr <- getitem quote_dict (streamer_symbol k spread_strike) ;;
    bid <- Decimal_sub (bidPrice q_sel) (askPrice q_spr) ;;
    ask <- Decimal_sub (askPrice q_sel) (bidPrice q_spr) ;;
    mid <- mean bid ask ;;
    ret (sym, Some spread_strike, bid, ask, mid)
  else
    sym <- selected_eventSymbol selected ;;
    emit (Subscribe QUOTE [sym]) ;;;
    quote <- get_event (quote_feed w) ;;
    let bid := bidPrice quote in
    let ask := askPrice quote in
    mid <- mean bid ask ;;
    ret (sym, None, bid, ask, mid).

(** Lines 148-158 / 276-286: the legs. *)
Definition legs_single (k : OptionKind) (w : World)
           (subchain : NestedOptionChainExpiration)
           (strike : Q) (spread : option Strike) (quantity : Z)
  : M (string * list Leg) :=
  s <- next (fun s => Qeq_bool (strike_price s) strike) (strikes subchain) ;;
  let short_symbol := contract k s in
  match spread with
  | Some spread_strike =>
      emit (GetOptions [short_symbol; contract k spread_strike]) ;;;
      let res := sort_res k (get_options w [short_symbol;
                                            contract k spread_strike]) in
      r0 <- index res 0 ;;
      r1 <- index res 1 ;;
      ret (short_symbol,
           [build_leg r0 (Z.abs quantity) (primary quantity);
            build_leg r1 (Z.abs quantity) (hedge quantity)])
  | None =>
      emit (GetOption short_symbol) ;;;
      let opt := get_option w short_symbol in
      ret (short_symbol, [build_leg opt (Z.abs quantity) (primary quantity)])
  end.

(** The command, up to the construction of the order (line 165 / 293). *)
Definition single (k : OptionKind) (w : World) (symbol : string) (quantity : Z)
           (strike : option Q) (width : option Z) (gtc weeklies : bool)
           (delta : option Z) : M SingleLocals :=
  check_single strike delta ;;;
  subchain <- open_subchain w symbol weeklies ;;
  sel <- resolve_strike k w subchain strike delta ;;
  priced <- quote_single k w subchain (fst sel) (snd sel) width ;;
  let '(sym, spread, bid, ask, mid) := priced in
  emit (ShowQuote bid mid ask) ;;;
  price <- limit_price w mid ;;
  built <- legs_single k w subchain (snd sel) spread quantity ;;
  ret (mkSingle (snd sel) sym spread (fst built) bid ask mid
                (new_order gtc (snd built) price quantity)).

Definition call := single CALL.
Definition put := single PUT.

(** [s.put_streamer_symbol == selected_put] where [selected_put] may be
    [None]. *)
Definition eq_selected (s : string) (selected : option string) : bool :=
  match selected with Some x => String.eqb s x | None => false end.

(** [s.strike_price == put] where [put] may be [None]. *)
Definition eq_strike (p : Q) (wanted : option Q) : bool :=
  match wanted with Some x => Qeq_bool p x | None => false end.

(** The local variables of [strangle] when the order has been built. *)
Record StrangleLocals : Type := mkStrangle {
  st_put_strike : Strike;
  st_call_strike : Strike;
  st_spreads : option (Strike * Strike);  (* put_spread_strike, call_spread_strike *)
  st_bid : Q;
  st_ask : Q;
  st_mid : Q;
  st_order : NewOrder }.

(** Lines 340-348: the parameter checks of [strangle]. *)
Definition check_strangle (call put : option Q) (delta : option Z) : M unit :=
  if (is_not_None call || is_not_None put) && is_not_None delta then
    emit (PrintError "Must specify either delta or strike, but not both.") ;;;
    abort
  else if is_not_None delta && (is_not_None call || is_not_None put) then
    emit (PrintError "Please specify either delta, or strikes for both options.") ;;;
    abort
  else if match delta with Some d => 99 <? Z.abs d | None => false end then
    emit (PrintError "Delta value is too high, -99 <= delta <= 99") ;;;
    abort
  else ret tt.

(** Lines 356-386: the put and call strikes, by delta or by price. *)
Definition resolve_strangle (w : World) (subchain : NestedOptionChainExpiration)
           (call put : option Q) (delta : option Z) : M (Strike * Strike) :=
  if is_not_None delta then
    let put_dxf := map put_streamer_symbol (strikes subchain) in
    let call_dxf := map call_streamer_symbol (strikes subchain) in
    let dxfeeds := put_dxf ++ call_dxf in
    emit (Subscribe GREEKS dxfeeds) ;;;
    greeks_dict <- await (listen_greeks (Z.of_nat (List.length dxfeeds))
                                        (greeks_feed w)) ;;
    let put_greeks :=
      filter (fun v => existsb (String.eqb (eventSymbol v)) put_dxf)
             (values greeks_dict) in
    let call_greeks :=
      filter (fun v => existsb (String.eqb (eventSymbol v)) call_dxf)
             (values greeks_dict) in
    selected_put <- select_by_delta PUT eventSymbol put_greeks delta ;;
    selected_call <- select_by_delta CALL eventSymbol call_greeks delta ;;
    put_strike <- next (fun s => eq_selected (put_streamer_symbol s) selected_put)
                       (strikes subchain) ;;
    call_strike <- next (fun s => eq_selected (call_streamer_symbol s) selected_call)
                        (strikes subchain) ;;
    ret (put_strike, call_strike)
  else
    put_strike <- next (fun s => eq_strike (strike_price s) put)
                       (strikes subchain) ;;
    call_strike <- next (fun s => eq_strike (strike_price s) call)
                        (strikes subchain) ;;
    ret (put_strike, call_strike).

(** [sum(xs)] over decimals: [0 + x1 + x2 + ...], one addition at a
    time. *)
Fixpoint sum_from (acc : Q) (xs : list Q) : M Q :=
  match xs with
  | [] => ret acc
  | x :: xs' => acc' <- Decimal_add acc x ;; sum_from acc' xs'
  end.
Definition sum (xs : list Q) : M Q := sum_from 0 xs.

(** Lines 388-415: bid, ask and mid of the iron condor or the strangle;
    the operands of each sum are looked up as the sum proceeds. *)
Definition quote_strangle (w : World) (subchain : NestedOptionChainExpiration)
           (put_strike call_strike : Strike) (width : option Z)
  : M (option (Strike * Strike) * Q * Q * Q) :=
  if truthy_int width then
    let wd := match width with Some x => x | None => 0 end in
    put_spread_strike <-
      next (fun s => Qeq_bool (strike_price s)
                              (strike_price put_strike - inject_Z wd)%Q)
           (strikes subchain) ;;
    call_spread_strike <-
      next (fun s => Qeq_bool (strike_price s)
                              (strike_price call_strike + inject_Z wd)%Q)
           (strikes subchain) ;;
    emit (Subscribe QUOTE [call_streamer_symbol call_strike;
                           put_streamer_symbol put_strike;
                           put_streamer_symbol put_spread_strike;
                           call_streamer_symbol call_spread_strike]) ;;;
    quote_dict <- await (listen_quotes 4 (quote_feed w) None) ;;
    cb <- getitem quote_dict (call_streamer_symbol call_strike) ;;
    pb <- getitem quote_dict (put_streamer_symbol put_strike) ;;
    bid1 <- Decimal_add (bidPrice cb) (bidPrice pb) ;;
    psa <- getitem quote_dict (put_streamer_symbol put_spread_strike) ;;
    bid2 <- Decimal_sub bid1 (askPrice psa) ;;
    csa <- getitem quote_dict (call_streamer_symbol call_spread_strike) ;;
    bid <- Decimal_sub bid2 (askPrice csa) ;;
    ask1 <- Decimal_add (askPrice cb) (askPrice pb) ;;
    ask2 <- Decimal_sub ask1 (bidPrice psa) ;;
    ask <- Decimal_sub ask2 (bidPrice csa) ;;
    mid <- mean bid ask ;;
    ret (Some (put_spread_strike, call_spread_strike), bid, ask, mid)
  else
    emit (Subscribe QUOTE [put_streamer_symbol put_strike;
                           call_streamer_symbol call_strike]) ;;;
    quote_dict <- await (listen_quotes 2 (quote_feed w) None) ;;
    bid <- sum (map bidPrice (values quote_dict)) ;;
    ask <- sum (map askPrice (values quote_dict)) ;;
    mid <- mean bid ask ;;
    ret (None, bid, ask, mid).

(** Lines 435-451: the legs of the strangle or iron condor. *)
Definition legs_strangle (w : World) (put_strike call_strike : Strike)
           (spreads : option (Strike * Strike)) (quantity : Z) : M (list Leg) :=
  let tt_symbols :=
    [SDK.put put_strike; SDK.call call_strike]
    ++ match spreads with
       | Some (put_spread_strike, call_spread_strike) =>
           [SDK.put put_spread_strike; SDK.call call_spread_strike]
       | None => []
       end in
  emit (GetOptions tt_symbols) ;;;
  let options := sort_asc o_strike_price (get_options w tt_symbols) in
  match spreads with
  | Some _ =>
      o0 <- index options 0 ;;
      o1 <- index options 1 ;;
      o2 <- index options 2 ;;
      o3 <- index options 3 ;;
      ret [build_leg o0 (Z.abs quantity) (hedge quantity);
           build_leg o1 (Z.abs quantity) (primary quantity);
           build_leg o2 (Z.abs quantity) (primary quantity);
           build_leg o3 (Z.abs quantity) (hedge quantity)]
  | None =>
      o0 <- index options 0 ;;
      o1 <- index options 1 ;;
      ret [build_leg o0 (Z.abs quantity) (primary quantity);
           build_leg o1 (Z.abs quantity) (primary quantity)]
  end.

(** The command, up to the construction of the order (line 458). *)
Definition strangle (w : World) (symbol : string) (quantity : Z)
           (call : option Q) (width : option Z) (gtc weeklies : bool)
           (delta : option Z) (put : option Q) : M StrangleLocals :=
  check_strangle call put delta ;;;
  subchain <- open_subchain w symbol weeklies ;;
  chosen <- resolve_strangle w subchain call put delta ;;
  priced <- quote_strangle w subchain (fst chosen) (snd chosen) width ;;
  let '(spreads, bid, ask, mid) := priced in
  emit (ShowQuote bid mid ask) ;;;
  price <- limit_price w mid ;;
  legs <- legs_strangle w (fst chosen) (snd chosen) spreads quantity ;;
  ret (mkStrangle (fst chosen) (snd chosen) spreads bid ask mid
                  (new_order gtc legs price quantity)).

End ttcli_option.
Import ttcli_option.

(** ** Console, brokerage and failures of the remaining code *)

Module Console.

(** The code below also warns, reads secrets and the configuration,
    checks and places orders and can fail in a division; its trace and
    failures extend those of the option commands. *)
Inductive error : Type :=
| Py (e : exn)
| DivisionByZero                     (* decimal.DivisionByZero *)
| InterpolationSyntaxError           (* configparser *)
| InterpolationMissingOptionError
| InterpolationDepthError.

Record Account : Type := mkAccount {
  account_number : string;
  nickname : string }.

(** One line of the order review table; the expiration column, the same
    on every line, is not recorded.  [rr_details] is the price, the buying
    power effect, its percentage of the net liquidating value and the
    fees, shown on the first line only. *)
Record ReviewRow : Type := mkRow {
  rr_quantity : Z;
  rr_symbol : string;
  rr_strike : Q;
  rr_type : OptionKind;
  rr_details : option (Q * Q * Q * Q) }.

Inductive IOEvent : Type :=
| Core (e : Effect)
| PrintWarning (msg : string)                          (* print_warning *)
| AccountLine (number : Z) (acc : Account) (is_default : bool)
| GetPass (prompt : string)                            (* getpass.getpass *)
| DryRun (account : Account) (order : NewOrder)        (* POST .../orders/dry-run *)
| GetBalances (account : Account)
| Review (rows : list ReviewRow)
| PlaceOrder (account : Account) (order : NewOrder).   (* place_order(dry_run=False) *)

Inductive result (A : Type) : Type :=
| Ok (a : A)
| Failed (e : error)
| Stopped               (* [return] before the end *)
| Waiting.              (* an [await] on the feed never resumes *)
Arguments Failed {A} e.
Arguments Stopped {A}.
Arguments Waiting {A}.

Definition IO (A : Type) : Type := (list IOEvent * result A)%type.

Definition io_ret {A} (a : A) : IO A := ([], Ok a).
Definition io_bind {A B} (m : IO A) (f : A -> IO B) : IO B :=
  match m with
  | (t, Ok a) => let (t', r) := f a in (t ++ t', r)
  | (t, Failed e) => (t, Failed e)
  | (t, Stopped) => (t, Stopped)
  | (t, Waiting) => (t, Waiting)
  end.
Definition io_emit (e : IOEvent) : IO unit := ([e], Ok tt).
Definition io_raise {A} (e : error) : IO A := ([], Failed e).
Definition io_stop {A} : IO A := ([], Stopped).

(** A computation of the option commands, seen from here. *)
Definition lift {A} (m : M A) : IO A :=
  (map Core (fst m),
   match snd m with
   | Done a => Ok a
   | Raised e => Failed (Py e)
   | Aborted => Stopped
   | Blocked => Waiting
   end).

Definition print_error (msg : string) : IO unit := io_emit (Core (PrintError msg)).
Definition print_warning (msg : string) : IO unit := io_emit (PrintWarning msg).
Definition input (prompt : string) : IO unit := io_emit (Core (Prompt prompt)).

End Console.
Import Console.

Notation "x <~ m ;; k" := (io_bind m (fun x => k))
  (at level 100, m at next level, right associativity) : py_scope.
Notation "m ;;~ k" := (io_bind m (fun _ => k))
  (at level 100, right associativity) : py_scope.

(** ** src/ttcli/utils.py: order check, confirmation, session *)

Module ttcli_utils.
Import Stdlib.Strings.Ascii.

(** *** test_order_handle_errors *)

(** The parsed body of the dry-run response.  An entry of [errors] is a
    JSON object with string values. *)
Record ErrorContent : Type := mkErrorContent {
  ec_message : option string;
  ec_errors : option (list (dict string)) }.

Record PlacedOrderResponse : Type := mkPlaced {
  change_in_buying_power : Q;     (* buying_power_effect.change_in_buying_power *)
  total_fees : Q;                 (* fee_calculation.total_fees *)
  warnings : list string }.       (* the messages of the warnings *)

Record Response : Type := mkResponse {
  status_code : Z;
  json_error : option ErrorContent;       (* response.json()['error'] *)
  json_data : option PlacedOrderResponse  (* response.json()['data'] *) }.

(** [d[k]] on a parsed JSON object. *)
Definition field {A} (v : option A) : IO A :=
  match v with
  | Some a => io_ret a
  | None => io_raise (Py KeyError)
  end.

(** The [for error in errors] loop. *)
Fixpoint print_errors (errors : list (dict string)) : IO unit :=
  match errors with
  | [] => io_ret tt
  | error :: errors' =>
      (match dict_get "code" error with
       | Some _ => m <~ field (dict_get "message" error) ;; print_error m
       | None => m <~ field (dict_get "reason" error) ;; print_error m
       end) ;;~
      print_errors errors'
  end.

Definition test_order_handle_errors (post : Account -> NewOrder -> Response)
           (account : Account) (order : NewOrder)
  : IO (option PlacedOrderResponse) :=
  io_emit (DryRun account order) ;;~
  let response := post account order in
  if negb (status_code response / 100 =? 2) then
    content <~ field (json_error response) ;;
    m <~ field (ec_message content) ;;
    print_error m ;;~
    (match ec_errors content with
     | Some errors => print_errors errors
     | None => io_ret tt
     end) ;;~
    io_ret None
  else
    data <~ field (json_data response) ;;
    io_ret (Some data).

(** *** get_confirmation *)

(** [str.lower] on the characters A-Z. *)
Definition lower_char (c : Ascii.ascii) : Ascii.ascii :=
  let n := Ascii.nat_of_ascii c in
  if (65 <=? n)%nat && (n <=? 90)%nat then Ascii.ascii_of_nat (n + 32) else c.

Fixpoint lower (s : string) : string :=
  match s with
  | EmptyString => EmptyString
  | String c s' => String (lower_char c) (lower s')
  end.

(** [stdin] holds the lines the operator will type. *)
Fixpoint get_confirmation (prompt : string) (default : bool) (stdin : list string)
  : IO bool :=
  match stdin with
  | [] => input prompt ;;~ io_raise (Py EOFError)
  | line :: stdin' =>
      input prompt ;;~
      match lower line with
      | EmptyString => io_ret default
      | String c _ =>
          if Ascii.eqb c "y"%char then io_ret true
          else if Ascii.eqb c "n"%char then io_ret false
          else get_confirmation prompt default stdin'
      end
  end.

(** *** ConfigParser *)

(** The configuration as the parser holds it after reading the file: the
    options of the [DEFAULT] section and those of the other sections,
    option names as stored (lower-cased), values as written. *)
Record ConfigParser : Type := mkConfig {
  defaults : dict string;
  sections : dict (dict string) }.

(** ["%" in v] *)
Fixpoint has_percent (v : string) : bool :=
  match v with
  | EmptyString => false
  | String c v' => Ascii.eqb c "%"%char || has_percent v'
  end.

(** Where the scan of a value stands: in plain text, after a [%], inside
    the name of [%(name)s], or after its closing parenthesis. *)
Inductive scan_state : Type :=
| Text | Percent | Name (var : string) | Close (var : string).

(** [BasicInterpolation._interpolate_some]: [%%] gives [%], [%(name)s]
    gives the value of option [name] (looked up lower-cased in [map] and
    interpolated in turn when it holds a [%]), any other use of [%] is a
    syntax error; [depth_left] counts the levels left of
    [MAX_INTERPOLATION_DEPTH = 10]. *)
Fixpoint interpolate_some (depth_left : nat) (map : string -> option string)
         (rest : string) {struct depth_left} : IO string :=
  match depth_left with
  | O => io_raise InterpolationDepthError
  | S depth_left' =>
      (fix scan (st : scan_state) (rest : string) {struct rest} : IO string :=
         match rest with
         | EmptyString =>
             match st with
             | Text => io_ret EmptyString
             | _ => io_raise InterpolationSyntaxError
             end
         | String c rest' =>
             match st with
             | Text =>
                 if Ascii.eqb c "%"%char then scan Percent rest'
                 else s <~ scan Text rest' ;; io_ret (String c s)
             | Percent =>
                 if Ascii.eqb c "%"%char
                 then s <~ scan Text rest' ;; io_ret (String "%"%char s)
                 else if Ascii.eqb c "("%char then scan (Name EmptyString) rest'
                 else io_raise InterpolationSyntaxError
             | Name var =>
                 if Ascii.eqb c ")"%char then
                   match var with
                   | EmptyString => io_raise InterpolationSyntaxError
                   | _ => scan (Close var) rest'
                   end
                 else scan (Name (var ++ String c EmptyString)%string) rest'
             | Close var =>
                 if Ascii.eqb c "s"%char then
                   match map (lower var) with
                   | None => io_raise InterpolationMissingOptionError
                   | Some v =>
                       v' <~ (if has_percent v
                              then interpolate_some depth_left' map v
                              else io_ret v) ;;
                       s <~ scan Text rest' ;;
                       io_ret (v' ++ s)%string
                   end
                 else io_raise InterpolationSyntaxError
             end
         end) Text rest
  end.

(** [config[section].get(option)] for the options [section_dict] of an
    existing section: the option is looked up in the section, then in
    the defaults, and its value is interpolated; a missing option gives
    the fallback [None]. *)
Definition SectionProxy_get (cfg : ConfigParser) (section_dict : dict string)
           (option_ : string) : IO (option string) :=
  let map := fun o => match dict_get o section_dict with
                      | Some v => Some v
                      | None => dict_get o (defaults cfg)
                      end in
  match map option_ with
  | None => io_ret None
  | Some value => v <~ interpolate_some 10 map value ;; io_ret (Some v)
  end.

(** *** RenewableSession *)

Record RenewableSession : Type := mkSession {
  config : ConfigParser;
  accounts : list Account }.

(** Truthiness of an optional string. *)
Definition truthy_str (s : option string) : bool :=
  match s with
  | Some (String _ _) => true
  | _ => false
  end.

(** [a or config['general'].get(option)]: the configuration is read only
    when [a] is falsy. *)
Definition or_get (a : option string) (cfg : ConfigParser)
           (general : dict string) (option_ : string) : IO (option string) :=
  if truthy_str a then io_ret a else SectionProxy_get cfg general option_.

(** [_get_credentials]; [getenv] is the environment and [typed] the lines
    typed at the [getpass] prompts. *)
Definition get_credentials (getenv : string -> option string)
           (cfg : ConfigParser) (typed : list string) : IO (string * string) :=
  let username := getenv "TT_USERNAME"%string in
  let password := getenv "TT_PASSWORD"%string in
  found <~ match dict_get "general" (sections cfg) with
           | Some general =>
               username <~ or_get username cfg general "username" ;;
               password <~ or_get password cfg general "password" ;;
               io_ret (username, password)
           | None => io_ret (username, password)
           end ;;
  let '(username, password) := found in
  asked <~ (if negb (truthy_str username) then
              io_emit (GetPass "Username: ") ;;~
              match typed with
              | [] => io_raise (Py EOFError)
              | u :: typed' => io_ret (u, typed')
              end
            else io_ret (match username with Some u => u | None => EmptyString end,
                         typed)) ;;
  let '(username, typed) := asked in
  password <~ (if negb (truthy_str password) then
                 io_emit (GetPass "Password: ") ;;~
                 match typed with
                 | [] => io_raise (Py EOFError)
                 | p :: _ => io_ret p
                 end
               else io_ret (match password with Some p => p | None => EmptyString end)) ;;
  io_ret (username, password).

(** The menu printed by [for i in range(len(self.accounts))]. *)
Fixpoint print_accounts (i : nat) (accs : list Account) : IO unit :=
  match accs with
  | [] => io_ret tt
  | a :: accs' =>
      io_emit (AccountLine (Z.of_nat i + 1) a (Nat.eqb i 0)) ;;~
      print_accounts (S i) accs'
  end.

(** [xs[i]] here. *)
Definition io_index {A} (xs : list A) (i : nat) : IO A :=
  match nth_error xs i with
  | Some x => io_ret x
  | None => io_raise (Py IndexError)
  end.

(** The [while choice not in range(1, len(self.accounts) + 1)] loop: any
    answer that is not an integer returns the first account. *)
Fixpoint choose_account (accs : list Account) (choice : Z) (stdin : list RawInput)
  : IO Account :=
  if (1 <=? choice) && (choice <? Z.of_nat (List.length accs) + 1) then
    io_index accs (Z.to_nat (choice - 1))
  else
    match stdin with
    | [] => input "Please choose an account: " ;;~ io_raise (Py EOFError)
    | raw :: stdin' =>
        input "Please choose an account: " ;;~
        match raw with
        | IntText n => choose_account accs n stdin'
        | Blank => io_index accs 0
        | OtherText => io_index accs 0
        end
    end.

Definition get_account (self : RenewableSession) (stdin : list RawInput)
  : IO Account :=
  general <~ field (dict_get "general" (sections (config self))) ;;
  account <~ SectionProxy_get (config self) general "default-account" ;;
  let menu :=
    print_accounts O (accounts self) ;;~
    choose_account (accounts self) 0 stdin in
  if truthy_str account then
    match find (fun a => match account with
                         | Some n => String.eqb (account_number a) n
                         | None => false
                         end) (accounts self) with
    | Some a => io_ret a
    | None =>
        print_warning "Default account is set, but the account doesn't appear to exist!" ;;~
        menu
    end
  else menu.

End ttcli_utils.
Import ttcli_utils.

(** ** src/ttcli/option.py: order review and submission, option chain *)

Module ttcli_commands.

(** What the second half of a command obtains from outside: the session
    with its configuration and accounts, the keyboard at the account and
    confirmation prompts, and the brokerage's answers. *)
Record Desk : Type := mkDesk {
  session : RenewableSession;
  stdin_account : list RawInput;
  dry_run : Account -> NewOrder -> Response;
  net_liquidating_value : Account -> Q;
  stdin_confirm : list string }.

(** [a / b] on [Decimal]s: [0 / 0] signals [InvalidOperation], any other
    division by zero [DivisionByZero].  The quotient, which Python rounds
    to 28 significant digits before it is shown with two decimals, is
    kept exact. *)
Definition decimal_div (a b : Q) : IO Q :=
  if Qeq_bool b (0 # 1) then
    if Qeq_bool a (0 # 1) then io_raise (Py InvalidOperation)
    else io_raise DivisionByZero
  else io_ret (a / b)%Q.

(** [for warning in data.warnings: print_warning(warning.message)] *)
Fixpoint print_warnings (ws : list string) : IO unit :=
  match ws with
  | [] => io_ret tt
  | w :: ws' => print_warning w ;;~ print_warnings ws'
  end.

(** Lines 166-198, 294-326 and 459-531: account, dry run, review table,
    warnings, confirmation, submission.  [rows] builds the lines of the
    review table from the buying power effect, its percentage and the
    fees. *)
Definition review_and_send (dk : Desk) (order : NewOrder)
           (rows : Q -> Q -> Q -> list ReviewRow) : IO unit :=
  acc <~ get_account (session dk) (stdin_account dk) ;;
  data <~ test_order_handle_errors (dry_run dk) acc order ;;
  match data with
  | None => io_stop
  | Some data =>
      io_emit (GetBalances acc) ;;~
      let nl := net_liquidating_value dk acc in
      let bp := change_in_buying_power data in
      ratio <~ decimal_div bp nl ;;
      let percent := (ratio * (100 # 1))%Q in
      let fees := total_fees data in
      io_emit (Review (rows bp percent fees)) ;;~
      print_warnings (warnings data) ;;~
      send <~ get_confirmation "Send order? Y/n " true (stdin_confirm dk) ;;
      if send then io_emit (PlaceOrder acc order) else io_ret tt
  end.

(** The review lines of [call] / [put]. *)
Definition rows_single (k : OptionKind) (symbol : string) (quantity : Z)
           (r : SingleLocals) (bp percent fees : Q) : list ReviewRow :=
  mkRow quantity symbol (sl_strike r) k
        (Some (price (sl_order r), bp, percent, fees))
  :: match sl_spread_strike r with
     | Some spread_strike =>
         [mkRow (- quantity) symbol (strike_price spread_strike) k None]
     | None => []
     end.

(** [call] and [put] in full. *)
Definition single_command (k : OptionKind) (w : World) (dk : Desk)
           (symbol : string) (quantity : Z) (strike : option Q)
           (width : option Z) (gtc weeklies : bool) (delta : option Z)
  : IO unit :=
  r <~ lift (single k w symbol quantity strike width gtc weeklies delta) ;;
  review_and_send dk (sl_order r) (rows_single k symbol quantity r).

Definition call_command := single_command CALL.
Definition put_command := single_command PUT.

(** The review lines of [strangle]. *)
Definition rows_strangle (symbol : string) (quantity : Z) (r : StrangleLocals)
           (bp percent fees : Q) : list ReviewRow :=
  [mkRow quantity symbol (strike_price (st_put_strike r)) PUT
         (Some (price (st_order r), bp, percent, fees));
   mkRow quantity symbol (strike_price (st_call_strike r)) CALL None]
  ++ match st_spreads r with
     | Some (put_spread_strike, call_spread_strike) =>
         [mkRow (- quantity) symbol (strike_price put_spread_strike) PUT None;
          mkRow (- quantity) symbol (strike_price call_spread_strike) CALL None]
     | None => []
     end.

(** [strangle] in full. *)
Definition strangle_command (w : World) (dk : Desk) (symbol : string)
           (quantity : Z) (call : option Q) (width : option Z)
           (gtc weeklies : bool) (delta : option Z) (put : option Q)
  : IO unit :=
  r <~ lift (strangle w symbol quantity call width gtc weeklies delta put) ;;
  review_and_send dk (st_order r) (rows_strangle symbol quantity r).

(** *** chain *)

(** [xs[start:stop]]: a negative bound counts from the end, and both are
    clipped to the list. *)
Definition slice {A} (xs : list A) (start stop : Z) : list A :=
  let n := Z.of_nat (List.length xs) in
  let clip i := if i <? 0 then Z.max (i + n) 0 else Z.min i n in
  firstn (Z.to_nat (clip stop - clip start)) (skipn (Z.to_nat (clip start)) xs).

(** [int(x)] on a [Decimal]: towards zero. *)
Definition int (x : Q) : Z := Z.quot (Qnum x) (Z.pos (Qden x)).

(** [while subchain.strikes[mid_index].strike_price < strike_price:
    mid_index += 1], started at [mid_index] with the strikes from there
    on. *)
Fixpoint find_mid_index (rest : list Strike) (strike_price_ : Q) (mid_index : nat)
  : M nat :=
  match rest with
  | [] => raise IndexError
  | s :: rest' =>
      if Qltb (strike_price s) strike_price_
      then find_mid_index rest' strike_price_ (S mid_index)
      else ret mid_index
  end.

(** Lines 563-569: the strikes to show. *)
Definition all_strikes (strikes_ : Z) (strike_price_ : Q)
           (subchain : NestedOptionChainExpiration) : M (list Strike) :=
  if strikes_ * 2 <? Z.of_nat (List.length (strikes subchain)) then
    mid_index <- find_mid_index (strikes subchain) strike_price_ O ;;
    ret (slice (strikes subchain)
               (Z.of_nat mid_index - strikes_) (Z.of_nat mid_index + strikes_))
  else ret (strikes subchain).

Record ChainRow : Type := mkChainRow {
  call_delta : Z;
  call_bid : Q;
  call_ask : Q;
  row_strike : Q;
  put_bid : Q;
  put_ask : Q;
  put_delta : Z }.

Inductive TableRow : Type :=
| Row (r : ChainRow)
| Separator.             (* the [ITM] line *)

(** Lines 580-599: the rows of the table. *)
Fixpoint chain_rows (strikes_ : Z) (quote_dict : dict Quote)
         (greeks_dict : dict Greeks) (i : nat) (shown : list Strike)
  : M (list TableRow) :=
  match shown with
  | [] => ret []
  | strike :: shown' =>
      pq <- getitem quote_dict (put_streamer_symbol strike) ;;
      pg <- getitem greeks_dict (put_streamer_symbol strike) ;;
      cq <- getitem quote_dict (call_streamer_symbol strike) ;;
      cg <- getitem greeks_dict (call_streamer_symbol strike) ;;
      let row := mkChainRow (int (delta cg * (100 # 1))) (bidPrice cq) (askPrice cq)
                            (strike_price strike)
                            (bidPrice pq) (askPrice pq)
                            (int (delta pg * (100 # 1))) in
      rows <- chain_rows strikes_ quote_dict greeks_dict (S i) shown' ;;
      ret (Row row
           :: (if Z.of_nat i =? strikes_ - 1 then [Separator] else [])
           ++ rows)
  end.

(** Lines 563-599: the strikes shown, their quotes and greeks, the rows.
    [listen_quotes] reads the quote channel from its second event on,
    the first having answered [get_event]. *)
Definition chain_table (w : World) (symbol : string) (strikes_ : Z)
           (strike_price_ : Q) (subchain : NestedOptionChainExpiration)
  : M (list TableRow) :=
  shown <- all_strikes strikes_ strike_price_ subchain ;;
  let dxfeeds := map call_streamer_symbol shown ++ map put_streamer_symbol shown in
  emit (Subscribe QUOTE dxfeeds) ;;;
  emit (Subscribe GREEKS dxfeeds) ;;;
  greeks_dict <- await (listen_greeks (Z.of_nat (List.length dxfeeds))
                                      (greeks_feed w)) ;;
  quote_dict <- await (listen_quotes (Z.of_nat (List.length dxfeeds))
                                     (tl (quote_feed w)) (Some symbol)) ;;
  chain_rows strikes_ quote_dict greeks_dict O shown.

(** The command; its value is the table printed at the end. *)
Definition chain (w : World) (symbol : string) (strikes_ : Z) (weeklies : bool)
  : M (list TableRow) :=
  emit Login ;;;
  emit Connect ;;;
  emit (Subscribe QUOTE [symbol]) ;;;
  quote <- get_event (quote_feed w) ;;
  let strike_price_ := ((bidPrice quote + askPrice quote) / (2 # 1))%Q in
  emit (GetChain symbol) ;;;
  let chain := get_chain w symbol in
  expiration <- choose_expiration (get_tasty_monthly w) (stdin_expiration w)
                                  chain weeklies ;;
  subchain <- next (fun e => date_eqb (expiration_date e) expiration)
                   (expirations chain) ;;
  chain_table w symbol strikes_ strike_price_ subchain.

End ttcli_commands.
Import ttcli_commands.

(** ** Notions used to state the properties *)

Section Aggregation.
Context {E : Type} `{Event E}.

(** One iteration of an aggregation loop on the mapping. *)
Definition store (skip : option string) (d : dict E) (e : E) : dict E :=
  if differs (eventSymbol e) skip then dict_set (eventSymbol e) e d else d.

(** The mapping after the events [evs] have been consumed. *)
Definition snapshot (skip : option string) (d : dict E) (evs : list E) : dict E :=
  fold_left (store skip) evs d.

(** The loop shape shared by [listen_quotes] and [listen_greeks]. *)
Fixpoint listen_from (n : Z) (skip : option string) (d : dict E)
         (evs : list E) : option (dict E) :=
  match evs with
  | [] => None
  | e :: evs' =>
      if len (store skip d e) =? n then Some (store skip d e)
      else listen_from n skip (store skip d e) evs'
  end.

(** [consumed] is a non-empty run of events after which the mapping has
    [n] entries for the first time. *)
Definition completes_at (n : Z) (skip : option string) (d : dict E)
           (consumed : list E) : Prop :=
  consumed <> [] /\
  len (snapshot skip d consumed) = n /\
  forall p q, consumed = p ++ q -> p <> [] -> q <> [] ->
              len (snapshot skip d p) <> n.

(** The last event for symbol [s] among the accepted events of [evs]. *)
Definition last_event (s : string) (skip : option string) (evs : list E)
  : option E :=
  find (fun e => String.eqb s (eventSymbol e))
       (rev (filter (fun e => differs (eventSymbol e) skip) evs)).

End Aggregation.

(** Events of other symbols than [S]. *)
Definition without (S : string) (evs : list Quote) : list Quote :=
  filter (fun q => negb (String.eqb (eventSymbol q) S)) evs.

(** Every entry of a mapping built with skip symbol [S] is filed under its
    own symbol, which is not [S]. *)
Definition clean (S : string) (d : dict Quote) : Prop :=
  forall k q, In (k, q) d -> eventSymbol q = k /\ k <> S.

(** [g0] is the first reading of [greeks] whose absolute deviation is
    minimal: strictly smaller than that of every earlier reading, and no
    larger than that of every later one. *)
Definition first_minimiser (dev : Greeks -> Q) (greeks : list Greeks)
           (g0 : Greeks) : Prop :=
  exists pre post,
    greeks = pre ++ g0 :: post /\
    Forall (fun g => (Qabs (dev g0) < Qabs (dev g))%Q) pre /\
    Forall (fun g => (Qabs (dev g0) <= Qabs (dev g))%Q) post.

(** The field invariant of the orders built by the commands. *)
Definition order_invariant (gtc : bool) (quantity : Z) (o : NewOrder) : Prop :=
  price_effect o = (if quantity <? 0 then CREDIT else DEBIT) /\
  time_in_force o = (if gtc then GTC else DAY) /\
  order_type o = LIMIT.

(** The brokerage answers a request for the contracts [near] and [far]
    with their two instruments [o_near] and [o_far], in either order. *)
Definition answers_with (w : World) (near far : string) (near_strike far_strike : Q)
           (o_near o_far : OptionInstr) : Prop :=
  Permutation (get_options w [near; far]) [o_near; o_far] /\
  symbol o_near = near /\ (o_strike_price o_near == near_strike)%Q /\
  symbol o_far = far /\ (o_strike_price o_far == far_strike)%Q.

(** The expirations printed in the menu, in order. *)
Definition offers (t : list Effect) : list date :=
  flat_map (fun e => match e with Offer _ d _ => [d] | _ => [] end) t.

(** An answer to the expiration prompt after which the prompt is shown
    again: a non-empty text that is not a number, or a number that is not
    one of the [n] menu entries. *)
Definition asks_again (n : nat) (raw : RawInput) : bool :=
  match raw with
  | Blank => false
  | OtherText => true
  | IntText c => negb ((1 <=? c) && (c <=? Z.of_nat n))
  end.

(** ** Sample data *)

Module Sample.

(** The feeds of the aggregation examples. *)
Definition X10 : Quote := mkQuote "X" 1.0 1.1.
Definition X12 : Quote := mkQuote "X" 1.2 1.3.
Definition Y20 : Quote := mkQuote "Y" 2.0 2.1.
Definition S50 : Quote := mkQuote "S" 50.0 50.1.

Definition feed_XYX : list Quote := [X10; Y20; X12].
Definition feed_XXY : list Quote := [X10; X12; Y20].
Definition feed_SXSY : list Quote := [S50; X10; S50; Y20; X12].

(** The readings of the delta-selection example, and a tie. *)
Definition gA : Greeks := mkGreeks "A" 0.30.
Definition gB : Greeks := mkGreeks "B" 0.32.
Definition gC : Greeks := mkGreeks "C" 0.25.
Definition gD : Greeks := mkGreeks "D" 0.28.
Definition gE : Greeks := mkGreeks "E" 0.60.

(** A chain with one weekly and two monthly expirations over four
    strikes, the brokerage answering [get_options] in reverse order of
    the request. *)
Definition strikes4 : list Strike :=
  [mkStrike 95 "C95" "P95" ".C95" ".P95";
   mkStrike 100 "C100" "P100" ".C100" ".P100";
   mkStrike 105 "C105" "P105" ".C105" ".P105";
   mkStrike 110 "C110" "P110" ".C110" ".P110"].

Definition jan12 : date := Date 2024 1 12.
Definition jan19 : date := Date 2024 1 19.
Definition feb16 : date := Date 2024 2 16.

Definition chain : NestedOptionChain :=
  mkChain [mkExpiration jan12 strikes4; mkExpiration jan19 strikes4;
           mkExpiration feb16 strikes4].

Definition instrument (sym : string) : OptionInstr :=
  match find (fun s => String.eqb (SDK.call s) sym || String.eqb (SDK.put s) sym)
             strikes4 with
  | Some s => mkOption sym (strike_price s)
  | None => mkOption sym 0
  end.

Definition call_greeks : list Greeks :=
  [mkGreeks ".C95" 0.75; mkGreeks ".C100" 0.52;
   mkGreeks ".C105" 0.30; mkGreeks ".C110" 0.12].
Definition put_greeks : list Greeks :=
  [mkGreeks ".P95" (-0.10); mkGreeks ".P100" (-0.31);
   mkGreeks ".P105" (-0.55); mkGreeks ".P110" (-0.80)].

Definition call_spread_quotes : list Quote :=
  [mkQuote ".C110" 0.40 0.45; mkQuote ".C105" 1.00 1.10].
Definition long_spread_quotes : list Quote :=
  [mkQuote ".C110" 0.5 0.6;
   mkQuote ".C105" 1.500000000000000000000000001 1.600000000000000000000000002].
Definition put_spread_quotes : list Quote :=
  [mkQuote ".P100" 2.00 2.10; mkQuote ".P95" 0.90 1.00].
Definition strangle_quotes : list Quote :=
  [mkQuote ".P100" 2.00 2.10; mkQuote ".C105" 1.00 1.10].
Definition condor_quotes : list Quote :=
  [mkQuote ".P100" 2.00 2.10; mkQuote ".C105" 1.00 1.10;
   mkQuote ".P95" 0.90 1.00; mkQuote ".C110" 0.40 0.45].

Definition world (greeks : list Greeks) (quotes : list Quote)
           (typed : PriceInput) : World :=
  mkWorld (fun _ => chain) jan19 [Blank] greeks quotes typed
          (fun syms => rev (map instrument syms)) instrument.

End Sample.

(** The distinct symbols among the accepted events of a stream. *)
Definition distinct {E} `{Event E} (skip : option string) (evs : list E)
  : list string :=
  nodup string_dec
        (map eventSymbol (filter (fun e => differs (eventSymbol e) skip) evs)).

(** The parameters [call] and [put] let through: a truthy strike without
    delta, or a non-zero delta of magnitude at most 99 without strike. *)
Definition valid_single (strike : option Q) (delta : option Z) : bool :=
  match strike, delta with
  | Some s, None => negb (Qeq_bool s (0 # 1))
  | None, Some d => negb (d =? 0) && (Z.abs d <=? 99)
  | _, _ => false
  end.

(** A quote whose bid does not exceed its ask. *)
Definition uncrossed (q : Quote) : Prop := (bidPrice q <= askPrice q)%Q.

(** [o] is the instrument of contract [sym], struck at [strike]. *)
Definition instrument_of (o : OptionInstr) (sym : string) (strike : Q) : Prop :=
  symbol o = sym /\ (o_strike_price o == strike)%Q.

(** What one answer to a yes/no prompt decides: nothing typed is the
    default, a first letter y or n (in either case) is yes or no, and
    anything else decides nothing. *)
Definition verdict (default : bool) (answer : string) : option bool :=
  if String.eqb answer "" then Some default
  else if prefix "y" answer || prefix "Y" answer then Some true
  else if prefix "n" answer || prefix "N" answer then Some false
  else None.

(** [n] prompts with the text [p]. *)
Definition prompts (p : string) (n : nat) : list IOEvent :=
  repeat (Core (Prompt p)) n.

(** The brokerage accepted the dry run of [order]. *)
Definition accepted (r : Response) : Prop := 200 <= status_code r < 300.

(** The line the order check prints for one entry of [errors]. *)
Definition error_line (error : dict string) : option string :=
  match dict_get "code" error with
  | Some _ => dict_get "message" error
  | None => dict_get "reason" error
  end.

(** An answer at the account prompt that the menu of [n] accounts does
    not offer. *)
Definition off_menu (n : nat) (raw : RawInput) : Prop :=
  exists k, raw = IntText k /\ ~ (1 <= k <= Z.of_nat n).

(** The account an answer at the prompt selects from a menu. *)
Definition picked (accs : list Account) (raw : RawInput) : option Account :=
  match raw with
  | IntText k => if (1 <=? k) && (k <=? Z.of_nat (List.length accs))
                 then nth_error accs (Z.to_nat (k - 1)) else None
  | _ => nth_error accs 0
  end.

(** The numbered lines of the account menu. *)
Fixpoint account_lines (i : nat) (accs : list Account) : list IOEvent :=
  match accs with
  | [] => []
  | a :: accs' => AccountLine (Z.of_nat i + 1) a (Nat.eqb i 0)
                  :: account_lines (S i) accs'
  end.

(** ** Sample session *)

Module SampleDesk.

Definition individual : Account := mkAccount "5WX00001" "Individual".
Definition ira : Account := mkAccount "5WX00002" "IRA".

(** A configuration without a default account, one that names the
    second account and one that names an account the session lacks. *)
Definition plain : RenewableSession :=
  mkSession (mkConfig [] [("general", [("username", "trader")])]%string)
            [individual; ira].
Definition preset : RenewableSession :=
  mkSession (mkConfig [] [("general", [("default-account", "5WX00002")])]%string)
            [individual; ira].
Definition stale : RenewableSession :=
  mkSession (mkConfig [] [("general", [("default-account", "5WX00009")])]%string)
            [individual; ira].

Definition filled : PlacedOrderResponse := mkPlaced (-250) 1.12 ["Market is closed"]%string.

Definition ok_response : Response := mkResponse 201 None (Some filled).

Definition rejected : Response :=
  mkResponse 422
    (Some (mkErrorContent (Some "Order failed validation")
             (Some [[("code", "margin_check_failed");
                     ("message", "Insufficient buying power")];
                    [("domain", "order"); ("reason", "Price out of range")]])))%string
    None.

End SampleDesk.

(** The orders a trace submits for execution, in order. *)
Fixpoint sent (t : list IOEvent) : list (Account * NewOrder) :=
  match t with
  | [] => []
  | PlaceOrder a o :: t' => (a, o) :: sent t'
  | _ :: t' => sent t'
  end.

(** The review tables a trace shows. *)
Fixpoint reviews (t : list IOEvent) : list (list ReviewRow) :=
  match t with
  | [] => []
  | Review rows :: t' => rows :: reviews t'
  | _ :: t' => reviews t'
  end.

(** Everything that must hold for [order] to go out on account [a]: the
    session yields [a], the brokerage accepts the dry run and returns
    its data, the account's net liquidating value is not zero, and the
    operator's answers at the last prompt amount to yes. *)
Definition cleared (dk : Desk) (order : NewOrder) (a : Account) : Prop :=
  (exists ta, get_account (session dk) (stdin_account dk) = (ta, Ok a)) /\
  accepted (dry_run dk a order) /\
  (exists d, json_data (dry_run dk a order) = Some d) /\
  ~ (net_liquidating_value dk a == 0)%Q /\
  snd (get_confirmation "Send order? Y/n " true (stdin_confirm dk)) = Ok true.

(** ** Sample desks *)

Module SampleDesks.

(** The second account is preset; the dry run is accepted; the operator
    presses Enter at the last prompt. *)
Definition funded : Desk :=
  mkDesk SampleDesk.preset [] (fun _ _ => SampleDesk.ok_response)
         (fun _ => 10000%Q) [""]%string.

(** The same with an account whose net liquidating value is zero. *)
Definition unfunded : Desk :=
  mkDesk SampleDesk.preset [] (fun _ _ => SampleDesk.ok_response)
         (fun _ => 0%Q) [""]%string.

End SampleDesks.

(** The spot price [chain] derives from the quote of the underlying. *)
Definition spot (q : Quote) : Q := ((bidPrice q + askPrice q) / (2 # 1))%Q.

(** The strike lines of a table, without the separator. *)
Fixpoint strike_rows (rows : list TableRow) : list ChainRow :=
  match rows with
  | [] => []
  | Row r :: rows' => r :: strike_rows rows'
  | Separator :: rows' => strike_rows rows'
  end.


(** ** Sample feeds for the chain table *)

Module SampleChain.

Definition mid : Quote := mkQuote "XYZ" 101.9 102.1.

Definition option_quotes : list Quote :=
  [mkQuote ".C100" 3.10 3.30; mkQuote "XYZ" 102.0 102.2;
   mkQuote ".P100" 1.00 1.10; mkQuote ".C105" 0.90 1.00;
   mkQuote ".P105" 3.80 4.00].

Definition option_greeks : list Greeks :=
  [mkGreeks ".C100" 0.625; mkGreeks ".P100" (-0.375);
   mkGreeks ".C105" 0.30; mkGreeks ".P105" (-0.70)].

Definition world (underlying : Quote) : World :=
  mkWorld (fun _ => Sample.chain) Sample.jan19 [Blank] option_greeks
          (underlying :: option_quotes) EmptyPrice
          (fun syms => map Sample.instrument syms) Sample.instrument.

End SampleChain.

(** ** Sample chain table *)

Module SampleTable.

Definition shown : list Strike :=
  [mkStrike 100 "C100" "P100" ".C100" ".P100";
   mkStrike 105 "C105" "P105" ".C105" ".P105"].

Definition quote_dict : dict Quote :=
  [(".C100", mkQuote ".C100" 3.10 3.30); (".P100", mkQuote ".P100" 1.00 1.10);
   (".C105", mkQuote ".C105" 0.90 1.00); (".P105", mkQuote ".P105" 3.80 4.00)]%string.

Definition greeks_dict : dict Greeks :=
  [(".C100", mkGreeks ".C100" 0.625); (".P100", mkGreeks ".P100" (-0.375));
   (".C105", mkGreeks ".C105" 0.30); (".P105", mkGreeks ".P105" (-0.70))]%string.

Definition table : list TableRow :=
  [Row (mkChainRow 62 3.10 3.30 100 1.00 1.10 (-37));
   Separator;
   Row (mkChainRow 30 0.90 1.00 105 3.80 4.00 (-70))].

End SampleTable.


(** [x] is a decimal with [j] places and fewer than [b] units of the
    last place: [x = m / 10 ** j] with [|m| < b]. *)
Definition decimal (j b : Z) (x : Q) : Prop :=
  exists m : Z, (x == inject_Z m * pow10 (- j))%Q /\ Z.abs m < b.

(** Every quote on the channel has [j] places and at most 26 digits, on
    both sides: the sums and means of the pricing code then stay within
    the 28 digits of the context. *)
Definition quotes_fit (j : Z) (quotes : list Quote) : Prop :=
  Forall (fun q => decimal j (10 ^ 26) (bidPrice q)
                   /\ decimal j (10 ^ 26) (askPrice q)) quotes.

(** ** Properties *)

(** *** Dictionaries *)

Section DictFacts.
Context {V : Type}.
Implicit Types (d : dict V) (k : string) (v : V).

Lemma dict_get_set_same d k v : dict_get k (dict_set k v d) = Some v.
Proof.
  induction d as [|[k' v'] d IH]; simpl.
  - now rewrite String.eqb_refl.
  - destruct (String.eqb k k') eqn:Hk; simpl; rewrite ?String.eqb_refl, ?Hk; auto.
Qed.

Lemma dict_get_set_other d k k' v :
  k' <> k -> dict_get k' (dict_set k v d) = dict_get k' d.
Proof.
  intros Hne. apply String.eqb_neq in Hne.
  induction d as [|[k0 v0] d IH]; simpl.
  - now rewrite Hne.
  - destruct (String.eqb k k0) eqn:Hk; simpl.
    + apply String.eqb_eq in Hk; subst k0. now rewrite Hne.
    + now rewrite IH.
Qed.

Lemma keys_set_in d k v k' :
  In k' (keys (dict_set k v d)) <-> k' = k \/ In k' (keys d).
Proof.
  induction d as [|[k0 v0] d IH]; simpl.
  - intuition.
  - destruct (String.eqb k k0) eqn:Hk; simpl.
    + apply String.eqb_eq in Hk; subst k0. intuition.
    + unfold keys in IH. rewrite IH. intuition.
Qed.

Lemma keys_set_NoDup d k v : NoDup (keys d) -> NoDup (keys (dict_set k v d)).
Proof.
  induction d as [|[k0 v0] d IH]; simpl; intros Hnd.
  - constructor; [intros [] | constructor].
  - inversion Hnd as [|? ? Hnotin Hnd']; subst.
    destruct (String.eqb k k0) eqn:Hk; simpl.
    + apply String.eqb_eq in Hk; subst k0. now constructor.
    + constructor; [|now apply IH].
      intros Hin. apply keys_set_in in Hin as [->|Hin]; [|contradiction].
      now rewrite String.eqb_refl in Hk.
Qed.

Lemma set_entries d k v k' v' :
  In (k', v') (dict_set k v d) -> (k' = k /\ v' = v) \/ In (k', v') d.
Proof.
  induction d as [|[k0 v0] d IH]; simpl.
  - intros [Heq|[]]. inversion Heq; auto.
  - destruct (String.eqb k k0) eqn:Hk; simpl.
    + intros [Heq|Hin]; [inversion Heq; auto | auto].
    + intros [Heq|Hin]; [auto | destruct (IH Hin); auto].
Qed.

End DictFacts.

(** *** Aggregation loops *)

Section AggregationFacts.
Context {E : Type} `{Event E}.
Implicit Types (d : dict E) (evs : list E) (skip : option string).

Lemma snapshot_app skip d evs evs' :
  snapshot skip d (evs ++ evs') = snapshot skip (snapshot skip d evs) evs'.
Proof. apply fold_left_app. Qed.

Lemma store_NoDup skip d e : NoDup (keys d) -> NoDup (keys (store skip d e)).
Proof.
  unfold store. destruct (differs _ _); auto using keys_set_NoDup.
Qed.

Lemma snapshot_NoDup skip evs : forall d,
  NoDup (keys d) -> NoDup (keys (snapshot skip d evs)).
Proof.
  induction evs as [|e evs IH]; simpl; intros d Hd; auto.
  apply IH. now apply store_NoDup.
Qed.

Lemma snapshot_get skip evs : forall d s,
  dict_get s (snapshot skip d evs) =
  match last_event s skip evs with
  | Some e => Some e
  | None => dict_get s d
  end.
Proof.
  induction evs as [|e evs IH] using rev_ind; intros d s.
  - reflexivity.
  - rewrite snapshot_app. simpl. unfold last_event.
    rewrite filter_app, rev_app_distr. simpl.
    unfold store at 1.
    destruct (differs (eventSymbol e) skip); simpl.
    + destruct (String.eqb s (eventSymbol e)) eqn:Hs.
      * apply String.eqb_eq in Hs. subst s. apply dict_get_set_same.
      * apply String.eqb_neq in Hs.
        rewrite dict_get_set_other by assumption. apply IH.
    + apply IH.
Qed.

Lemma listen_from_complete n skip evs : forall d r,
  listen_from n skip d evs = Some r <->
  exists consumed rest,
    evs = consumed ++ rest /\ completes_at n skip d consumed /\
    r = snapshot skip d consumed.
Proof.
  induction evs as [|e evs IH]; intros d r; simpl.
  - split; [discriminate|].
    intros (c & rest & Heq & (Hne & _) & _).
    symmetry in Heq. apply app_eq_nil in Heq as [-> _]. congruence.
  - destruct (len (store skip d e) =? n) eqn:Hlen.
    + apply Z.eqb_eq in Hlen. split.
      * intros [= <-]. exists [e], evs. repeat split; auto; try discriminate.
        intros p q Hpq Hp Hq. destruct p as [|x [|y p]]; try congruence;
          simpl in Hpq; inversion Hpq; subst; try congruence.
      * intros (c & rest & Heq & (Hne & Hn & Hfirst) & ->).
        destruct c as [|x c]; [congruence|].
        simpl in Heq. inversion Heq; subst x.
        destruct c as [|y c]; [reflexivity|].
        exfalso. apply (Hfirst [e] (y :: c)); auto; discriminate.
    + apply Z.eqb_neq in Hlen. rewrite IH. split.
      * intros (c & rest & -> & (Hne & Hn & Hfirst) & ->).
        exists (e :: c), rest. repeat split; auto; try discriminate.
        intros p q Hpq Hp Hq.
        destruct p as [|x p]; [congruence|].
        simpl in Hpq. inversion Hpq; subst x. simpl.
        destruct p as [|y p]; [exact Hlen|].
        apply (Hfirst (y :: p) q); auto; discriminate.
      * intros (c & rest & Heq & (Hne & Hn & Hfirst) & ->).
        destruct c as [|x c]; [congruence|].
        simpl in Heq. inversion Heq; subst x.
        exists c, rest. repeat split; auto.
        -- intros ->. simpl in Hn. congruence.
        -- intros p q -> Hp Hq.
           apply (Hfirst (e :: p) q); auto; discriminate.
Qed.

End AggregationFacts.

Lemma listen_quotes_from_shape n skip stream : forall d,
  listen_quotes_from n skip d stream = listen_from n skip d stream.
Proof.
  induction stream as [|q stream IH]; intros d; simpl; [reflexivity|].
  unfold store. destruct (differs _ _); destruct (_ =? _); auto.
Qed.

Lemma listen_greeks_from_shape n stream : forall d,
  listen_greeks_from n d stream = listen_from n None d stream.
Proof.
  induction stream as [|g stream IH]; intros d; simpl; [reflexivity|].
  unfold store; simpl. destruct (_ =? _); auto.
Qed.

Lemma listen_quotes_complete n stream skip r :
  listen_quotes n stream skip = Some r <->
  exists consumed rest,
    stream = consumed ++ rest /\ completes_at n skip [] consumed /\
    r = snapshot skip [] consumed.
Proof.
  unfold listen_quotes. rewrite listen_quotes_from_shape.
  apply listen_from_complete.
Qed.

Lemma listen_greeks_complete n stream r :
  listen_greeks n stream = Some r <->
  exists consumed rest,
    stream = consumed ++ rest /\ completes_at n None [] consumed /\
    r = snapshot None [] consumed.
Proof.
  unfold listen_greeks. rewrite listen_greeks_from_shape.
  apply listen_from_complete.
Qed.

(** C1 (as the spec words it) fails on its own example: with the feed
    [X->1.0, Y->2.0, X->1.2] and two expected symbols the loop returns as soon
    as [Y] has reported, so the mapping holds [X->1.0]; the later [X->1.2] is
    never consumed. *)
Lemma listen_quotes_XYX_keeps_first_X :
  listen_quotes 2 Sample.feed_XYX None
    = Some [("X"%string, Sample.X10); ("Y"%string, Sample.Y20)] /\
  listen_quotes 2 Sample.feed_XYX None
    <> Some [("X"%string, Sample.X12); ("Y"%string, Sample.Y20)].
Proof. split; [reflexivity | discriminate]. Qed.

(** C1 (amended): [listen_quotes] and [listen_greeks] return exactly when a
    non-empty run of consumed events first brings the mapping to [n]
    entries; the returned mapping is the snapshot of that run: its keys are
    pairwise distinct, there are [n] of them, and each symbol maps to the
    last accepted event for it within the run.  Events after the run are
    not consumed: [X->1.0, Y->2.0, X->1.2] gives [{X: 1.0, Y: 2.0}], while
    [X->1.0, X->1.2, Y->2.0] gives [{X: 1.2, Y: 2.0}]. *)
Theorem aggregation_returns_first_complete_snapshot :
  (forall n stream skip r,
      listen_quotes n stream skip = Some r <->
      exists consumed rest,
        stream = consumed ++ rest /\ completes_at n skip [] consumed /\
        r = snapshot skip [] consumed) /\
  (forall n stream r,
      listen_greeks n stream = Some r <->
      exists consumed rest,
        stream = consumed ++ rest /\ completes_at n None [] consumed /\
        r = snapshot None [] consumed) /\
  (forall n skip (consumed : list Quote),
      completes_at n skip [] consumed ->
      let r := snapshot skip [] consumed in
      NoDup (keys r) /\ len r = n /\
      forall s, dict_get s r = last_event s skip consumed) /\
  (forall n (consumed : list Greeks),
      completes_at n None [] consumed ->
      let r := snapshot None [] consumed in
      NoDup (keys r) /\ len r = n /\
      forall s, dict_get s r = last_event s None consumed) /\
  listen_quotes 2 Sample.feed_XYX None
    = Some [("X"%string, Sample.X10); ("Y"%string, Sample.Y20)] /\
  listen_quotes 2 Sample.feed_XXY None
    = Some [("X"%string, Sample.X12); ("Y"%string, Sample.Y20)].
Proof.
  split; [intros; apply listen_quotes_complete|].
  split; [intros; apply listen_greeks_complete|].
  split; [|split; [|split; reflexivity]].
  - intros n skip consumed (_ & Hn & _) r. subst r.
    split; [apply snapshot_NoDup; constructor|].
    split; [exact Hn|].
    intros s. rewrite snapshot_get. simpl. now destruct (last_event _ _ _).
  - intros n consumed (_ & Hn & _) r. subst r.
    split; [apply snapshot_NoDup; constructor|].
    split; [exact Hn|].
    intros s. rewrite snapshot_get. simpl. now destruct (last_event _ _ _).
Qed.

(** Witness for C1 (amended): the run [X->1.0, X->1.2, Y->2.0] completes at
    two symbols and its snapshot maps [X] to the later quote. *)
Lemma aggregation_returns_first_complete_snapshot_witness :
  let r := snapshot None [] Sample.feed_XXY in
  NoDup (keys r) /\ len r = 2 /\
  forall s, dict_get s r = last_event s None Sample.feed_XXY.
Proof.
  apply (proj1 (proj2 (proj2 aggregation_returns_first_complete_snapshot))
               2 None Sample.feed_XXY).
  split; [discriminate|]. split; [reflexivity|].
  intros p q Hpq Hp Hq.
  destruct p as [|a [|b [|c p]]]; simpl in Hpq; try congruence;
    inversion Hpq; subst; try discriminate.
  exfalso. destruct p; [apply Hq; auto | discriminate].
Defined.

(** *** The skip symbol *)

Lemma snapshot_skip_filter S stream : forall d : dict Quote,
  snapshot (Some S) d stream = snapshot None d (without S stream).
Proof.
  induction stream as [|q stream IH]; intros d; simpl; [reflexivity|].
  unfold store at 1. simpl.
  destruct (String.eqb (eventSymbol q) S); simpl; apply IH.
Qed.

Lemma listen_skip_filter S n stream : forall d : dict Quote,
  len d <> n ->
  listen_from n (Some S) d stream = listen_from n None d (without S stream).
Proof.
  induction stream as [|q stream IH]; intros d Hd; simpl; [reflexivity|].
  unfold store. simpl.
  destruct (String.eqb (eventSymbol q) S); simpl.
  - apply Z.eqb_neq in Hd. rewrite Hd. apply Z.eqb_neq in Hd. now apply IH.
  - destruct (_ =? n) eqn:Hn; [reflexivity|].
    apply IH. now apply Z.eqb_neq.
Qed.

Lemma store_clean S d q : clean S d -> clean S (store (Some S) d q).
Proof.
  intros Hd. unfold store. simpl.
  destruct (String.eqb (eventSymbol q) S) eqn:HS; simpl; [exact Hd|].
  intros k v Hin. apply set_entries in Hin as [[-> ->]|Hin]; [|now apply Hd].
  split; [reflexivity|]. now apply String.eqb_neq.
Qed.

Lemma snapshot_clean S stream : forall d,
  clean S d -> clean S (snapshot (Some S) d stream).
Proof.
  induction stream as [|q stream IH]; intros d Hd; simpl; [exact Hd|].
  apply IH. now apply store_clean.
Qed.

(** C7: with [skip=S] the quote loop leaves the mapping untouched on every
    event for [S], so the mapping after any run is the one built from the
    other events alone; a returned mapping has [n] entries, none of them
    for [S]; and for [n <> 0] the call returns exactly what it returns on
    the stream with the [S] events removed.  Nothing here refers to a set
    of expected symbols: [S] needs not be one of them. *)
Theorem skip_symbol_is_discarded (S : string) (stream : list Quote) :
  (forall d, snapshot (Some S) d stream = snapshot None d (without S stream)) /\
  (forall n r,
      listen_quotes n stream (Some S) = Some r ->
      len r = n /\ ~ In S (keys r) /\
      forall k q, In (k, q) r -> eventSymbol q = k /\ k <> S) /\
  (forall n, n <> 0 ->
      listen_quotes n stream (Some S) = listen_quotes n (without S stream) None).
Proof.
  split; [apply snapshot_skip_filter|]. split.
  - intros n r Hr.
    apply listen_quotes_complete in Hr as (c & rest & _ & (_ & Hn & _) & ->).
    assert (Hc : clean S (snapshot (Some S) [] c))
      by (apply snapshot_clean; intros k q []).
    split; [exact Hn|]. split; [|exact Hc].
    intros Hin. unfold keys in Hin. apply in_map_iff in Hin as ([k q] & Hk & Hin).
    simpl in Hk; subst k. now destruct (Hc _ _ Hin).
  - intros n Hn. unfold listen_quotes.
    rewrite !listen_quotes_from_shape. apply listen_skip_filter.
    intros H0. apply Hn. rewrite <- H0. reflexivity.
Qed.

(** Witness for C7: the underlying's own quotes [S] interleaved with the
    quotes of [X] and [Y]. *)
Lemma skip_symbol_is_discarded_witness :
  (len [("X"%string, Sample.X10); ("Y"%string, Sample.Y20)] = 2 /\
   ~ In "S"%string (keys [("X"%string, Sample.X10); ("Y"%string, Sample.Y20)]) /\
   forall k q, In (k, q) [("X"%string, Sample.X10); ("Y"%string, Sample.Y20)] ->
               eventSymbol q = k /\ k <> "S"%string) /\
  listen_quotes 2 Sample.feed_SXSY (Some "S"%string)
    = listen_quotes 2 (without "S" Sample.feed_SXSY) None.
Proof.
  destruct (skip_symbol_is_discarded "S" Sample.feed_SXSY) as (_ & Hret & Hsame).
  split; [apply (Hret 2); reflexivity | apply Hsame; discriminate].
Defined.

(** *** Delta selection *)

Lemma Qltb_lt a b : Qltb a b = true <-> (a < b)%Q.
Proof.
  unfold Qltb. rewrite negb_true_iff. split.
  - intros Hle. apply Qnot_le_lt. intros H. apply Qle_bool_iff in H. congruence.
  - intros Hlt. destruct (Qle_bool b a) eqn:Hle; [|reflexivity].
    apply Qle_bool_iff in Hle. exfalso. exact (Qlt_not_le _ _ Hlt Hle).
Qed.

Lemma Qltb_ge a b : Qltb a b = false <-> (b <= a)%Q.
Proof.
  unfold Qltb. rewrite negb_false_iff. apply Qle_bool_iff.
Qed.

Section Closest.
Context {A : Type} (dev : Greeks -> Q) (pick : Greeks -> A).

(** The scan either keeps its starting point, when no reading deviates by
    less than [lowest], or ends on the first minimiser. *)
Lemma closest_scan greeks : forall lowest selected,
  (Forall (fun g => (lowest <= Qabs (dev g))%Q) greeks /\
   closest dev pick greeks lowest selected = (lowest, selected)) \/
  (exists g0, first_minimiser dev greeks g0 /\
              (Qabs (dev g0) < lowest)%Q /\
              closest dev pick greeks lowest selected
              = (Qabs (dev g0), Some (pick g0))).
Proof.
  induction greeks as [|g greeks IH]; intros lowest selected; simpl.
  - left. split; [constructor | reflexivity].
  - destruct (Qltb (Qabs (dev g)) lowest) eqn:Hlt.
    + apply Qltb_lt in Hlt. right.
      destruct (IH (Qabs (dev g)) (Some (pick g)))
        as [[Hall ->] | (g0 & (pre & post & -> & Hpre & Hpost) & Hg0 & ->)].
      * exists g. split; [|split; [exact Hlt | reflexivity]].
        exists [], greeks. split; [reflexivity|]. split; [constructor | exact Hall].
      * exists g0. split; [|split; [|reflexivity]].
        -- exists (g :: pre), post. split; [reflexivity|].
           split; [constructor; assumption | exact Hpost].
        -- eapply Qlt_trans; eassumption.
    + apply Qltb_ge in Hlt.
      destruct (IH lowest selected)
        as [[Hall ->] | (g0 & (pre & post & -> & Hpre & Hpost) & Hg0 & ->)].
      * left. split; [constructor; assumption | reflexivity].
      * right. exists g0. split; [|split; [exact Hg0 | reflexivity]].
        exists (g :: pre), post. split; [reflexivity|].
        split; [constructor; [|exact Hpre] | exact Hpost].
        eapply Qlt_le_trans; eassumption.
Qed.

End Closest.

(** A call reading of delta 0.60 and the accepted target -50: the
    deviation is 110, which never beats the scan's starting threshold of
    100, and nothing is selected. *)
Lemma select_by_delta_far_target_selects_nothing :
  -99 <= -50 <= 99 /\
  [Sample.gE] <> [] /\
  (Qabs (deviation CALL (-50) Sample.gE) == 110)%Q /\
  select_by_delta CALL (fun g => g) [Sample.gE] (Some (-50)) = ([], Done None).
Proof. repeat split; try lia; try discriminate. Qed.

(** Below the threshold the scan is the selection of the first minimiser:
    when some reading's absolute deviation from the target is below 100,
    the scan of [call] (deviation [delta*100 - target]) and of [put]
    (deviation [delta*100 + target]) selects the first reading, in
    iteration order, whose absolute deviation is minimal; with readings
    A 0.30, B 0.32, C 0.25 and target 30 the call side selects A. *)
Lemma select_by_delta_first_minimiser :
  (forall target g,
      (deviation CALL target g == delta g * 100 - inject_Z target)%Q /\
      (deviation PUT target g == delta g * 100 + inject_Z target)%Q) /\
  (forall k target greeks,
      Exists (fun g => (Qabs (deviation k target g) < 100)%Q) greeks ->
      exists g0,
        select_by_delta k (fun g => g) greeks (Some target) = ([], Done (Some g0)) /\
        first_minimiser (deviation k target) greeks g0) /\
  select_by_delta CALL (fun g => g) [Sample.gA; Sample.gB; Sample.gC] (Some 30)
    = ([], Done (Some Sample.gA)).
Proof.
  split; [intros target g; split; reflexivity|].
  split; [|reflexivity].
  intros k target greeks Hex. unfold select_by_delta, ret.
  destruct (closest_scan (deviation k target) (fun g => g) greeks 100%Q None)
    as [[Hall _] | (g0 & Hmin & _ & ->)].
  - exfalso. apply Exists_exists in Hex as (g & Hin & Hlt).
    rewrite Forall_forall in Hall. specialize (Hall g Hin).
    exact (Qlt_not_le _ _ Hlt Hall).
  - exists g0. split; [reflexivity | exact Hmin].
Qed.

(** D (0.28) and B (0.32) both deviate from target 30 by 2; the earlier
    one is selected. *)
Lemma select_by_delta_first_minimiser_tie :
  exists g0,
    select_by_delta CALL (fun g => g) [Sample.gC; Sample.gD; Sample.gB] (Some 30)
      = ([], Done (Some g0)) /\
    first_minimiser (deviation CALL 30) [Sample.gC; Sample.gD; Sample.gB] g0.
Proof.
  apply (proj1 (proj2 select_by_delta_first_minimiser)).
  apply Exists_cons_hd. reflexivity.
Qed.

(** C2, where the code departs from the claim: the scan that is to "set
    strike with the closest delta" starts from [lowest = 100], while the
    accepted targets (-99 to 99) let a reading deviate by up to 199.  On
    every input the scan returns the first reading of minimal absolute
    deviation when that deviation is below 100, and nothing when every
    reading deviates by 100 or more, although the set is not empty and
    has a minimiser.  The failing input: [call] with [--delta -99] on the
    sample chain, whose readings deviate by 174, 151, 129 and 111; the
    parameter check lets the target through, the reading of [.C110] is
    the minimiser, nothing is selected, and the command ends in the
    [AttributeError] of [selected.eventSymbol]. *)
Theorem select_by_delta_threshold_hides_minimiser :
  (forall k target greeks,
      (exists g0,
          first_minimiser (deviation k target) greeks g0 /\
          (Qabs (deviation k target g0) < 100)%Q /\
          select_by_delta k (fun g => g) greeks (Some target)
          = ([], Done (Some g0)))
      \/ (Forall (fun g => (100 <= Qabs (deviation k target g))%Q) greeks /\
          select_by_delta k (fun g => g) greeks (Some target)
          = ([], Done None))) /\
  check_single None (Some (-99)) = ret tt /\
  first_minimiser (deviation CALL (-99)) Sample.call_greeks
                  (mkGreeks ".C110" 0.12) /\
  select_by_delta CALL (fun g => g) Sample.call_greeks (Some (-99))
  = ([], Done None) /\
  snd (call (Sample.world Sample.call_greeks [] EmptyPrice)
            "XYZ" 1 None None false false (Some (-99)))
  = Raised AttributeError.
Proof.
  split; [|split; [reflexivity|split; [|split; reflexivity]]].
  - intros k target greeks. unfold select_by_delta, ret.
    destruct (closest_scan (deviation k target) (fun g => g) greeks 100%Q None)
      as [[Hall ->] | (g0 & Hmin & Hlt & ->)].
    + right. split; [exact Hall|reflexivity].
    + left. exists g0. repeat split; assumption.
  - exists [mkGreeks ".C95" 0.75; mkGreeks ".C100" 0.52; mkGreeks ".C105" 0.30], [].
    split; [reflexivity|].
    split; repeat constructor.
Qed.

(** The scan selects nothing exactly when no reading is closer than 100. *)
Lemma select_by_delta_nothing k target greeks :
  Forall (fun g => (100 <= Qabs (deviation k target g))%Q) greeks ->
  select_by_delta k (fun g => g) greeks (Some target) = ([], Done None).
Proof.
  intros Hall. unfold select_by_delta, ret.
  destruct (closest_scan (deviation k target) (fun g => g) greeks 100%Q None)
    as [[_ ->] | (g0 & (pre & post & -> & _ & _) & Hlt & _)]; [reflexivity|].
  exfalso. rewrite Forall_forall in Hall.
  apply (Qlt_not_le _ _ Hlt), Hall, in_elt.
Qed.

(** *** Runs of the commands *)

Lemma bind_Done_inv {A B} (m : M A) (f : A -> M B) t b :
  bind m f = (t, Done b) ->
  exists t1 a t2, m = (t1, Done a) /\ f a = (t2, Done b) /\ t = t1 ++ t2.
Proof.
  unfold bind. destruct m as [t1 [a|e| |]]; try discriminate.
  destruct (f a) as [t2 r] eqn:Hf. intros [= <- ->].
  exists t1, a, t2. auto.
Qed.

Lemma ret_Done_inv {A} (a b : A) t : ret a = (t, Done b) -> a = b /\ t = [].
Proof. unfold ret. intros [= <- <-]. auto. Qed.

Lemma next_Done_inv {A} (p : A -> bool) xs t x :
  next p xs = (t, Done x) -> find p xs = Some x /\ t = [].
Proof.
  unfold next. destruct (find p xs); [|discriminate].
  intros H. apply ret_Done_inv in H as [-> ->]. auto.
Qed.

Lemma await_Done_inv {A} (r : option A) t a :
  await r = (t, Done a) -> r = Some a /\ t = [].
Proof.
  unfold await. destruct r; [|discriminate].
  intros H. apply ret_Done_inv in H as [-> ->]. auto.
Qed.

Lemma getitem_Done_inv {V} (d : dict V) k t v :
  getitem d k = (t, Done v) -> dict_get k d = Some v /\ t = [].
Proof.
  unfold getitem. destruct (dict_get k d); [|discriminate].
  intros H. apply ret_Done_inv in H as [-> ->]. auto.
Qed.

Lemma index_Done_inv {A} (xs : list A) i t x :
  index xs i = (t, Done x) -> nth_error xs i = Some x /\ t = [].
Proof.
  unfold index. destruct (nth_error xs i); [|discriminate].
  intros H. apply ret_Done_inv in H as [-> ->]. auto.
Qed.

(** Peel one [bind] off a successful run. *)
Ltac bind_inv H :=
  let t1 := fresh "t" in
  let a := fresh "a" in
  let t2 := fresh "t" in
  let Hm := fresh "Hm" in
  let Et := fresh "Et" in
  apply bind_Done_inv in H as (t1 & a & t2 & Hm & H & Et).

(** A successful run of [call] / [put] went through every stage. *)
Lemma single_Done k w symbol quantity strike width gtc weeklies delta t r :
  single k w symbol quantity strike width gtc weeklies delta = (t, Done r) ->
  exists subchain selected price legs t0 t1 t2 t3 t4 t5,
    check_single strike delta = (t0, Done tt) /\
    open_subchain w symbol weeklies = (t1, Done subchain) /\
    resolve_strike k w subchain strike delta = (t2, Done (selected, sl_strike r)) /\
    quote_single k w subchain selected (sl_strike r) width
      = (t3, Done (sl_selected r, sl_spread_strike r, sl_bid r, sl_ask r, sl_mid r)) /\
    limit_price w (sl_mid r) = (t4, Done price) /\
    legs_single k w subchain (sl_strike r) (sl_spread_strike r) quantity
      = (t5, Done (sl_short_symbol r, legs)) /\
    sl_order r = new_order gtc legs price quantity.
Proof.
  unfold single. intros H.
  bind_inv H. destruct a. bind_inv H. bind_inv H. destruct a0 as [selected strike'].
  simpl fst in H; simpl snd in H.
  bind_inv H. destruct a0 as [[[[sym spread] bid] ask] mid].
  bind_inv H. bind_inv H. bind_inv H. destruct a2 as [short legs].
  apply ret_Done_inv in H as [<- _]. simpl.
  exists a, selected, a1, legs. repeat eexists; eassumption.
Qed.

(** A successful run of [strangle] went through every stage. *)
Lemma strangle_Done w symbol quantity call put width gtc weeklies delta t r :
  strangle w symbol quantity call width gtc weeklies delta put = (t, Done r) ->
  exists subchain price legs t0 t1 t2 t3 t4 t5,
    check_strangle call put delta = (t0, Done tt) /\
    open_subchain w symbol weeklies = (t1, Done subchain) /\
    resolve_strangle w subchain call put delta
      = (t2, Done (st_put_strike r, st_call_strike r)) /\
    quote_strangle w subchain (st_put_strike r) (st_call_strike r) width
      = (t3, Done (st_spreads r, st_bid r, st_ask r, st_mid r)) /\
    limit_price w (st_mid r) = (t4, Done price) /\
    legs_strangle w (st_put_strike r) (st_call_strike r) (st_spreads r) quantity
      = (t5, Done legs) /\
    st_order r = new_order gtc legs price quantity.
Proof.
  unfold strangle. intros H.
  bind_inv H. destruct a. bind_inv H. bind_inv H. destruct a0 as [put_strike call_strike].
  simpl fst in H; simpl snd in H.
  bind_inv H. destruct a0 as [[[spreads bid] ask] mid].
  bind_inv H. bind_inv H. bind_inv H.
  apply ret_Done_inv in H as [<- _]. simpl.
  exists a, a1, a2. repeat eexists; eassumption.
Qed.

(** *** Empty reading sets *)

Lemma snapshot_nonempty {E} `{Event E} (evs : list E) : forall d,
  d <> [] -> snapshot None d evs <> [].
Proof.
  induction evs as [|e evs IH]; intros d Hd; simpl; [exact Hd|].
  apply IH. unfold store; simpl. destruct d as [|[k v] d]; [congruence|].
  simpl. destruct (String.eqb _ k); discriminate.
Qed.


(** C8 (as the spec words it) fails: on an empty reading set the scan does
    not fail, it finishes with [selected = None]; the error comes from the
    strike lookup that follows and is an [AttributeError]. *)
Lemma select_by_delta_empty_yields_None :
  select_by_delta CALL (fun g => g) [] (Some 30) = ([], Done None) /\
  strike_of_selected CALL Sample.strikes4 None = ([], Raised AttributeError).
Proof. split; reflexivity. Qed.

(** C8 (amended): on an empty reading set the scan of [call], [put] and
    [strangle] ends with nothing selected ([None]); the code has no
    [NoMatchError].  The command still does not go on with a selected
    value: the strike lookup that follows never succeeds on [None] (it
    raises [AttributeError] in [call] / [put], [StopIteration] when the
    strike list is empty and in [strangle]). *)
Theorem empty_readings_select_nothing :
  (forall (A : Type) k (pick : Greeks -> A) delta,
      select_by_delta k pick [] delta = ([], Done None)) /\
  (forall k strikes,
      strike_of_selected k strikes None
      = ([], Raised (match strikes with [] => StopIteration | _ :: _ => AttributeError end))) /\
  (forall (symbol_of : Strike -> string) strikes,
      next (fun s => eq_selected (symbol_of s) None) strikes
      = ([], Raised StopIteration)).
Proof.
  split; [intros A k pick [d|]; reflexivity|].
  split; [intros k [|s strikes]; reflexivity|].
  intros symbol_of strikes. unfold next.
  replace (find _ strikes) with (@None Strike); [reflexivity|].
  induction strikes as [|s strikes IH]; simpl; auto.
Qed.

(** *** Order fields *)

Lemma new_order_invariant gtc legs price quantity :
  order_invariant gtc quantity (new_order gtc legs price quantity).
Proof. repeat split. Qed.

(** C10: every order built by [call], [put] and [strangle] has price effect
    CREDIT for a negative quantity and DEBIT otherwise, time in force GTC
    with the gtc flag and DAY without, and order type LIMIT. *)
Theorem orders_field_invariant :
  (forall w symbol quantity strike width gtc weeklies delta t r,
      call w symbol quantity strike width gtc weeklies delta = (t, Done r) ->
      order_invariant gtc quantity (sl_order r)) /\
  (forall w symbol quantity strike width gtc weeklies delta t r,
      put w symbol quantity strike width gtc weeklies delta = (t, Done r) ->
      order_invariant gtc quantity (sl_order r)) /\
  (forall w symbol quantity call put width gtc weeklies delta t r,
      strangle w symbol quantity call width gtc weeklies delta put = (t, Done r) ->
      order_invariant gtc quantity (st_order r)).
Proof.
  split; [|split].
  - intros w symbol quantity strike width gtc weeklies delta t r Hrun.
    apply single_Done in Hrun
      as (sub & sel & price & legs & t0 & t1 & t2 & t3 & t4 & t5 & Hrun).
    decompose [and] Hrun. rewrite H6. apply new_order_invariant.
  - intros w symbol quantity strike width gtc weeklies delta t r Hrun.
    apply single_Done in Hrun
      as (sub & sel & price & legs & t0 & t1 & t2 & t3 & t4 & t5 & Hrun).
    decompose [and] Hrun. rewrite H6. apply new_order_invariant.
  - intros w symbol quantity call put width gtc weeklies delta t r Hrun.
    apply strangle_Done in Hrun
      as (sub & price & legs & t0 & t1 & t2 & t3 & t4 & t5 & Hrun).
    decompose [and] Hrun. rewrite H6. apply new_order_invariant.
Qed.

(** Witness for C10: a call spread sold five times for the day, a put
    spread sold good-till-cancelled, and an iron condor bought once. *)
Lemma orders_field_invariant_witness :
  (exists t r,
      call (Sample.world Sample.call_greeks Sample.call_spread_quotes EmptyPrice)
           "XYZ" (-5) None (Some 5) false false (Some 30) = (t, Done r) /\
      order_invariant false (-5) (sl_order r)) /\
  (exists t r,
      put (Sample.world Sample.put_greeks Sample.put_spread_quotes EmptyPrice)
          "XYZ" (-5) None (Some 5) true false (Some 30) = (t, Done r) /\
      order_invariant true (-5) (sl_order r)) /\
  (exists t r,
      strangle (Sample.world (Sample.put_greeks ++ Sample.call_greeks)
                             Sample.condor_quotes (DecimalText 2.5))
               "XYZ" 1 None (Some 5) false false (Some 30) None = (t, Done r) /\
      order_invariant false 1 (st_order r)).
Proof.
  destruct orders_field_invariant as (Hcall & Hput & Hstrangle).
  split; [|split].
  - destruct (call _ _ _ _ _ _ _ _) as [t o] eqn:Hrun.
    assert (Hc := Hrun). vm_compute in Hc. injection Hc as <- <-.
    eexists. eexists. split; [reflexivity|]. exact (Hcall _ _ _ _ _ _ _ _ _ _ Hrun).
  - destruct (put _ _ _ _ _ _ _ _) as [t o] eqn:Hrun.
    assert (Hc := Hrun). vm_compute in Hc. injection Hc as <- <-.
    eexists. eexists. split; [reflexivity|]. exact (Hput _ _ _ _ _ _ _ _ _ _ Hrun).
  - destruct (strangle _ _ _ _ _ _ _ _ _) as [t o] eqn:Hrun.
    assert (Hc := Hrun). vm_compute in Hc. injection Hc as <- <-.
    eexists. eexists. split; [reflexivity|]. exact (Hstrangle _ _ _ _ _ _ _ _ _ _ _ Hrun).
Defined.

(** *** Decimal arithmetic *)

Lemma digits_from_spec : forall fuel n,
  0 < n < 2 ^ Z.of_nat fuel ->
  1 <= digits_from fuel n /\
  10 ^ (digits_from fuel n - 1) <= n < 10 ^ digits_from fuel n.
Proof.
  induction fuel as [|fuel IH]; intros n Hn.
  - cbn in Hn. lia.
  - cbn [digits_from]. destruct (n <? 10) eqn:E.
    + apply Z.ltb_lt in E. cbn. lia.
    + apply Z.ltb_ge in E.
      assert (Hq : 0 < n / 10 < 2 ^ Z.of_nat fuel).
      { rewrite Nat2Z.inj_succ, Z.pow_succ_r in Hn by lia. split.
        - apply Z.div_str_pos. lia.
        - apply Z.div_lt_upper_bound; lia. }
      destruct (IH _ Hq) as (Hd & Hlo & Hhi).
      set (d := digits_from fuel (n / 10)) in *.
      replace (1 + d - 1) with (Z.succ (d - 1)) by lia.
      replace (1 + d) with (Z.succ d) by lia.
      rewrite !Z.pow_succ_r by lia.
      pose proof (Z.div_mod n 10 ltac:(lia)) as Hdm.
      pose proof (Z.mod_pos_bound n 10 ltac:(lia)). lia.
Qed.

Lemma digits_spec n :
  0 < n -> 1 <= digits n /\ 10 ^ (digits n - 1) <= n < 10 ^ digits n.
Proof.
  intros Hn. apply digits_from_spec. split; [exact Hn|].
  rewrite Nat2Z.inj_succ, Z2Nat.id by apply Z.log2_nonneg.
  apply Z.log2_spec. exact Hn.
Qed.

Lemma pow10_pos e : (0 < pow10 e)%Q.
Proof.
  unfold pow10. destruct (0 <=? e) eqn:E.
  - apply Z.leb_le in E. change 0%Q with (inject_Z 0). rewrite <- Zlt_Qlt.
    apply Z.pow_pos_nonneg; lia.
  - apply Z.leb_gt in E. apply Qinv_lt_0_compat.
    change 0%Q with (inject_Z 0). rewrite <- Zlt_Qlt.
    apply Z.pow_pos_nonneg; lia.
Qed.

(** [pow10] on a sum of exponents. *)
Lemma pow10_add a b : (pow10 (a + b) == pow10 a * pow10 b)%Q.
Proof.
  assert (H10 : forall k, 0 <= k -> ~ (inject_Z (10 ^ k) == 0)%Q).
  { intros k Hk H. change 0%Q with (inject_Z 0) in H. apply -> inject_Z_injective in H.
    pose proof (Z.pow_pos_nonneg 10 k). lia. }
  assert (Hmul : forall x y, 0 <= x -> 0 <= y ->
     (inject_Z (10 ^ (x + y)) == inject_Z (10 ^ x) * inject_Z (10 ^ y))%Q).
  { intros x y Hx Hy. rewrite Z.pow_add_r by lia. rewrite inject_Z_mult. reflexivity. }
  unfold pow10.
  destruct (0 <=? a) eqn:Ea, (0 <=? b) eqn:Eb, (0 <=? a + b) eqn:Eab;
    rewrite ?Z.leb_le, ?Z.leb_gt in *; try lia.
  - apply Hmul; lia.
  - (* a >= 0, b < 0, a + b >= 0 *)
    assert (E : (inject_Z (10 ^ a) == inject_Z (10 ^ (a + b)) * inject_Z (10 ^ (- b)))%Q).
    { rewrite <- Hmul by lia. replace (a + b + - b) with a by lia. reflexivity. }
    rewrite E. field. apply H10. lia.
  - assert (E : (inject_Z (10 ^ (- b)) == inject_Z (10 ^ (- (a + b))) * inject_Z (10 ^ a))%Q).
    { rewrite <- Hmul by lia. replace (- (a + b) + a) with (- b) by lia. reflexivity. }
    rewrite E. field. split; apply H10; lia.
  - assert (E : (inject_Z (10 ^ b) == inject_Z (10 ^ (a + b)) * inject_Z (10 ^ (- a)))%Q).
    { rewrite <- Hmul by lia. replace (a + b + - a) with b by lia. reflexivity. }
    rewrite E. field. apply H10. lia.
  - assert (E : (inject_Z (10 ^ (- a)) == inject_Z (10 ^ (- (a + b))) * inject_Z (10 ^ b))%Q).
    { rewrite <- Hmul by lia. replace (- (a + b) + b) with (- a) by lia. reflexivity. }
    rewrite E. field. split; apply H10; lia.
  - replace (- (a + b)) with (- a + - b) by lia. rewrite Hmul by lia.
    field. split; apply H10; lia.
Qed.

Lemma pow10_nonneg_Z e : 0 <= e -> pow10 e = inject_Z (10 ^ e).
Proof. intros H. unfold pow10. apply Z.leb_le in H. rewrite H. reflexivity. Qed.

Lemma pow10_le a b : a <= b -> (pow10 a <= pow10 b)%Q.
Proof.
  intros H. replace b with (a + (b - a)) by lia. rewrite pow10_add.
  rewrite <- (Qmult_1_r (pow10 a)) at 1.
  apply Qmult_le_l; [apply pow10_pos|].
  rewrite pow10_nonneg_Z by lia. change 1%Q with (inject_Z 1). rewrite <- Zle_Qle.
  pose proof (Z.pow_pos_nonneg 10 (b - a)). lia.
Qed.

(** The leading digit of a non-zero value sits at [adjusted]. *)
Lemma adjusted_le (x : Q) :
  ~ (x == 0)%Q -> (pow10 (adjusted x) <= Qabs x)%Q.
Proof.
  intros Hx. destruct x as [n d]. unfold adjusted. cbn [Qnum Qden].
  assert (Hp : 0 < Z.abs n).
  { destruct (Z.eq_dec n 0) as [->|]; [exfalso; apply Hx; reflexivity|lia]. }
  set (p := Z.abs n) in *.
  assert (Habs : (Qabs (n # d) == inject_Z p / inject_Z (Z.pos d))%Q).
  { unfold Qabs, p. unfold Qeq, Qdiv, Qmult, Qinv, inject_Z. cbn. lia. }
  rewrite Habs.
  assert (Hd : (0 < inject_Z (Z.pos d))%Q) by (change 0%Q with (inject_Z 0); rewrite <- Zlt_Qlt; lia).
  destruct (Z.pos d <=? p) eqn:E.
  - apply Z.leb_le in E.
    assert (Hq : 0 < p / Z.pos d) by (apply Z.div_str_pos; lia).
    destruct (digits_spec Hq) as (Hd1 & Hlo & _).
    rewrite pow10_nonneg_Z by lia.
    apply Qle_shift_div_l; [exact Hd|].
    rewrite <- inject_Z_mult, <- Zle_Qle.
    pose proof (Z.mul_div_le p (Z.pos d) ltac:(lia)). nia.
  - apply Z.leb_gt in E.
    assert (Hq : 0 < (Z.pos d - 1) / p) by (apply Z.div_str_pos; lia).
    destruct (digits_spec Hq) as (Hd1 & _ & Hhi).
    set (k := digits ((Z.pos d - 1) / p)) in *.
    unfold pow10. destruct (0 <=? - k) eqn:Ek; [apply Z.leb_le in Ek; lia|].
    rewrite Z.opp_involutive.
    assert (H10 : (0 < inject_Z (10 ^ k))%Q).
    { change 0%Q with (inject_Z 0). rewrite <- Zlt_Qlt. apply Z.pow_pos_nonneg; lia. }
    apply Qle_shift_div_l; [exact Hd|].
    rewrite Qmult_comm. apply Qle_shift_div_r; [exact H10|].
    rewrite <- inject_Z_mult, <- Zle_Qle.
    assert (Z.pos d - 1 < 10 ^ k * p); [|lia].
    pose proof (Z.div_mod (Z.pos d - 1) p ltac:(lia)) as Hdm.
    pose proof (Z.mod_pos_bound (Z.pos d - 1) p ltac:(lia)). nia.
Qed.

Lemma adjusted_lt (x : Q) b :
  ~ (x == 0)%Q -> (Qabs x < pow10 b)%Q -> adjusted x < b.
Proof.
  intros Hx Hb. destruct (Z.lt_ge_cases (adjusted x) b) as [|Hge]; [assumption|].
  exfalso. apply (Qlt_not_le _ _ Hb).
  eapply Qle_trans; [apply pow10_le; exact Hge|apply adjusted_le; exact Hx].
Qed.

Lemma round_half_even_Z (y : Q) (n : Z) :
  (y == inject_Z n)%Q -> round_half_even y = n.
Proof.
  intros Hy. unfold round_half_even.
  assert (Hf : Qfloor y = n) by (rewrite Hy; apply Qfloor_Z).
  rewrite Hf.
  assert (H0 : ((y - inject_Z n) * (2 # 1) == 0)%Q) by (rewrite Hy; ring).
  unfold Qltb. 
  destruct (Qle_bool 1 ((y - inject_Z n) * (2 # 1))) eqn:E; [|reflexivity].
  apply Qle_bool_iff in E. rewrite H0 in E. exfalso. apply E. reflexivity.
Qed.

Lemma decimal_Qeq j b x y : (x == y)%Q -> decimal j b x -> decimal j b y.
Proof. intros E (m & Hm & Hb). exists m. split; [rewrite <- E; exact Hm|exact Hb]. Qed.

Lemma decimal_plus j b1 b2 x y :
  decimal j b1 x -> decimal j b2 y -> decimal j (b1 + b2) (x + y).
Proof.
  intros (m & Hm & Hb) (n & Hn & Hc). exists (m + n). split; [|lia].
  rewrite Hm, Hn, inject_Z_plus. ring.
Qed.

Lemma decimal_minus j b1 b2 x y :
  decimal j b1 x -> decimal j b2 y -> decimal j (b1 + b2) (x - y).
Proof.
  intros (m & Hm & Hb) (n & Hn & Hc). exists (m - n). split; [|lia].
  rewrite Hm, Hn. unfold Z.sub. rewrite inject_Z_plus, inject_Z_opp. ring.
Qed.

Lemma decimal_half j b x :
  decimal j b x -> decimal (j + 1) (5 * b) (x / (2 # 1)).
Proof.
  intros (m & Hm & Hb). exists (5 * m). split; [|lia].
  rewrite Hm. replace (- j) with (- (j + 1) + 1) by lia.
  rewrite pow10_add, inject_Z_mult.
  change (pow10 1) with (inject_Z 10). change (inject_Z 5) with 5%Q.
  change (inject_Z 10) with 10%Q. field.
Qed.

Lemma decimal_weaken j b b' x : b <= b' -> decimal j b x -> decimal j b' x.
Proof. intros H (m & Hm & Hb). exists m. split; [exact Hm|lia]. Qed.

Lemma decimal_zero j b : 0 < b -> decimal j b 0.
Proof. intros H. exists 0. split; [ring|cbn; lia]. Qed.

Lemma Qabs_decimal m e : (Qabs (inject_Z m * pow10 e) == inject_Z (Z.abs m) * pow10 e)%Q.
Proof.
  rewrite Qabs_Qmult. rewrite (Qabs_pos (pow10 e)) by (apply Qlt_le_weak, pow10_pos).
  unfold Qabs, inject_Z. cbn. reflexivity.
Qed.

(** A value with at most 28 digits above [Etiny] is what the context
    returns for it. *)
Lemma rounded_exact j x :
  0 <= j <= - Etiny ->
  decimal j (10 ^ prec) x ->
  (rounded x == x)%Q /\ overflows (rounded x) = false.
Proof.
  intros Hj (m & Hm & Hb). unfold rounded.
  destruct (Qeq_bool x 0) eqn:E0.
  - split; [reflexivity|]. unfold overflows. rewrite E0. reflexivity.
  - assert (Hx : ~ (x == 0)%Q) by (intros H; apply Qeq_bool_iff in H; congruence).
    assert (Hlt : (Qabs x < pow10 (prec - j))%Q).
    { rewrite Hm, Qabs_decimal. replace (prec - j) with (prec + - j) by lia.
      rewrite pow10_add. apply Qmult_lt_compat_r; [apply pow10_pos|].
      rewrite pow10_nonneg_Z by (unfold prec; lia). rewrite <- Zlt_Qlt. exact Hb. }
    pose proof (@adjusted_lt x _ Hx Hlt) as Hadj.
    set (e := Z.max (adjusted x - (prec - 1)) Etiny).
    assert (He : e <= - j) by (unfold e; lia).
    assert (Hq : (x / pow10 e == inject_Z (m * 10 ^ (- j - e)))%Q).
    { rewrite Hm. replace (pow10 (- j)) with (pow10 ((- j - e) + e)) by (f_equal; lia).
      rewrite pow10_add, inject_Z_mult, (@pow10_nonneg_Z (- j - e)) by lia.
      field. intros H. pose proof (pow10_pos e) as Hp. rewrite H in Hp.
      discriminate Hp. }
    assert (Hr : (rescale x e == x)%Q).
    { unfold rescale. rewrite (round_half_even_Z Hq).
      rewrite Hm. replace (pow10 (- j)) with (pow10 ((- j - e) + e)) by (f_equal; lia).
      rewrite pow10_add, inject_Z_mult, (@pow10_nonneg_Z (- j - e)) by lia. ring. }
    split; [exact Hr|].
    unfold overflows.
    assert (Hr0 : Qeq_bool (rescale x e) 0 = false).
    { destruct (Qeq_bool (rescale x e) 0) eqn:E; [|reflexivity].
      apply Qeq_bool_iff in E. rewrite Hr in E. contradiction. }
    rewrite Hr0. apply Z.ltb_ge.
    assert (Hlt' : (Qabs (rescale x e) < pow10 (prec - j))%Q) by (rewrite Hr; exact Hlt).
    assert (Hne : ~ (rescale x e == 0)%Q) by (rewrite Hr; exact Hx).
    pose proof (@adjusted_lt _ _ Hne Hlt'). unfold prec, Emax in *. lia.
Qed.

Lemma context_Done_inv x t r :
  context x = (t, Done r) ->
  t = [] /\ r = rounded x /\ overflows (rounded x) = false.
Proof.
  unfold context. destruct (overflows (rounded x)) eqn:E; [discriminate|].
  intros H. apply ret_Done_inv in H as [-> ->]. auto.
Qed.

Lemma context_exact j x :
  0 <= j <= - Etiny ->
  decimal j (10 ^ prec) x ->
  context x = ret (rounded x) /\ (rounded x == x)%Q.
Proof.
  intros Hj Hx. destruct (rounded_exact Hj Hx) as [He Ho].
  unfold context. rewrite Ho. auto.
Qed.

Lemma mean_Done_inv bid ask t mid :
  mean bid ask = (t, Done mid) ->
  t = [] /\ mid = rounded (rounded (bid + ask) / (2 # 1)).
Proof.
  unfold mean, Decimal_add, Decimal_half. intros H. bind_inv H.
  apply context_Done_inv in Hm as (-> & -> & _).
  apply context_Done_inv in H as (-> & -> & _). subst. auto.
Qed.

(** The mean of two decimals with [j] places and fewer than [b] units,
    [10 * b] within the precision, is exact. *)
Lemma mean_exact j b bid ask :
  0 <= j < - Etiny ->
  10 * b <= 10 ^ prec ->
  decimal j b bid -> decimal j b ask ->
  mean bid ask = ret (rounded (rounded (bid + ask) / (2 # 1))) /\
  (rounded (rounded (bid + ask) / (2 # 1)) == (bid + ask) / (2 # 1))%Q.
Proof.
  intros Hj Hb Hbid Hask.
  assert (Hsum : decimal j (b + b) (bid + ask)) by (apply decimal_plus; assumption).
  destruct (@context_exact j (bid + ask)) as [Hc He]; [lia| |].
  { eapply decimal_weaken; [|exact Hsum]. lia. }
  assert (Hhalf : decimal (j + 1) (5 * (b + b)) (rounded (bid + ask) / (2 # 1))).
  { apply decimal_half. eapply decimal_Qeq; [symmetry; exact He|exact Hsum]. }
  destruct (@context_exact (j + 1) (rounded (bid + ask) / (2 # 1))) as [Hc' He'];
    [lia| |].
  { eapply decimal_weaken; [|exact Hhalf]. lia. }
  split.
  - unfold mean, Decimal_add, Decimal_half. rewrite Hc. unfold bind, ret at 1.
    rewrite Hc'. reflexivity.
  - rewrite He', He. reflexivity.
Qed.

Lemma rounded_decimal j b x :
  0 <= j <= - Etiny -> b <= 10 ^ prec -> decimal j b x ->
  (rounded x == x)%Q /\ decimal j b (rounded x).
Proof.
  intros Hj Hb Hx.
  destruct (@rounded_exact j x Hj) as [He _].
  { eapply decimal_weaken; [exact Hb|exact Hx]. }
  split; [exact He|]. eapply decimal_Qeq; [symmetry; exact He|exact Hx].
Qed.

Lemma rounded_plus j b1 b2 x y :
  0 <= j <= - Etiny -> b1 + b2 <= 10 ^ prec ->
  decimal j b1 x -> decimal j b2 y ->
  (rounded (x + y) == x + y)%Q /\ decimal j (b1 + b2) (rounded (x + y)).
Proof.
  intros Hj Hb Hx Hy. apply rounded_decimal; [exact Hj|exact Hb|].
  apply decimal_plus; assumption.
Qed.

Lemma rounded_minus j b1 b2 x y :
  0 <= j <= - Etiny -> b1 + b2 <= 10 ^ prec ->
  decimal j b1 x -> decimal j b2 y ->
  (rounded (x - y) == x - y)%Q /\ decimal j (b1 + b2) (rounded (x - y)).
Proof.
  intros Hj Hb Hx Hy. apply rounded_decimal; [exact Hj|exact Hb|].
  apply decimal_minus; assumption.
Qed.

Lemma rounded_mean j b bid ask :
  0 <= j < - Etiny -> 10 * b <= 10 ^ prec ->
  decimal j b bid -> decimal j b ask ->
  (rounded (rounded (bid + ask) / (2 # 1)) == (bid + ask) / (2 # 1))%Q.
Proof. intros Hj Hb Hbid Hask. apply (mean_exact Hj Hb Hbid Hask). Qed.

(** The bounds the proofs below need, by computation. *)
Lemma digit_bounds :
  10 ^ 26 + 10 ^ 26 <= 10 ^ prec /\
  10 * (10 ^ 26 + 10 ^ 26) <= 10 ^ prec /\
  10 * (10 ^ 26) <= 10 ^ prec /\
  10 ^ 26 + 10 ^ 26 + 10 ^ 26 + 10 ^ 26 <= 10 ^ prec /\
  10 * (10 ^ 26 + 10 ^ 26 + 10 ^ 26 + 10 ^ 26) <= 10 ^ prec /\
  1000000 < - Etiny.
Proof. repeat split; apply Z.leb_le || apply Z.ltb_lt; reflexivity. Qed.

(** *** Pricing *)

Lemma quote_single_spread k w subchain selected strike width t sym spread bid ask mid :
  quote_single k w subchain selected strike width
    = (t, Done (sym, spread, bid, ask, mid)) ->
  truthy_int width = true ->
  exists wd spread_strike quote_dict q_sel q_spr,
    width = Some wd /\ wd <> 0 /\
    spread = Some spread_strike /\
    find (fun s => Qeq_bool (strike_price s) (spread_price k strike wd))
         (strikes subchain) = Some spread_strike /\
    listen_quotes 2 (quote_feed w) None = Some quote_dict /\
    dict_get sym quote_dict = Some q_sel /\
    dict_get (streamer_symbol k spread_strike) quote_dict = Some q_spr /\
    bid = rounded (bidPrice q_sel - askPrice q_spr) /\
    ask = rounded (askPrice q_sel - bidPrice q_spr) /\
    mid = rounded (rounded (bid + ask) / (2 # 1)).
Proof.
  unfold quote_single. intros H Hw. rewrite Hw in H.
  destruct width as [wd|]; [|discriminate].
  simpl in Hw. apply negb_true_iff, Z.eqb_neq in Hw.
  bind_inv H. apply next_Done_inv in Hm as [Hfind _].
  bind_inv H. bind_inv H. bind_inv H.
  apply await_Done_inv in Hm1 as [Hlisten _].
  bind_inv H. apply getitem_Done_inv in Hm1 as [Hsel _].
  bind_inv H. apply getitem_Done_inv in Hm1 as [Hspr _].
  bind_inv H. apply context_Done_inv in Hm1 as (_ & Hbid & _).
  bind_inv H. apply context_Done_inv in Hm1 as (_ & Hask & _).
  bind_inv H. apply mean_Done_inv in Hm1 as (_ & Hmid).
  apply ret_Done_inv in H as [H _]. inversion H; subst.
  exists wd, a, a2, a3, a4. repeat split; auto.
Qed.

Lemma quote_single_plain k w subchain selected strike width t sym spread bid ask mid :
  quote_single k w subchain selected strike width
    = (t, Done (sym, spread, bid, ask, mid)) ->
  truthy_int width = false ->
  exists quote,
    spread = None /\
    hd_error (quote_feed w) = Some quote /\
    bid = bidPrice quote /\ ask = askPrice quote /\
    mid = rounded (rounded (bid + ask) / (2 # 1)).
Proof.
  unfold quote_single. intros H Hw. rewrite Hw in H.
  bind_inv H. bind_inv H. bind_inv H.
  apply await_Done_inv in Hm1 as [Hhd _].
  bind_inv H. apply mean_Done_inv in Hm1 as (_ & Hmid).
  apply ret_Done_inv in H as [H _]. inversion H; subst.
  exists a1. auto.
Qed.

Lemma limit_price_Done w mid t price :
  limit_price w mid = (t, Done price) ->
  match stdin_price w with
  | EmptyPrice => price = round2 mid
  | DecimalText d => price = d
  | InvalidText => False
  end.
Proof.
  unfold limit_price. intros H. bind_inv H.
  destruct (stdin_price w); try discriminate.
  - destruct (Qle_bool _ _); [discriminate|].
    apply ret_Done_inv in H as [H _]; auto.
  - apply ret_Done_inv in H as [H _]; auto.
Qed.

(** The spread is priced as soon as the spread strike exists, a reading
    was selected, the aggregated quotes hold both legs and no operation
    overflows. *)
Lemma quote_single_spread_runs k w subchain g strike wd spread_strike quote_dict
      q_sel q_spr bid ask mid :
  wd <> 0 ->
  find (fun s => Qeq_bool (strike_price s) (spread_price k strike wd))
       (strikes subchain) = Some spread_strike ->
  listen_quotes 2 (quote_feed w) None = Some quote_dict ->
  dict_get (eventSymbol g) quote_dict = Some q_sel ->
  dict_get (streamer_symbol k spread_strike) quote_dict = Some q_spr ->
  Decimal_sub (bidPrice q_sel) (askPrice q_spr) = ret bid ->
  Decimal_sub (askPrice q_sel) (bidPrice q_spr) = ret ask ->
  mean bid ask = ret mid ->
  quote_single k w subchain (Bound (Some g)) strike (Some wd)
  = ([Subscribe QUOTE [eventSymbol g; streamer_symbol k spread_strike]],
     Done (eventSymbol g, Some spread_strike, bid, ask, mid)).
Proof.
  intros Hwd Hfind Hlisten Hsel Hspr Hbid Hask Hmid. unfold quote_single.
  replace (truthy_int (Some wd)) with true
    by (symmetry; apply negb_true_iff, Z.eqb_neq; exact Hwd).
  unfold next, getitem, selected_eventSymbol.
  rewrite Hfind, Hlisten. cbn [bind ret await emit app]. rewrite Hsel.
  cbn [bind ret app]. rewrite Hspr. cbn [bind ret app].
  rewrite Hbid. cbn [bind ret app]. rewrite Hask. cbn [bind ret app].
  rewrite Hmid. reflexivity.
Qed.



Lemma dict_get_In {V} (d : dict V) k v : dict_get k d = Some v -> In (k, v) d.
Proof.
  induction d as [|[k' v'] d IH]; simpl; [discriminate|].
  destruct (String.eqb k k') eqn:Hk.
  - apply String.eqb_eq in Hk. subst k'. intros [= ->]. now left.
  - intros H. right. now apply IH.
Qed.

Lemma snapshot_entries {E} `{Event E} skip (evs : list E) : forall d k e,
  In (k, e) (snapshot skip d evs) -> In (k, e) d \/ In e evs.
Proof.
  induction evs as [|x evs IH]; intros d k e Hin; simpl in *; [now left|].
  apply IH in Hin as [Hin|Hin]; [|now right; right].
  unfold store in Hin. destruct (differs _ _); [|now left].
  apply set_entries in Hin as [[_ ->]|Hin]; [right; now left | now left].
Qed.

Lemma listen_quotes_entries n stream skip r k q :
  listen_quotes n stream skip = Some r -> In (k, q) r -> In q stream.
Proof.
  intros Hr Hin.
  apply listen_quotes_complete in Hr as (c & rest & -> & _ & ->).
  apply snapshot_entries in Hin as [[]|Hin]. apply in_or_app. now left.
Qed.

(** The quotes a mapping returned by [listen_quotes] holds are quotes of
    the channel. *)
Lemma fit_entry j stream n skip r k q :
  quotes_fit j stream ->
  listen_quotes n stream skip = Some r ->
  dict_get k r = Some q ->
  decimal j (10 ^ 26) (bidPrice q) /\ decimal j (10 ^ 26) (askPrice q).
Proof.
  intros Hfit Hl Hk. unfold quotes_fit in Hfit. rewrite Forall_forall in Hfit.
  apply Hfit. eapply listen_quotes_entries; [exact Hl|].
  apply dict_get_In. exact Hk.
Qed.

(** C6 (as the spec words it) fails on long quotes: the mean is computed
    by [Decimal] division, which keeps 28 significant digits.  With bid
    0.900000000000000000000000001 and ask 1.100000000000000000000000002
    the exact mean 1.0000000000000000000000000015 has 29 digits and the
    command shows 1.000000000000000000000000002. *)
Lemma spread_mid_keeps_28_digits :
  exists t r,
    call (Sample.world Sample.call_greeks Sample.long_spread_quotes EmptyPrice)
         "XYZ" (-5) None (Some 5) false false (Some 30) = (t, Done r) /\
    (sl_bid r == 0.900000000000000000000000001)%Q /\
    (sl_ask r == 1.100000000000000000000000002)%Q /\
    (sl_mid r == 1.000000000000000000000000002)%Q /\
    ~ (sl_mid r == (sl_bid r + sl_ask r) / (2 # 1))%Q.
Proof.
  destruct (call _ _ _ _ _ _ _ _) as [t o] eqn:Hrun.
  assert (Hc := Hrun). vm_compute in Hc. injection Hc as <- <-.
  eexists. eexists. split; [reflexivity|].
  repeat split; try reflexivity. intros H. discriminate H.
Qed.

(** C6 (amended): in every run of [call] or [put] ([single CALL],
    [single PUT]) that prices a spread ([width] truthy), the bid is the
    selected leg's bid minus the spread leg's ask, the ask is the selected
    leg's ask minus the spread leg's bid, both read from the aggregated
    quotes, and mid is (bid + ask) / 2, each operation a [Decimal]
    operation whose result is rounded to the 28 significant digits of the
    context; the three are exact whenever the quotes of the channel have a
    common number [j] of places and at most 26 digits.  The order's price
    is [round(mid, 2)] only when the operator typed nothing, otherwise it
    is the typed decimal. *)
Theorem spread_pricing k w symbol quantity strike width gtc weeklies delta t r :
  single k w symbol quantity strike width gtc weeklies delta = (t, Done r) ->
  truthy_int width = true ->
  exists spread_strike quote_dict q_sel q_spr,
    sl_spread_strike r = Some spread_strike /\
    listen_quotes 2 (quote_feed w) None = Some quote_dict /\
    dict_get (sl_selected r) quote_dict = Some q_sel /\
    dict_get (streamer_symbol k spread_strike) quote_dict = Some q_spr /\
    sl_bid r = rounded (bidPrice q_sel - askPrice q_spr) /\
    sl_ask r = rounded (askPrice q_sel - bidPrice q_spr) /\
    sl_mid r = rounded (rounded (sl_bid r + sl_ask r) / (2 # 1)) /\
    (forall j, 0 <= j <= 1000000 -> quotes_fit j (quote_feed w) ->
       (sl_bid r == bidPrice q_sel - askPrice q_spr)%Q /\
       (sl_ask r == askPrice q_sel - bidPrice q_spr)%Q /\
       (sl_mid r == (sl_bid r + sl_ask r) / (2 # 1))%Q) /\
    match stdin_price w with
    | EmptyPrice => price (sl_order r) = round2 (sl_mid r)
    | DecimalText d => price (sl_order r) = d
    | InvalidText => False
    end.
Proof.
  intros Hrun Hw.
  apply single_Done in Hrun
    as (sub & sel & p & legs & t0 & t1 & t2 & t3 & t4 & t5
        & _ & _ & _ & Hq & Hp & _ & Ho).
  apply quote_single_spread in Hq
    as (wd & sp & qd & q_sel & q_spr & _ & _ & Hsp & _ & Hl & Hs & Hr & Hb & Ha & Hmid);
    [|exact Hw].
  apply limit_price_Done in Hp.
  exists sp, qd, q_sel, q_spr. repeat (split; [assumption|]).
  split; [|rewrite Ho; simpl; exact Hp].
  intros j Hj Hfit.
  destruct digit_bounds as (B2 & B20 & _ & _ & _ & BE).
  destruct (@fit_entry j _ _ _ _ _ _ Hfit Hl Hs) as [Fsb Fsa].
  destruct (@fit_entry j _ _ _ _ _ _ Hfit Hl Hr) as [Frb Fra].
  destruct (@rounded_minus j _ _ _ _ ltac:(lia) B2 Fsb Fra) as [Eb Db].
  destruct (@rounded_minus j _ _ _ _ ltac:(lia) B2 Fsa Frb) as [Ea Da].
  rewrite <- Hb in Eb, Db. rewrite <- Ha in Ea, Da.
  repeat split; [exact Eb|exact Ea|].
  rewrite Hmid. apply (@rounded_mean j (10 ^ 26 + 10 ^ 26)); auto. lia.
Qed.

(** Witness for C6: the sample call spread, bid 1.00 - 0.45, ask
    1.10 - 0.40, mid 0.625, default price 0.62; its quotes have two
    places. *)
Lemma spread_pricing_witness :
  exists t r spread_strike quote_dict q_sel q_spr,
    call (Sample.world Sample.call_greeks Sample.call_spread_quotes EmptyPrice)
         "XYZ" (-5) None (Some 5) false false (Some 30) = (t, Done r) /\
    sl_spread_strike r = Some spread_strike /\
    listen_quotes 2 Sample.call_spread_quotes None = Some quote_dict /\
    dict_get (sl_selected r) quote_dict = Some q_sel /\
    dict_get (streamer_symbol CALL spread_strike) quote_dict = Some q_spr /\
    (sl_bid r == bidPrice q_sel - askPrice q_spr)%Q /\
    (sl_ask r == askPrice q_sel - bidPrice q_spr)%Q /\
    (sl_mid r == (sl_bid r + sl_ask r) / (2 # 1))%Q /\
    (sl_mid r == 0.625)%Q /\
    price (sl_order r) = round2 (sl_mid r).
Proof.
  destruct (call _ _ _ _ _ _ _ _) as [t o] eqn:Hrun.
  assert (Hc := Hrun). vm_compute in Hc. injection Hc as <- <-.
  destruct (spread_pricing _ _ _ _ _ _ _ _ _ Hrun eq_refl)
    as (sp & qd & q_sel & q_spr & H1 & H2 & H3 & H4 & _ & _ & _ & Hex & Hp).
  destruct (Hex 2) as (Eb & Ea & Em).
  { lia. }
  { repeat constructor;
      first [ exists 40; split; reflexivity | exists 45; split; reflexivity
            | exists 100; split; reflexivity | exists 110; split; reflexivity ]. }
  eexists. eexists. exists sp, qd, q_sel, q_spr.
  split; [reflexivity|]. repeat (split; [assumption|]).
  split; [reflexivity|exact Hp].
Defined.

(** [round(x, 2)] is a nearest multiple of 0.01, the even one on a tie. *)
Lemma round2_nearest x :
  exists n : Z,
    round2 x = (inject_Z n / (100 # 1))%Q /\
    (Qabs (x * (100 # 1) - inject_Z n) <= 1 # 2)%Q /\
    ((Qabs (x * (100 # 1) - inject_Z n) == 1 # 2)%Q -> Z.even n = true).
Proof.
  unfold round2.
  set (y := (x * (100 # 1))%Q).
  pose proof (Qfloor_le y) as Hlo. pose proof (Qlt_floor y) as Hhi.
  rewrite inject_Z_plus in Hhi. change (inject_Z 1) with 1%Q in Hhi.
  set (f := Qfloor y) in *.
  destruct (Qltb ((y - inject_Z f) * (2 # 1)) (1 # 1)) eqn:H1.
  - apply Qltb_lt in H1. exists f. split; [reflexivity|]. split.
    + apply Qabs_Qle_condition. split; lra.
    + intros Heq. exfalso. rewrite Qabs_pos in Heq by lra. lra.
  - apply Qltb_ge in H1.
    destruct (Qltb (1 # 1) ((y - inject_Z f) * (2 # 1))) eqn:H2.
    + apply Qltb_lt in H2. exists (f + 1). split; [reflexivity|].
      rewrite inject_Z_plus. change (inject_Z 1) with 1%Q. split.
      * apply Qabs_Qle_condition. split; lra.
      * intros Heq. exfalso. rewrite Qabs_neg in Heq by lra. lra.
    + apply Qltb_ge in H2. destruct (Z.even f) eqn:He.
      * exists f. split; [reflexivity|]. split; [|auto].
        apply Qabs_Qle_condition. split; lra.
      * exists (f + 1). split; [reflexivity|].
        rewrite inject_Z_plus. change (inject_Z 1) with 1%Q. split.
        -- apply Qabs_Qle_condition. split; lra.
        -- intros _. rewrite Z.even_add, He. reflexivity.
Qed.

(** *** Sorting *)

Section Sorting.
  Context {A : Type} (key : A -> Q).

Lemma insert_asc_perm x l : Permutation (insert_asc key x l) (x :: l).
Proof.
  induction l as [|y l IH]; simpl; [reflexivity|].
  destruct (Qle_bool (key x) (key y)); [reflexivity|].
  rewrite IH. apply perm_swap.
Qed.

Lemma sort_asc_perm l : Permutation (sort_asc key l) l.
Proof.
  induction l as [|x l IH]; simpl; [reflexivity|].
  rewrite insert_asc_perm. now constructor.
Qed.

Lemma insert_desc_perm x l : Permutation (insert_desc key x l) (x :: l).
Proof.
  induction l as [|y l IH]; simpl; [reflexivity|].
  destruct (Qle_bool (key y) (key x)); [reflexivity|].
  rewrite IH. apply perm_swap.
Qed.

Lemma sort_desc_perm l : Permutation (sort_desc key l) l.
Proof.
  induction l as [|x l IH]; simpl; [reflexivity|].
  rewrite insert_desc_perm. now constructor.
Qed.

Lemma insert_asc_sorted x l :
  StronglySorted (fun a b => (key a <= key b)%Q) l ->
  StronglySorted (fun a b => (key a <= key b)%Q) (insert_asc key x l).
Proof.
  induction l as [|y l IH]; simpl; intros Hs.
  - constructor; constructor.
  - inversion Hs as [|? ? Hl Hall]; subst.
    destruct (Qle_bool (key x) (key y)) eqn:Hle.
    + apply Qle_bool_iff in Hle. constructor; [exact Hs|].
      constructor; [exact Hle|].
      eapply Forall_impl; [|exact Hall]. intros a Ha. cbv beta in *.
      eapply Qle_trans; eassumption.
    + constructor; [now apply IH|].
      assert (Hyx : (key y <= key x)%Q).
      { apply Qlt_le_weak, Qnot_le_lt. intros H. apply Qle_bool_iff in H. congruence. }
      eapply Permutation_Forall; [symmetry; apply insert_asc_perm|].
      constructor; assumption.
Qed.

Lemma sort_asc_sorted l :
  StronglySorted (fun a b => (key a <= key b)%Q) (sort_asc key l).
Proof.
  induction l as [|x l IH]; simpl; [constructor | now apply insert_asc_sorted].
Qed.

Lemma insert_desc_sorted x l :
  StronglySorted (fun a b => (key b <= key a)%Q) l ->
  StronglySorted (fun a b => (key b <= key a)%Q) (insert_desc key x l).
Proof.
  induction l as [|y l IH]; simpl; intros Hs.
  - constructor; constructor.
  - inversion Hs as [|? ? Hl Hall]; subst.
    destruct (Qle_bool (key y) (key x)) eqn:Hle.
    + apply Qle_bool_iff in Hle. constructor; [exact Hs|].
      constructor; [exact Hle|].
      eapply Forall_impl; [|exact Hall]. intros a Ha. cbv beta in *.
      eapply Qle_trans; eassumption.
    + constructor; [now apply IH|].
      assert (Hyx : (key x <= key y)%Q).
      { apply Qlt_le_weak, Qnot_le_lt. intros H. apply Qle_bool_iff in H. congruence. }
      eapply Permutation_Forall; [symmetry; apply insert_desc_perm|].
      constructor; assumption.
Qed.

Lemma sort_desc_sorted l :
  StronglySorted (fun a b => (key b <= key a)%Q) (sort_desc key l).
Proof.
  induction l as [|x l IH]; simpl; [constructor | now apply insert_desc_sorted].
Qed.

Lemma Qle_bool_lt_false a b : (a < b)%Q -> Qle_bool b a = false.
Proof.
  intros Hlt. destruct (Qle_bool b a) eqn:H; [|reflexivity].
  apply Qle_bool_iff in H. exfalso. exact (Qlt_not_le _ _ Hlt H).
Qed.

Lemma Qle_bool_lt_true a b : (a < b)%Q -> Qle_bool a b = true.
Proof. intros Hlt. apply Qle_bool_iff. now apply Qlt_le_weak. Qed.

(** Two elements with distinct keys end in key order, whichever came
    first. *)
Lemma sort_asc_pair a b l :
  Permutation l [a; b] -> (key a < key b)%Q -> sort_asc key l = [a; b].
Proof.
  intros Hp Hlt. symmetry in Hp.
  apply Permutation_length_2_inv in Hp as [-> | ->]; simpl.
  - now rewrite Qle_bool_lt_true.
  - now rewrite Qle_bool_lt_false.
Qed.

Lemma sort_desc_pair a b l :
  Permutation l [a; b] -> (key b < key a)%Q -> sort_desc key l = [a; b].
Proof.
  intros Hp Hlt. symmetry in Hp.
  apply Permutation_length_2_inv in Hp as [-> | ->]; simpl.
  - now rewrite Qle_bool_lt_true.
  - now rewrite Qle_bool_lt_false.
Qed.

End Sorting.

(** *** Legs of a vertical spread *)

Lemma legs_single_spread k w subchain strike far quantity t short legs :
  legs_single k w subchain strike (Some far) quantity = (t, Done (short, legs)) ->
  exists s r0 r1,
    find (fun s => Qeq_bool (strike_price s) strike) (strikes subchain) = Some s /\
    short = contract k s /\
    nth_error (sort_res k (get_options w [short; contract k far])) 0 = Some r0 /\
    nth_error (sort_res k (get_options w [short; contract k far])) 1 = Some r1 /\
    legs = [build_leg r0 (Z.abs quantity) (primary quantity);
            build_leg r1 (Z.abs quantity) (hedge quantity)].
Proof.
  unfold legs_single. intros H.
  bind_inv H. apply next_Done_inv in Hm as [Hfind _].
  bind_inv H. bind_inv H. apply index_Done_inv in Hm0 as [H0 _].
  bind_inv H. apply index_Done_inv in Hm0 as [H1 _].
  apply ret_Done_inv in H as [H _]. inversion H; subst.
  exists a, a1, a2. auto.
Qed.

(** C5 (as the spec words it) fails on the order of the legs of a put
    spread, which are sorted by descending strike: the sample put spread
    sold five times has legs P100 then P95.  (The roles of the legs also
    depend on the width being positive: the sample call spread with width
    -5 buys the selected 105 strike and sells the 100 strike.) *)
Lemma put_spread_legs_descend :
  (exists t r,
      put (Sample.world Sample.put_greeks Sample.put_spread_quotes EmptyPrice)
          "XYZ" (-5) None (Some 5) false false (Some 30) = (t, Done r) /\
      legs (sl_order r) = [mkLeg "P100" 5 SELL_TO_OPEN; mkLeg "P95" 5 BUY_TO_OPEN] /\
      map (fun l => o_strike_price (Sample.instrument (leg_symbol l))) (legs (sl_order r))
      = [100%Q; 95%Q] /\
      ~ (100 <= 95)%Q) /\
  (exists t r,
      call (Sample.world Sample.call_greeks
                         [mkQuote ".C105" 1.00 1.10; mkQuote ".C100" 3.00 3.10]
                         EmptyPrice)
           "XYZ" (-5) None (Some (-5)) false false (Some 30) = (t, Done r) /\
      sl_selected r = ".C105"%string /\
      legs (sl_order r) = [mkLeg "C100" 5 SELL_TO_OPEN; mkLeg "C105" 5 BUY_TO_OPEN]).
Proof.
  split.
  - eexists. eexists. split; [vm_compute; reflexivity|].
    split; [reflexivity|]. split; [reflexivity|]. intros H. apply H. reflexivity.
  - eexists. eexists. split; [vm_compute; reflexivity|]. split; reflexivity.
Qed.

(** C5 (amended): in every run of [call] or [put] ([single CALL],
    [single PUT]) with a positive width that builds an order, the order
    has exactly two legs of quantity |q|, the selected (near) strike's
    contract first and the spread (far) strike's contract second, whichever
    order the brokerage answered in; for q < 0 the near leg is SELL_TO_OPEN
    and the far leg BUY_TO_OPEN, otherwise the actions are swapped.  The
    far strike is above the near one for a call and below it for a put, so
    the legs are in ascending strike order for a call spread and in
    descending strike order for a put spread. *)
Theorem vertical_spread_legs k w symbol quantity strike wd gtc weeklies delta t r :
  single k w symbol quantity strike (Some wd) gtc weeklies delta = (t, Done r) ->
  0 < wd ->
  match sl_spread_strike r with
  | None => False
  | Some far =>
      match k with
      | CALL => (sl_strike r < strike_price far)%Q
      | PUT => (strike_price far < sl_strike r)%Q
      end /\
      forall o_near o_far,
        answers_with w (sl_short_symbol r) (contract k far)
                     (sl_strike r) (strike_price far) o_near o_far ->
        legs (sl_order r) =
        [mkLeg (sl_short_symbol r) (Z.abs quantity)
               (if quantity <? 0 then SELL_TO_OPEN else BUY_TO_OPEN);
         mkLeg (contract k far) (Z.abs quantity)
               (if quantity <? 0 then BUY_TO_OPEN else SELL_TO_OPEN)]
  end.
Proof.
  intros Hrun Hwd.
  apply single_Done in Hrun
    as (sub & sel & p & lg & t0 & t1 & t2 & t3 & t4 & t5
        & _ & _ & _ & Hq & _ & Hl & Ho).
  assert (Hw : truthy_int (Some wd) = true)
    by (apply negb_true_iff, Z.eqb_neq; lia).
  apply quote_single_spread in Hq
    as (wd' & far & qd & q_sel & q_spr & [= <-] & _ & Hsp & Hfar & _); [|exact Hw].
  rewrite Hsp in *.
  apply find_some in Hfar as [_ Hfar]. apply Qeq_bool_iff in Hfar.
  assert (Hpos : (inject_Z 0 < inject_Z wd)%Q) by (rewrite <- Zlt_Qlt; exact Hwd).
  change (inject_Z 0) with 0%Q in Hpos.
  assert (Hside : match k with
                  | CALL => (sl_strike r < strike_price far)%Q
                  | PUT => (strike_price far < sl_strike r)%Q
                  end).
  { destruct k; simpl in Hfar; rewrite Hfar; lra. }
  split; [exact Hside|].
  intros o_near o_far (Hperm & Hsn & Hkn & Hsf & Hkf).
  apply legs_single_spread in Hl as (s & r0 & r1 & _ & _ & H0 & H1 & ->).
  rewrite Ho. simpl.
  assert (Hsorted : sort_res k (get_options w [sl_short_symbol r; contract k far])
                    = [o_near; o_far]).
  { destruct k; simpl.
    - apply sort_asc_pair; [exact Hperm|]. rewrite Hkn, Hkf. exact Hside.
    - apply sort_desc_pair; [exact Hperm|]. rewrite Hkn, Hkf. exact Hside. }
  rewrite Hsorted in H0, H1. simpl in H0, H1.
  injection H0 as <-. injection H1 as <-.
  unfold build_leg, primary, hedge. now rewrite Hsn, Hsf.
Qed.

(** Witness for C5 (amended): the sample call spread, answered by the
    brokerage far leg first. *)
Lemma vertical_spread_legs_witness :
  exists t r,
    call (Sample.world Sample.call_greeks Sample.call_spread_quotes EmptyPrice)
         "XYZ" (-5) None (Some 5) false false (Some 30) = (t, Done r) /\
    (105 < 110)%Q /\
    legs (sl_order r) = [mkLeg "C105" 5 SELL_TO_OPEN; mkLeg "C110" 5 BUY_TO_OPEN].
Proof.
  destruct (call _ _ _ _ _ _ _ _) as [t o] eqn:Hrun.
  assert (Hc := Hrun). vm_compute in Hc. injection Hc as <- <-.
  pose proof (vertical_spread_legs _ _ _ _ _ _ _ _ Hrun eq_refl) as [Hside Hlegs].
  eexists. eexists. split; [reflexivity|]. split; [exact Hside|].
  apply (Hlegs (Sample.instrument "C105") (Sample.instrument "C110")).
  repeat split; try reflexivity. apply perm_swap.
Defined.

(** *** Pricing and the direction of the trade *)

Lemma bind_Done_run {A B} (m : M A) (f : A -> M B) t1 a :
  m = (t1, Done a) -> bind m f = (let (t', r) := f a in (t1 ++ t', r)).
Proof. intros ->. reflexivity. Qed.

Lemma bind_ret {A B} (a : A) (k : A -> M B) : bind (ret a) k = k a.
Proof. unfold bind, ret. destruct (k a). reflexivity. Qed.

Lemma bind_emit {B} (e : Effect) (k : unit -> M B) :
  bind (emit e) k = (e :: fst (k tt), snd (k tt)).
Proof. unfold bind, emit. destruct (k tt). reflexivity. Qed.

(** What a computation has emitted stays in front of what follows. *)
Lemma bind_prefix {A B} (m : M A) (k : A -> M B) :
  exists t', fst (bind m k) = fst m ++ t'.
Proof.
  unfold bind. destruct m as [t [a|e| |]]; simpl;
    try (exists []; now rewrite app_nil_r).
  destruct (k a) as [t' r]. now exists t'.
Qed.

Lemma legs_single_quantity k w subchain strike spread q q' t short legs :
  legs_single k w subchain strike spread q = (t, Done (short, legs)) ->
  exists legs', legs_single k w subchain strike spread q' = (t, Done (short, legs')).
Proof.
  unfold legs_single, next, index, bind, emit, ret, raise.
  destruct (find _ (strikes subchain)) as [s|]; [|discriminate].
  destruct spread as [far|].
  - destruct (sort_res k _) as [|r0 [|r1 res]]; simpl; try discriminate.
    intros [= <- <- _]. eexists. reflexivity.
  - simpl. intros [= <- <- _]. eexists. reflexivity.
Qed.

Lemma legs_strangle_quantity w put_strike call_strike spreads q q' t legs :
  legs_strangle w put_strike call_strike spreads q = (t, Done legs) ->
  exists legs', legs_strangle w put_strike call_strike spreads q' = (t, Done legs').
Proof.
  unfold legs_strangle, index, bind, emit, ret, raise.
  destruct spreads as [[ps cs]|].
  - destruct (sort_asc _ _) as [|o0 [|o1 [|o2 [|o3 res]]]]; simpl; try discriminate.
    intros [= <- _]. eexists. reflexivity.
  - destruct (sort_asc _ _) as [|o0 [|o1 res]]; simpl; try discriminate.
    intros [= <- _]. eexists. reflexivity.
Qed.

(** C4 (as the spec words it) fails: the quote of one call leg with bid
    1.00 and ask 1.10 is (1.00, 1.10) when the leg is bought and again
    (1.00, 1.10), not (-1.10, -1.00), when it is sold. *)
Lemma sold_leg_priced_like_bought_leg :
  exists t1 r1 t2 r2,
    call (Sample.world Sample.call_greeks [mkQuote ".C105" 1.00 1.10] EmptyPrice)
         "XYZ" 1 None None false false (Some 30) = (t1, Done r1) /\
    call (Sample.world Sample.call_greeks [mkQuote ".C105" 1.00 1.10] EmptyPrice)
         "XYZ" (-1) None None false false (Some 30) = (t2, Done r2) /\
    action (hd (mkLeg "" 0 BUY_TO_OPEN) (legs (sl_order r1))) = BUY_TO_OPEN /\
    action (hd (mkLeg "" 0 BUY_TO_OPEN) (legs (sl_order r2))) = SELL_TO_OPEN /\
    (sl_bid r1, sl_ask r1) = (1.00, 1.10)%Q /\
    (sl_bid r2, sl_ask r2) = (1.00, 1.10)%Q /\
    ~ (sl_bid r2 == - 1.10)%Q /\ ~ (sl_ask r2 == - 1.00)%Q.
Proof.
  eexists. eexists. eexists. eexists.
  split; [vm_compute; reflexivity|]. split; [vm_compute; reflexivity|].
  repeat split; intros H; discriminate H.
Qed.

(** C4 (amended): the quote computed by [call], [put] ([single]) and
    [strangle] does not look at the direction of the trade: a run that
    builds an order for quantity [q] also builds one for any other quantity
    [q'], in particular for [- q] where every leg is flipped between buy
    and sell, and the two runs have the same bid, the same ask and the same
    mid.  One call leg quoted (1.00, 1.10) is priced (1.00, 1.10) bought or
    sold. *)
Theorem pricing_ignores_direction :
  (forall k w symbol q q' strike width gtc weeklies delta t r,
      single k w symbol q strike width gtc weeklies delta = (t, Done r) ->
      exists t' r',
        single k w symbol q' strike width gtc weeklies delta = (t', Done r') /\
        sl_bid r' = sl_bid r /\ sl_ask r' = sl_ask r /\ sl_mid r' = sl_mid r) /\
  (forall w symbol q q' call put width gtc weeklies delta t r,
      strangle w symbol q call width gtc weeklies delta put = (t, Done r) ->
      exists t' r',
        strangle w symbol q' call width gtc weeklies delta put = (t', Done r') /\
        st_bid r' = st_bid r /\ st_ask r' = st_ask r /\ st_mid r' = st_mid r).
Proof.
  split.
  - intros k w symbol q q' strike width gtc weeklies delta t r Hrun.
    apply single_Done in Hrun
      as (sub & sel & p & lg & t0 & t1 & t2 & t3 & t4 & t5
          & Hc & Hopen & Hres & Hq & Hp & Hl & _).
    apply legs_single_quantity with (q' := q') in Hl as [lg' Hl].
    unfold single.
    rewrite (bind_Done_run _ Hc), (bind_Done_run _ Hopen), (bind_Done_run _ Hres).
    cbn [fst snd].
    rewrite (bind_Done_run _ Hq). cbv iota beta.
    unfold emit at 1. rewrite (bind_Done_run _ eq_refl).
    rewrite (bind_Done_run _ Hp), (bind_Done_run _ Hl).
    unfold ret. cbn [fst snd].
    eexists. eexists. split; [reflexivity|]. simpl. auto.
  - intros w symbol q q' call put width gtc weeklies delta t r Hrun.
    apply strangle_Done in Hrun
      as (sub & p & lg & t0 & t1 & t2 & t3 & t4 & t5
          & Hc & Hopen & Hres & Hq & Hp & Hl & _).
    apply legs_strangle_quantity with (q' := q') in Hl as [lg' Hl].
    unfold strangle.
    rewrite (bind_Done_run _ Hc), (bind_Done_run _ Hopen), (bind_Done_run _ Hres).
    cbn [fst snd].
    rewrite (bind_Done_run _ Hq). cbv iota beta.
    unfold emit at 1. rewrite (bind_Done_run _ eq_refl).
    rewrite (bind_Done_run _ Hp), (bind_Done_run _ Hl).
    unfold ret. cbn [fst snd].
    eexists. eexists. split; [reflexivity|]. simpl. auto.
Qed.

(** Witness for C4 (amended): the call leg quoted (1.00, 1.10), bought once
    in the given run and sold once in the derived one. *)
Lemma pricing_ignores_direction_witness :
  exists t' r',
    call (Sample.world Sample.call_greeks [mkQuote ".C105" 1.00 1.10] EmptyPrice)
         "XYZ" (-1) None None false false (Some 30) = (t', Done r') /\
    sl_bid r' = 1.00%Q /\ sl_ask r' = 1.10%Q /\ (sl_mid r' == 1.05)%Q.
Proof.
  destruct (call (Sample.world Sample.call_greeks [mkQuote ".C105" 1.00 1.10] EmptyPrice)
                 "XYZ" 1 None None false false (Some 30)) as [t o] eqn:Hrun.
  assert (Hc := Hrun). vm_compute in Hc. injection Hc as <- <-.
  destruct (proj1 pricing_ignores_direction _ _ _ 1 (-1) _ _ _ _ _ _ _ Hrun)
    as (t' & r' & Hrun' & Hb & Ha & Hm).
  exists t', r'. rewrite Hb, Ha, Hm.
  split; [exact Hrun'|]. repeat split; reflexivity.
Defined.

(** *** Parameter checks *)

Lemma single_rejects k w symbol quantity strike width gtc weeklies delta :
  (strike <> None /\ delta <> None) \/
  (strike = None /\ delta = None) \/
  (exists d, delta = Some d /\ 99 < Z.abs d) ->
  exists msg,
    single k w symbol quantity strike width gtc weeklies delta
    = ([PrintError msg], Aborted).
Proof.
  intros Hbad. unfold single, check_single.
  destruct strike as [s|], delta as [d|]; simpl.
  - eexists; reflexivity.
  - exfalso. destruct Hbad as [[_ H]|[[H _]|(d & H & _)]]; congruence.
  - destruct Hbad as [[H _]|[[_ H]|(d' & [= <-] & Hd)]]; try congruence.
    replace (d =? 0) with false by (symmetry; apply Z.eqb_neq; lia).
    apply Z.ltb_lt in Hd. simpl. rewrite Hd. eexists; reflexivity.
  - eexists; reflexivity.
Qed.

Lemma strangle_rejects w symbol quantity call put width gtc weeklies delta :
  (delta <> None /\ (call <> None \/ put <> None)) \/
  (exists d, delta = Some d /\ 99 < Z.abs d) ->
  exists msg,
    strangle w symbol quantity call width gtc weeklies delta put
    = ([PrintError msg], Aborted).
Proof.
  intros Hbad. unfold strangle, check_strangle.
  destruct delta as [d|].
  - destruct call as [c|], put as [p|]; simpl; try (eexists; reflexivity).
    destruct Hbad as [[_ [H|H]]|(d' & [= <-] & Hd)]; try congruence.
    apply Z.ltb_lt in Hd. rewrite Hd. eexists; reflexivity.
  - exfalso. destruct Hbad as [[H _]|(d & H & _)]; congruence.
Qed.

(** C3, the failing input: [strangle] without delta is never rejected by
    the parameter checks, with no strike, one strike or both; the check
    that carries the message "Please specify either delta, or strikes for
    both options." repeats the condition of the first check and cannot
    fire.  The command goes on to log in and fetch the chain. *)
Theorem strangle_without_delta_is_not_rejected
        w symbol quantity call put width gtc weeklies :
  check_strangle call put None = ([], Done tt) /\
  exists t o,
    strangle w symbol quantity call width gtc weeklies None put
    = (Login :: GetChain symbol :: t, o).
Proof.
  split.
  - unfold check_strangle. destruct call, put; reflexivity.
  - unfold strangle, check_strangle.
    replace ((is_not_None call || is_not_None put) && is_not_None (@None Z))
      with false by (destruct call, put; reflexivity).
    cbn [is_not_None andb]. rewrite bind_ret.
    match goal with
    | |- context [bind (open_subchain w symbol weeklies) ?K] =>
        destruct (bind_prefix (open_subchain w symbol weeklies) K) as [t' Ht'];
        rewrite (surjective_pairing (bind (open_subchain w symbol weeklies) K)), Ht'
    end.
    unfold open_subchain. rewrite !bind_emit. cbn [fst app].
    eexists. eexists. reflexivity.
Qed.

(** On the sample chain the run without any of the three options ends in
    the [StopIteration] of the strike lookup, after the login, the chain
    request, the expiration menu and the streamer connection, and without
    any error message. *)
Lemma strangle_without_options_sample :
  strangle (Sample.world [] [] EmptyPrice) "XYZ" (-1) None None false false None None
  = ([Login; GetChain "XYZ"; Offer 1 Sample.jan19 true; Offer 2 Sample.feb16 false;
      Prompt "Please choose an expiration: "; Connect],
     Raised StopIteration).
Proof. reflexivity. Qed.

(** *** Choice of the expiration *)

Lemma date_eqb_eq a b : date_eqb a b = true <-> a = b.
Proof.
  unfold date_eqb. destruct a as [y m d], b as [y' m' d']. simpl.
  rewrite !andb_true_iff, !Z.eqb_eq. split.
  - intros [[-> ->] ->]. reflexivity.
  - intros [= -> -> ->]. auto.
Qed.

Lemma list_index_nth x exps : forall i,
  list_index x exps = Some i -> nth_error exps i = Some x.
Proof.
  induction exps as [|e exps IH]; simpl; intros i; [discriminate|].
  destruct (date_eqb e x) eqn:He.
  - apply date_eqb_eq in He. subst e. intros [= <-]. reflexivity.
  - destruct (list_index x exps) as [j|]; [|discriminate].
    intros [= <-]. simpl. now apply IH.
Qed.

Lemma list_index_In x exps :
  In x exps <-> exists i, list_index x exps = Some i.
Proof.
  split.
  - induction exps as [|e exps IH]; simpl; [intros []|].
    intros Hin. destruct (date_eqb e x) eqn:He; [now exists O|].
    destruct Hin as [->|Hin].
    + assert (date_eqb x x = true) by now apply date_eqb_eq. congruence.
    + destruct (IH Hin) as [i ->]. now exists (S i).
  - intros [i Hi]. apply list_index_nth in Hi. eapply nth_error_In; eassumption.
Qed.

Lemma print_menu_offers default exps : forall i,
  offers (fst (print_menu default i exps)) = exps /\
  snd (print_menu default i exps) = Done tt.
Proof.
  induction exps as [|e exps IH]; intros i; [simpl; auto|].
  change (print_menu default i (e :: exps))
    with (bind (emit (Offer (Z.of_nat i + 1) e (Nat.eqb i default)))
               (fun _ => print_menu default (S i) exps)).
  rewrite bind_emit. simpl. destruct (IH (S i)) as [-> ->]. auto.
Qed.

Lemma index_silent {A} (xs : list A) i : fst (index xs i) = [].
Proof. unfold index. now destruct (nth_error xs i). Qed.

(** One turn of the prompt loop. *)
Lemma choose_loop_step exps default choice stdin :
  choose_loop exps default choice stdin =
  if (1 <=? choice) && (choice <? Z.of_nat (List.length exps) + 1) then
    index exps (Z.to_nat (choice - 1))
  else
    match stdin with
    | [] => ([Prompt "Please choose an expiration: "], Raised EOFError)
    | raw :: stdin' =>
        let m := match raw with
                 | IntText n => choose_loop exps default n stdin'
                 | Blank => index exps default
                 | OtherText => choose_loop exps default choice stdin'
                 end in
        (Prompt "Please choose an expiration: " :: fst m, snd m)
    end.
Proof.
  destruct stdin as [|raw stdin']; simpl; destruct (_ && _); try reflexivity.
  now destruct raw; match goal with
                    | |- context [let (_, _) := ?m in _] => destruct m
                    end.
Qed.

Lemma choose_loop_offers exps default stdin : forall choice,
  offers (fst (choose_loop exps default choice stdin)) = [].
Proof.
  induction stdin as [|raw stdin IH]; intros choice; rewrite choose_loop_step.
  - destruct (_ && _); [now rewrite index_silent | reflexivity].
  - destruct (_ && _); [now rewrite index_silent|].
    simpl. destruct raw; auto. now rewrite index_silent.
Qed.

Lemma choose_loop_blank exps default pre rest : forall choice,
  (1 <=? choice) && (choice <? Z.of_nat (List.length exps) + 1) = false ->
  forallb (asks_again (List.length exps)) pre = true ->
  snd (choose_loop exps default choice (pre ++ Blank :: rest))
  = snd (index exps default).
Proof.
  induction pre as [|raw pre IH]; intros choice Hout Hpre;
    rewrite choose_loop_step, Hout; simpl; [reflexivity|].
  simpl in Hpre. apply andb_true_iff in Hpre as [Hraw Hpre].
  destruct raw as [|n|]; simpl in Hraw; try discriminate.
  - apply IH; [|exact Hpre].
    apply negb_true_iff in Hraw. rewrite <- Hraw.
    f_equal. apply eq_true_iff_eq. rewrite Z.ltb_lt, Z.leb_le. lia.
  - now apply IH.
Qed.

Lemma bind_Done_pair {A B} (m : M A) (k : A -> M B) a :
  snd m = Done a -> bind m k = (fst m ++ fst (k a), snd (k a)).
Proof.
  destruct m as [t o]. simpl. intros ->. unfold bind. now destruct (k a).
Qed.

Lemma date_eq_dec (a b : date) : {a = b} + {a <> b}.
Proof. decide equality; apply Z.eq_dec. Qed.

Lemma is_monthly_spec d :
  is_monthly d = true <-> weekday d = 4 /\ 15 <= day d <= 21.
Proof.
  unfold is_monthly. rewrite !andb_true_iff, Z.eqb_eq, !Z.leb_le. tauto.
Qed.

(** C9: unless [include_weeklies] is set the menu offers exactly the
    chain's monthly expirations, in chain order, an expiration being
    monthly iff it is a Friday ([weekday] 4) whose day of the month is in
    [15, 21]; and when the operator answers the prompt with an empty line
    (possibly after answers that were asked again), the function returns
    the SDK's default monthly expiration [get_tasty_monthly()].  When that
    expiration is not among the offered ones, [exps.index] raises
    [ValueError] before anything is printed. *)
Theorem choose_expiration_monthly_default
        (tm : date) (stdin : list RawInput) (chain : NestedOptionChain)
        (weeklies : bool) :
  let all := map expiration_date (expirations chain) in
  let exps := if weeklies then all else filter is_monthly all in
  (forall d, is_monthly d = true <-> weekday d = 4 /\ 15 <= day d <= 21) /\
  (In tm exps ->
   offers (fst (choose_expiration tm stdin chain weeklies)) = exps) /\
  (~ In tm exps ->
   choose_expiration tm stdin chain weeklies = ([], Raised ValueError)) /\
  (weeklies = false ->
   Forall (fun d => weekday d = 4 /\ 15 <= day d <= 21)
          (offers (fst (choose_expiration tm stdin chain weeklies)))) /\
  (forall pre rest,
      In tm exps ->
      stdin = pre ++ Blank :: rest ->
      forallb (asks_again (List.length exps)) pre = true ->
      snd (choose_expiration tm stdin chain weeklies) = Done tm).
Proof.
  intros all exps.
  assert (Hexps : (if negb weeklies then filter is_monthly all else all) = exps)
    by (unfold exps; now destruct weeklies).
  assert (Hin : In tm exps ->
                exists default,
                  nth_error exps default = Some tm /\
                  choose_expiration tm stdin chain weeklies
                  = (fst (print_menu default O exps)
                       ++ fst (choose_loop exps default 0 stdin),
                     snd (choose_loop exps default 0 stdin))).
  { intros Hin. apply list_index_In in Hin as [default Hd].
    exists default. split; [now apply list_index_nth|].
    unfold choose_expiration. fold all. rewrite Hexps, Hd.
    rewrite (@bind_Done_pair _ _ (print_menu default O exps) _ tt)
      by apply print_menu_offers.
    reflexivity. }
  assert (Hout : ~ In tm exps ->
                 choose_expiration tm stdin chain weeklies = ([], Raised ValueError)).
  { intros Hnot. unfold choose_expiration. fold all. rewrite Hexps.
    destruct (list_index tm exps) as [i|] eqn:Hi; [|reflexivity].
    exfalso. apply Hnot, list_index_In. now exists i. }
  assert (Hoffers : In tm exps ->
                    offers (fst (choose_expiration tm stdin chain weeklies)) = exps).
  { intros Hi. destruct (Hin Hi) as (default & _ & ->). simpl.
    unfold offers. rewrite flat_map_app. fold (offers (fst (print_menu default O exps))).
    fold (offers (fst (choose_loop exps default 0 stdin))).
    rewrite choose_loop_offers, app_nil_r. apply print_menu_offers. }
  split; [exact is_monthly_spec|].
  split; [exact Hoffers|]. split; [exact Hout|]. split.
  - intros ->. destruct (in_dec date_eq_dec tm exps) as [Hi|Hn].
    + rewrite (Hoffers Hi). unfold exps. apply Forall_forall. intros d Hd.
      apply filter_In in Hd as [_ Hd]. now apply is_monthly_spec.
    + rewrite (Hout Hn). constructor.
  - intros pre rest Hi -> Hpre. destruct (Hin Hi) as (default & Hnth & ->). simpl.
    rewrite choose_loop_blank by (auto; reflexivity).
    unfold index. now rewrite Hnth.
Qed.

(** Witness for C9: on the sample chain (a weekly on January 12th, the
    monthlies of January 19th and February 16th) the operator types a
    word, then 7, then nothing. *)
Lemma choose_expiration_monthly_default_witness :
  offers (fst (choose_expiration Sample.jan19 [OtherText; IntText 7; Blank]
                                 Sample.chain false))
    = [Sample.jan19; Sample.feb16] /\
  Forall (fun d => weekday d = 4 /\ 15 <= day d <= 21)
         (offers (fst (choose_expiration Sample.jan19 [OtherText; IntText 7; Blank]
                                         Sample.chain false))) /\
  snd (choose_expiration Sample.jan19 [OtherText; IntText 7; Blank] Sample.chain false)
    = Done Sample.jan19.
Proof.
  destruct (choose_expiration_monthly_default
              Sample.jan19 [OtherText; IntText 7; Blank] Sample.chain false)
    as (_ & Hoffers & _ & Hmonthly & Hdefault).
  assert (Hin : In Sample.jan19 (filter is_monthly
                                        (map expiration_date (expirations Sample.chain))))
    by (left; reflexivity).
  split; [exact (Hoffers Hin)|]. split; [exact (Hmonthly eq_refl)|].
  exact (Hdefault [OtherText; IntText 7] [] Hin eq_refl eq_refl).
Defined.

(** *** A strangle on the sample chain *)

(** Sold once at delta 30: the put at 100 and the call at 105, both
    SELL_TO_OPEN, quoted at the sums of the two bids and of the two asks. *)
Lemma strangle_sample :
  exists t r,
    strangle (Sample.world (Sample.put_greeks ++ Sample.call_greeks)
                           Sample.strangle_quotes EmptyPrice)
             "XYZ" (-1) None None false false (Some 30) None = (t, Done r) /\
    (st_bid r == 3.00)%Q /\ (st_ask r == 3.20)%Q /\ (st_mid r == 3.10)%Q /\
    legs (st_order r) = [mkLeg "P100" 1 SELL_TO_OPEN; mkLeg "C105" 1 SELL_TO_OPEN] /\
    (price (st_order r) == 3.10)%Q /\
    price_effect (st_order r) = CREDIT.
Proof.
  eexists. eexists. split; [vm_compute; reflexivity|].
  repeat split; reflexivity.
Qed.

(** *** When the aggregation loops return *)

Section AggregationProgress.
  Context {E : Type} `{Event E}.
  Implicit Types (d : dict E) (evs : list E) (skip : option string).

Lemma dict_set_length k (v : E) d :
  List.length (dict_set k v d)
  = if in_dec string_dec k (keys d) then List.length d else S (List.length d).
Proof.
  induction d as [|[k' v'] d IH]; simpl; [reflexivity|].
  destruct (String.eqb k k') eqn:Hk.
  - apply String.eqb_eq in Hk. subst k'.
    destruct (string_dec k k); [reflexivity | congruence].
  - apply String.eqb_neq in Hk. simpl. rewrite IH.
    destruct (string_dec k' k); [congruence|].
    unfold keys. now destruct (in_dec string_dec k (map fst d)).
Qed.

Lemma store_len skip d e :
  len (store skip d e) = len d \/ len (store skip d e) = len d + 1.
Proof.
  unfold store, len. destruct (differs _ _); [|now left].
  rewrite dict_set_length. destruct (in_dec _ _ _); [now left | right; lia].
Qed.

Lemma snapshot_len_mono skip evs : forall d, len d <= len (snapshot skip d evs).
Proof.
  induction evs as [|e evs IH]; intros d; simpl; [lia|].
  specialize (IH (store skip d e)). destruct (store_len skip d e); lia.
Qed.

Lemma snapshot_keys skip evs : forall d s,
  In s (keys (snapshot skip d evs)) <->
  In s (keys d) \/
  In s (map eventSymbol (filter (fun e => differs (eventSymbol e) skip) evs)).
Proof.
  induction evs as [|e evs IH]; intros d s; simpl; [tauto|].
  rewrite IH. unfold store.
  destruct (differs (eventSymbol e) skip); simpl; [|tauto].
  rewrite keys_set_in. intuition.
Qed.

Lemma snapshot_len_distinct skip evs :
  len (snapshot skip [] evs) = Z.of_nat (List.length (distinct skip evs)).
Proof.
  unfold len. f_equal.
  rewrite <- (length_map fst). fold (keys (snapshot skip [] evs)).
  apply Permutation_length, NoDup_Permutation.
  - apply snapshot_NoDup. constructor.
  - apply NoDup_nodup.
  - intros s. unfold distinct. rewrite nodup_In, snapshot_keys. simpl. tauto.
Qed.

(** The count grows by at most one per event, so every value between the
    starting count and the final one is met. *)
Lemma listen_from_reaches n skip evs : forall d,
  len d < n <= len (snapshot skip d evs) ->
  exists r, listen_from n skip d evs = Some r.
Proof.
  induction evs as [|e evs IH]; intros d Hn; simpl in *; [lia|].
  destruct (len (store skip d e) =? n) eqn:Heq; [eauto|].
  apply Z.eqb_neq in Heq. apply IH.
  destruct (store_len skip d e); lia.
Qed.

Lemma listen_from_bounded n skip evs d r :
  listen_from n skip d evs = Some r -> n <= len (snapshot skip d evs).
Proof.
  intros Hr. apply listen_from_complete in Hr as (c & rest & -> & (_ & Hn & _) & _).
  rewrite snapshot_app, <- Hn. apply snapshot_len_mono.
Qed.

End AggregationProgress.

(** X1: the aggregation loops return exactly when enough distinct symbols
    arrive.  [listen_greeks n] returns iff [1 <= n] and the stream carries at
    least [n] distinct symbols: for [n <= 0] it never returns.
    [listen_quotes n] with [1 <= n] returns iff the stream carries at least
    [n] distinct symbols other than the skip symbol. *)
Theorem listen_returns_iff_enough_symbols :
  (forall n stream,
      (exists r, listen_greeks n stream = Some r) <->
      1 <= n <= Z.of_nat (List.length (distinct None stream))) /\
  (forall n stream skip,
      1 <= n ->
      ((exists r, listen_quotes n stream skip = Some r) <->
       n <= Z.of_nat (List.length (distinct skip stream)))).
Proof.
  split.
  - intros n stream. unfold listen_greeks. rewrite <- snapshot_len_distinct.
    split.
    + intros [r Hr]. rewrite listen_greeks_from_shape in Hr. split.
      * pose proof Hr as Hc.
        apply listen_from_complete in Hc as (c & rest & _ & (Hne & Hn & _) & _).
        assert (Hpos : snapshot None [] c <> []).
        { destruct c as [|g c]; [congruence|]. simpl.
          apply snapshot_nonempty. discriminate. }
        unfold len in Hn. destruct (snapshot None [] c); [congruence|].
        simpl in Hn. lia.
      * eapply listen_from_bounded; eassumption.
    + intros Hn. setoid_rewrite listen_greeks_from_shape.
      apply listen_from_reaches. unfold len at 1. simpl. lia.
  - intros n stream skip Hn. unfold listen_quotes.
    rewrite <- snapshot_len_distinct. setoid_rewrite listen_quotes_from_shape.
    split.
    + intros [r Hr]. eapply listen_from_bounded; eassumption.
    + intros Hle. apply listen_from_reaches. unfold len at 1. simpl. lia.
Qed.

(** Witness for X1: three quotes of two symbols complete a request for two
    symbols. *)
Lemma listen_returns_iff_enough_symbols_witness :
  exists r, listen_quotes 2 Sample.feed_XYX None = Some r.
Proof.
  apply (proj2 listen_returns_iff_enough_symbols 2 Sample.feed_XYX None);
    [lia | vm_compute; discriminate].
Defined.

(** *** What [call] and [put] accept, and what a given strike leads to *)

(** X2: [call] and [put] go past their parameter checks exactly for a
    non-zero strike given without delta, or a non-zero delta of magnitude at
    most 99 given without strike; a strike of 0 or a delta of 0 counts as not
    given.  Past the checks the first effects are the login and the chain
    request; otherwise the command prints one error message and does
    nothing else. *)
Theorem single_accepts_exactly k w symbol quantity strike width gtc weeklies delta :
  if valid_single strike delta then
    exists t o,
      single k w symbol quantity strike width gtc weeklies delta
      = (Login :: GetChain symbol :: t, o)
  else
    exists msg,
      single k w symbol quantity strike width gtc weeklies delta
      = ([PrintError msg], Aborted).
Proof.
  destruct (valid_single strike delta) eqn:Hv.
  - assert (Hc : check_single strike delta = ret tt).
    { unfold check_single. destruct strike as [s|], delta as [d|];
        simpl in *; try discriminate.
      - now rewrite Hv.
      - apply andb_true_iff in Hv as [Hd Hle]. rewrite Hd. simpl.
        apply Z.leb_le in Hle.
        replace (99 <? Z.abs d) with false by (symmetry; apply Z.ltb_ge; lia).
        reflexivity. }
    unfold single. rewrite Hc, bind_ret.
    match goal with
    | |- context [bind (open_subchain w symbol weeklies) ?K] =>
        destruct (bind_prefix (open_subchain w symbol weeklies) K) as [t' Ht'];
        rewrite (surjective_pairing (bind (open_subchain w symbol weeklies) K)), Ht'
    end.
    unfold open_subchain. rewrite !bind_emit. cbn [fst app].
    eexists. eexists. reflexivity.
  - unfold single, check_single. destruct strike as [s|], delta as [d|];
      simpl in *; try discriminate; try (eexists; reflexivity).
    + rewrite Hv. simpl. eexists; reflexivity.
    + destruct (d =? 0); simpl in *; [eexists; reflexivity|].
      apply Z.leb_gt in Hv. apply Z.ltb_lt in Hv. rewrite Hv. eexists; reflexivity.
Qed.



(** *** From the delta to the order *)







(** *** Quotes of the strangle and of the iron condor *)

Lemma quote_strangle_condor w subchain put_strike call_strike width t spreads bid ask mid :
  quote_strangle w subchain put_strike call_strike width
    = (t, Done (spreads, bid, ask, mid)) ->
  truthy_int width = true ->
  exists wd ps cs quote_dict cb pb psa csa,
    width = Some wd /\ wd <> 0 /\ spreads = Some (ps, cs) /\
    find (fun s => Qeq_bool (strike_price s) (strike_price put_strike - inject_Z wd)%Q)
         (strikes subchain) = Some ps /\
    find (fun s => Qeq_bool (strike_price s) (strike_price call_strike + inject_Z wd)%Q)
         (strikes subchain) = Some cs /\
    listen_quotes 4 (quote_feed w) None = Some quote_dict /\
    dict_get (call_streamer_symbol call_strike) quote_dict = Some cb /\
    dict_get (put_streamer_symbol put_strike) quote_dict = Some pb /\
    dict_get (put_streamer_symbol ps) quote_dict = Some psa /\
    dict_get (call_streamer_symbol cs) quote_dict = Some csa /\
    bid = rounded (rounded (rounded (bidPrice cb + bidPrice pb) - askPrice psa)
                   - askPrice csa) /\
    ask = rounded (rounded (rounded (askPrice cb + askPrice pb) - bidPrice psa)
                   - bidPrice csa) /\
    mid = rounded (rounded (bid + ask) / (2 # 1)).
Proof.
  unfold quote_strangle. intros H Hw. rewrite Hw in H.
  destruct width as [wd|]; [|discriminate].
  simpl in Hw. apply negb_true_iff, Z.eqb_neq in Hw.
  bind_inv H. apply next_Done_inv in Hm as [Hps _].
  bind_inv H. apply next_Done_inv in Hm as [Hcs _].
  bind_inv H. bind_inv H. apply await_Done_inv in Hm0 as [Hl _].
  bind_inv H. apply getitem_Done_inv in Hm0 as [H1 _].
  bind_inv H. apply getitem_Done_inv in Hm0 as [H2 _].
  bind_inv H. apply context_Done_inv in Hm0 as (_ & Hb1 & _).
  bind_inv H. apply getitem_Done_inv in Hm0 as [H3 _].
  bind_inv H. apply context_Done_inv in Hm0 as (_ & Hb2 & _).
  bind_inv H. apply getitem_Done_inv in Hm0 as [H4 _].
  bind_inv H. apply context_Done_inv in Hm0 as (_ & Hb3 & _).
  bind_inv H. apply context_Done_inv in Hm0 as (_ & Ha1 & _).
  bind_inv H. apply context_Done_inv in Hm0 as (_ & Ha2 & _).
  bind_inv H. apply context_Done_inv in Hm0 as (_ & Ha3 & _).
  bind_inv H. apply mean_Done_inv in Hm0 as (_ & Hmid).
  apply ret_Done_inv in H as [H _]. inversion H; subst.
  exists wd. do 7 eexists. repeat split; eauto.
Qed.

Lemma sum_from_Done_inv : forall xs acc t r,
  sum_from acc xs = (t, Done r) ->
  t = [] /\ r = fold_left (fun a x => rounded (a + x)) xs acc.
Proof.
  induction xs as [|x xs IH]; intros acc t r H; cbn [sum_from fold_left] in *.
  - apply ret_Done_inv in H as [-> ->]. auto.
  - bind_inv H. apply context_Done_inv in Hm as (-> & -> & _).
    apply IH in H as (-> & ->). subst. auto.
Qed.

Lemma quote_strangle_plain w subchain put_strike call_strike width t spreads bid ask mid :
  quote_strangle w subchain put_strike call_strike width
    = (t, Done (spreads, bid, ask, mid)) ->
  truthy_int width = false ->
  exists quote_dict,
    spreads = None /\
    listen_quotes 2 (quote_feed w) None = Some quote_dict /\
    bid = fold_left (fun a x => rounded (a + x)) (map bidPrice (values quote_dict)) 0%Q /\
    ask = fold_left (fun a x => rounded (a + x)) (map askPrice (values quote_dict)) 0%Q /\
    mid = rounded (rounded (bid + ask) / (2 # 1)).
Proof.
  unfold quote_strangle. intros H Hw. rewrite Hw in H.
  bind_inv H. bind_inv H. apply await_Done_inv in Hm0 as [Hl _].
  bind_inv H. apply sum_from_Done_inv in Hm0 as (_ & Hb).
  bind_inv H. apply sum_from_Done_inv in Hm0 as (_ & Ha).
  bind_inv H. apply mean_Done_inv in Hm0 as (_ & Hmid).
  apply ret_Done_inv in H as [H _]. inversion H; subst.
  exists a0. auto.
Qed.

(** A mapping returned for two symbols has two entries. *)
Lemma listen_quotes_two stream skip r :
  listen_quotes 2 stream skip = Some r ->
  exists s1 q1 s2 q2, r = [(s1, q1); (s2, q2)] /\ s1 <> s2.
Proof.
  intros Hr. apply listen_quotes_complete in Hr as (c & rest & _ & (_ & Hn & _) & ->).
  assert (Hnd : NoDup (keys (snapshot skip [] c)))
    by (apply snapshot_NoDup; constructor).
  destruct (snapshot skip [] c) as [|[s1 q1] [|[s2 q2] [|x l]]];
    unfold len in Hn; simpl in Hn; try lia.
  exists s1, q1, s2, q2. split; [reflexivity|].
  simpl in Hnd. inversion Hnd as [|? ? Hnotin _]; subst.
  intros ->. apply Hnotin. now left.
Qed.

Ltac by_computation := first [apply Z.leb_le; reflexivity | apply Z.ltb_lt; reflexivity].

(** The four-term sum of the iron condor, on quotes that fit. *)
Lemma condor_side_exact j a b c d :
  0 <= j <= 1000000 ->
  decimal j (10 ^ 26) a -> decimal j (10 ^ 26) b ->
  decimal j (10 ^ 26) c -> decimal j (10 ^ 26) d ->
  (rounded (rounded (rounded (a + b) - c) - d) == a + b - c - d)%Q /\
  decimal j (10 ^ 26 + 10 ^ 26 + 10 ^ 26 + 10 ^ 26)
          (rounded (rounded (rounded (a + b) - c) - d)).
Proof.
  intros Hj Fa Fb Fc Fd.
  assert (HE : 0 <= j <= - Etiny) by (destruct digit_bounds as (_&_&_&_&_&BE); lia).
  destruct (@rounded_plus j (10 ^ 26) (10 ^ 26) a b) as [E1 D1];
    [exact HE|by_computation|exact Fa|exact Fb|].
  destruct (@rounded_minus j (10 ^ 26 + 10 ^ 26) (10 ^ 26) (rounded (a + b)) c)
    as [E2 D2]; [exact HE|by_computation|exact D1|exact Fc|].
  destruct (@rounded_minus j (10 ^ 26 + 10 ^ 26 + 10 ^ 26) (10 ^ 26)
                           (rounded (rounded (a + b) - c)) d)
    as [E3 D3]; [exact HE|by_computation|exact D2|exact Fd|].
  split; [|exact D3]. rewrite E3, E2, E1. reflexivity.
Qed.

(** [sum] of two quotes that fit. *)
Lemma sum_two_exact j a b :
  0 <= j <= 1000000 ->
  decimal j (10 ^ 26) a -> decimal j (10 ^ 26) b ->
  (fold_left (fun acc x => rounded (acc + x)) [a; b] 0 == a + b)%Q /\
  decimal j (10 ^ 26 + 10 ^ 26)
          (fold_left (fun acc x => rounded (acc + x)) [a; b] 0%Q).
Proof.
  intros Hj Fa Fb. cbn [fold_left].
  assert (HE : 0 <= j <= - Etiny) by (destruct digit_bounds as (_&_&_&_&_&BE); lia).
  assert (F0 : decimal j (10 ^ 26) (0 + a))
    by (eapply decimal_Qeq; [|exact Fa]; ring).
  destruct (@rounded_decimal j (10 ^ 26) (0 + a)) as [E1 D1];
    [exact HE|by_computation|exact F0|].
  destruct (@rounded_plus j (10 ^ 26) (10 ^ 26) (rounded (0 + a)) b) as [E2 D2];
    [exact HE|by_computation|exact D1|exact Fb|].
  split; [|exact D2]. rewrite E2, E1. ring.
Qed.

(** X5: the iron condor ([strangle] with a truthy width) is quoted from the
    four aggregated quotes of its legs.  When the quotes of the channel
    have a common number [j] of places and at most 26 digits, so that no
    [Decimal] operation rounds, bid = call bid + put bid - put-wing ask -
    call-wing ask, ask = call ask + put ask - put-wing bid - call-wing
    bid, and mid is their mean, where the put wing is the strike [width]
    below the put strike and the call wing the one [width] above the call
    strike. *)
Theorem iron_condor_pricing
        w symbol quantity call put width gtc weeklies delta t r j :
  strangle w symbol quantity call width gtc weeklies delta put = (t, Done r) ->
  truthy_int width = true ->
  0 <= j <= 1000000 ->
  quotes_fit j (quote_feed w) ->
  exists wd ps cs quote_dict cb pb psa csa,
    width = Some wd /\
    st_spreads r = Some (ps, cs) /\
    (strike_price ps == strike_price (st_put_strike r) - inject_Z wd)%Q /\
    (strike_price cs == strike_price (st_call_strike r) + inject_Z wd)%Q /\
    listen_quotes 4 (quote_feed w) None = Some quote_dict /\
    dict_get (call_streamer_symbol (st_call_strike r)) quote_dict = Some cb /\
    dict_get (put_streamer_symbol (st_put_strike r)) quote_dict = Some pb /\
    dict_get (put_streamer_symbol ps) quote_dict = Some psa /\
    dict_get (call_streamer_symbol cs) quote_dict = Some csa /\
    (st_bid r == bidPrice cb + bidPrice pb - askPrice psa - askPrice csa)%Q /\
    (st_ask r == askPrice cb + askPrice pb - bidPrice psa - bidPrice csa)%Q /\
    (st_mid r == (st_bid r + st_ask r) / (2 # 1))%Q.
Proof.
  intros Hrun Hw Hj Hfit.
  apply strangle_Done in Hrun
    as (sub & p & lg & t0 & t1 & t2 & t3 & t4 & t5 & _ & _ & _ & Hq & _).
  apply quote_strangle_condor in Hq
    as (wd & ps & cs & qd & cb & pb & psa & csa & Hwd & _ & Hsp & Hps & Hcs
        & Hl & H1 & H2 & H3 & H4 & Hb & Ha & Hmid); [|exact Hw].
  apply find_some in Hps as [_ Hps]. apply Qeq_bool_iff in Hps.
  apply find_some in Hcs as [_ Hcs]. apply Qeq_bool_iff in Hcs.
  destruct (@fit_entry j _ _ _ _ _ _ Hfit Hl H1) as [F1b F1a].
  destruct (@fit_entry j _ _ _ _ _ _ Hfit Hl H2) as [F2b F2a].
  destruct (@fit_entry j _ _ _ _ _ _ Hfit Hl H3) as [F3b F3a].
  destruct (@fit_entry j _ _ _ _ _ _ Hfit Hl H4) as [F4b F4a].
  destruct (condor_side_exact Hj F1b F2b F3a F4a) as [Eb Db].
  destruct (condor_side_exact Hj F1a F2a F3b F4b) as [Ea Da].
  rewrite <- Hb in Eb, Db. rewrite <- Ha in Ea, Da.
  exists wd, ps, cs, qd, cb, pb, psa, csa. repeat (split; [assumption|]).
  rewrite Hmid.
  apply (@rounded_mean j (10 ^ 26 + 10 ^ 26 + 10 ^ 26 + 10 ^ 26)); auto.
  - destruct digit_bounds as (_&_&_&_&_&BE). lia.
  - by_computation.
Qed.

(** Witness for X5: the sample iron condor 95/100/105/110, quoted with
    two places. *)
Lemma iron_condor_pricing_witness :
  exists t r,
    strangle (Sample.world (Sample.put_greeks ++ Sample.call_greeks)
                           Sample.condor_quotes EmptyPrice)
             "XYZ" (-1) None (Some 5) false false (Some 30) None = (t, Done r) /\
    (st_bid r == 1.00 + 2.00 - 1.00 - 0.45)%Q /\
    (st_ask r == 1.10 + 2.10 - 0.90 - 0.40)%Q.
Proof.
  destruct (strangle _ _ _ _ _ _ _ _ _) as [t o] eqn:Hrun.
  assert (Hc := Hrun). vm_compute in Hc. injection Hc as <- <-.
  edestruct (@iron_condor_pricing) with (j := 2)
    as (wd & ps & cs & qd & cb & pb & psa & csa & _ & Hsp & _ & _ & Hl
        & H1 & H2 & H3 & H4 & Hb & Ha & _); [exact Hrun | reflexivity | lia | |].
  { repeat constructor;
      first [ exists 200; split; reflexivity | exists 210; split; reflexivity
            | exists 100; split; reflexivity | exists 110; split; reflexivity
            | exists 90; split; reflexivity | exists 40; split; reflexivity
            | exists 45; split; reflexivity ]. }
  injection Hsp as <- <-.
  assert (Hqd := Hl). vm_compute in Hqd. injection Hqd as <-.
  injection H1 as <-. injection H2 as <-. injection H3 as <-. injection H4 as <-.
  eexists. eexists. split; [reflexivity|]. rewrite Hb, Ha. split; reflexivity.
Defined.

(** X6: without width [strangle] is quoted by adding up the two quotes that
    [listen_quotes] returned, that is the quotes of the first two distinct
    symbols on the quote channel; the legs' own symbols are not looked up
    in the mapping.  When the quotes of the channel have a common number
    [j] of places and at most 26 digits, so that no [Decimal] operation
    rounds, the bid is the sum of the two bids, the ask the sum of the two
    asks and mid their mean. *)
Theorem strangle_pricing
        w symbol quantity call put width gtc weeklies delta t r j :
  strangle w symbol quantity call width gtc weeklies delta put = (t, Done r) ->
  truthy_int width = false ->
  0 <= j <= 1000000 ->
  quotes_fit j (quote_feed w) ->
  exists s1 q1 s2 q2,
    listen_quotes 2 (quote_feed w) None = Some [(s1, q1); (s2, q2)] /\
    s1 <> s2 /\
    st_spreads r = None /\
    (st_bid r == bidPrice q1 + bidPrice q2)%Q /\
    (st_ask r == askPrice q1 + askPrice q2)%Q /\
    (st_mid r == (st_bid r + st_ask r) / (2 # 1))%Q.
Proof.
  intros Hrun Hw Hj Hfit.
  apply strangle_Done in Hrun
    as (sub & p & lg & t0 & t1 & t2 & t3 & t4 & t5 & _ & _ & _ & Hq & _).
  apply quote_strangle_plain in Hq as (qd & Hsp & Hl & Hb & Ha & Hmid); [|exact Hw].
  destruct (listen_quotes_two _ _ Hl) as (s1 & q1 & s2 & q2 & -> & Hne).
  destruct (@fit_entry j _ _ _ _ s1 q1 Hfit Hl) as [F1b F1a];
    [cbn [dict_get]; rewrite String.eqb_refl; reflexivity|].
  destruct (@fit_entry j _ _ _ _ s2 q2 Hfit Hl) as [F2b F2a].
  { cbn [dict_get]. destruct (String.eqb s2 s1) eqn:E.
    - apply String.eqb_eq in E. congruence.
    - rewrite String.eqb_refl. reflexivity. }
  cbn [values map snd] in Hb, Ha.
  destruct (sum_two_exact Hj F1b F2b) as [Eb Db].
  destruct (sum_two_exact Hj F1a F2a) as [Ea Da].
  rewrite <- Hb in Eb, Db. rewrite <- Ha in Ea, Da.
  exists s1, q1, s2, q2. repeat (split; [assumption|]).
  rewrite Hmid. apply (@rounded_mean j (10 ^ 26 + 10 ^ 26)); auto.
  - destruct digit_bounds as (_&_&_&_&_&BE). lia.
  - by_computation.
Qed.

(** Witness for X6: on a quote channel that first carries the underlying
    itself and then the put, the strangle is quoted from these two. *)
Lemma strangle_pricing_witness :
  exists t r,
    strangle (Sample.world (Sample.put_greeks ++ Sample.call_greeks)
                           (Sample.S50 :: Sample.strangle_quotes) EmptyPrice)
             "XYZ" (-1) None None false false (Some 30) None = (t, Done r) /\
    (st_bid r == 50.0 + 2.00)%Q /\ (st_ask r == 50.1 + 2.10)%Q.
Proof.
  destruct (strangle _ _ _ _ _ _ _ _ _) as [t o] eqn:Hrun.
  assert (Hc := Hrun). vm_compute in Hc. injection Hc as <- <-.
  edestruct (@strangle_pricing) with (j := 2)
    as (s1 & q1 & s2 & q2 & Hl & _ & _ & Hb & Ha & _);
    [exact Hrun | reflexivity | lia | |].
  { repeat constructor;
      first [ exists 5000; split; reflexivity | exists 5010; split; reflexivity
            | exists 200; split; reflexivity | exists 210; split; reflexivity
            | exists 100; split; reflexivity | exists 110; split; reflexivity ]. }
  assert (Hqd := Hl). vm_compute in Hqd. injection Hqd as <- <- <- <-.
  eexists. eexists. split; [reflexivity|]. split; [exact Hb | exact Ha].
Defined.

(** *** Uncrossed quotes *)

Lemma mean_between (b a : Q) :
  (b <= a)%Q -> (b <= (b + a) / (2 # 1) <= a)%Q.
Proof.
  intros Hle. unfold Qdiv. change (/ (2 # 1))%Q with (1 # 2)%Q. split; lra.
Qed.

(** X7: on a quote channel whose quotes are all uncrossed (bid <= ask)
    and have a common number [j] of places and at most 26 digits, so that
    no [Decimal] operation rounds, the quote that [call], [put] and
    [strangle] compute for the option, the spread, the strangle or the
    iron condor is uncrossed too, with the mid between the bid and the
    ask. *)
Theorem combination_quote_uncrossed :
  (forall k w symbol quantity strike width gtc weeklies delta t r j,
      single k w symbol quantity strike width gtc weeklies delta = (t, Done r) ->
      Forall uncrossed (quote_feed w) ->
      0 <= j <= 1000000 ->
      quotes_fit j (quote_feed w) ->
      (sl_bid r <= sl_mid r <= sl_ask r)%Q) /\
  (forall w symbol quantity call put width gtc weeklies delta t r j,
      strangle w symbol quantity call width gtc weeklies delta put = (t, Done r) ->
      Forall uncrossed (quote_feed w) ->
      0 <= j <= 1000000 ->
      quotes_fit j (quote_feed w) ->
      (st_bid r <= st_mid r <= st_ask r)%Q).
Proof.
  assert (BE : 1000000 < - Etiny) by by_computation.
  split.
  - intros k w symbol quantity strike width gtc weeklies delta t r j Hrun Hfeed Hj Hfit.
    rewrite Forall_forall in Hfeed.
    apply single_Done in Hrun
      as (sub & sel & p & lg & t0 & t1 & t2 & t3 & t4 & t5 & _ & _ & _ & Hq & _).
    destruct (truthy_int width) eqn:Hw.
    + apply quote_single_spread in Hq
        as (wd & sp & qd & q1 & q2 & _ & _ & _ & _ & Hl & H1 & H2 & Hb & Ha & Hm);
        [|exact Hw].
      destruct (@fit_entry j _ _ _ _ _ _ Hfit Hl H1) as [F1b F1a].
      destruct (@fit_entry j _ _ _ _ _ _ Hfit Hl H2) as [F2b F2a].
      destruct (@rounded_minus j (10 ^ 26) (10 ^ 26) (bidPrice q1) (askPrice q2))
        as [Eb Db]; [lia|by_computation|exact F1b|exact F2a|].
      destruct (@rounded_minus j (10 ^ 26) (10 ^ 26) (askPrice q1) (bidPrice q2))
        as [Ea Da]; [lia|by_computation|exact F1a|exact F2b|].
      rewrite <- Hb in Eb, Db. rewrite <- Ha in Ea, Da.
      apply dict_get_In in H1, H2.
      assert (Hin : forall s q, In (s, q) qd -> uncrossed q)
        by (intros; eapply Hfeed, listen_quotes_entries; eassumption).
      pose proof (Hin _ _ H1) as U1.
      pose proof (Hin _ _ H2) as U2.
      unfold uncrossed in U1, U2.
      rewrite Hm, (@rounded_mean j (10 ^ 26 + 10 ^ 26)) by (auto; lia || by_computation).
      apply mean_between. rewrite Eb, Ea. lra.
    + apply quote_single_plain in Hq as (q & _ & Hhd & Hb & Ha & Hm); [|exact Hw].
      assert (Hq' : In q (quote_feed w)).
      { destruct (quote_feed w); [discriminate|]. injection Hhd as ->. now left. }
      assert (U : uncrossed q) by (apply Hfeed; exact Hq').
      unfold quotes_fit in Hfit. rewrite Forall_forall in Hfit.
      destruct (Hfit q Hq') as [Fb Fa].
      rewrite <- Hb in Fb. rewrite <- Ha in Fa.
      rewrite Hm, (@rounded_mean j (10 ^ 26)) by (auto; lia || by_computation).
      apply mean_between. rewrite Hb, Ha. exact U.
  - intros w symbol quantity call put width gtc weeklies delta t r j Hrun Hfeed Hj Hfit.
    rewrite Forall_forall in Hfeed.
    apply strangle_Done in Hrun
      as (sub & p & lg & t0 & t1 & t2 & t3 & t4 & t5 & _ & _ & _ & Hq & _).
    destruct (truthy_int width) eqn:Hw.
    + apply quote_strangle_condor in Hq
        as (wd & ps & cs & qd & cb & pb & psa & csa & _ & _ & _ & _ & _
            & Hl & H1 & H2 & H3 & H4 & Hb & Ha & Hm); [|exact Hw].
      destruct (@fit_entry j _ _ _ _ _ _ Hfit Hl H1) as [F1b F1a].
      destruct (@fit_entry j _ _ _ _ _ _ Hfit Hl H2) as [F2b F2a].
      destruct (@fit_entry j _ _ _ _ _ _ Hfit Hl H3) as [F3b F3a].
      destruct (@fit_entry j _ _ _ _ _ _ Hfit Hl H4) as [F4b F4a].
      destruct (condor_side_exact Hj F1b F2b F3a F4a) as [Eb Db].
      destruct (condor_side_exact Hj F1a F2a F3b F4b) as [Ea Da].
      rewrite <- Hb in Eb, Db. rewrite <- Ha in Ea, Da.
      apply dict_get_In in H1, H2, H3, H4.
      assert (Hin : forall s q, In (s, q) qd -> uncrossed q)
        by (intros; eapply Hfeed, listen_quotes_entries; eassumption).
      pose proof (Hin _ _ H1) as U1.
      pose proof (Hin _ _ H2) as U2.
      pose proof (Hin _ _ H3) as U3.
      pose proof (Hin _ _ H4) as U4.
      unfold uncrossed in *.
      rewrite Hm, (@rounded_mean j (10 ^ 26 + 10 ^ 26 + 10 ^ 26 + 10 ^ 26))
        by (auto; lia || by_computation).
      apply mean_between. rewrite Eb, Ea. lra.
    + apply quote_strangle_plain in Hq as (qd & _ & Hl & Hb & Ha & Hm); [|exact Hw].
      destruct (listen_quotes_two _ _ Hl) as (s1 & q1 & s2 & q2 & -> & Hne).
      destruct (@fit_entry j _ _ _ _ s1 q1 Hfit Hl) as [F1b F1a];
        [cbn [dict_get]; rewrite String.eqb_refl; reflexivity|].
      destruct (@fit_entry j _ _ _ _ s2 q2 Hfit Hl) as [F2b F2a].
      { cbn [dict_get]. destruct (String.eqb s2 s1) eqn:E.
        - apply String.eqb_eq in E. congruence.
        - rewrite String.eqb_refl. reflexivity. }
      cbn [values map snd] in Hb, Ha.
      destruct (sum_two_exact Hj F1b F2b) as [Eb Db].
      destruct (sum_two_exact Hj F1a F2a) as [Ea Da].
      rewrite <- Hb in Eb, Db. rewrite <- Ha in Ea, Da.
      assert (Hin : forall s q, In (s, q) [(s1, q1); (s2, q2)] -> uncrossed q)
        by (intros; eapply Hfeed, listen_quotes_entries; eassumption).
      pose proof (Hin s1 q1 (or_introl eq_refl)) as U1.
      pose proof (Hin s2 q2 (or_intror (or_introl eq_refl))) as U2.
      unfold uncrossed in *.
      rewrite Hm, (@rounded_mean j (10 ^ 26 + 10 ^ 26)) by (auto; lia || by_computation).
      apply mean_between. rewrite Eb, Ea. lra.
Qed.

(** Witness for X7: the sample call spread, quoted with two places. *)
Lemma combination_quote_uncrossed_witness :
  exists t r,
    call (Sample.world Sample.call_greeks Sample.call_spread_quotes EmptyPrice)
         "XYZ" (-5) None (Some 5) false false (Some 30) = (t, Done r) /\
    (sl_bid r <= sl_mid r <= sl_ask r)%Q.
Proof.
  destruct (call _ _ _ _ _ _ _ _) as [t o] eqn:Hrun.
  assert (Hc := Hrun). vm_compute in Hc. injection Hc as <- <-.
  eexists. eexists. split; [reflexivity|].
  eapply (proj1 combination_quote_uncrossed) with (j := 2); [exact Hrun| |lia|].
  - repeat constructor; intros H; discriminate H.
  - repeat constructor;
      first [ exists 40; split; reflexivity | exists 45; split; reflexivity
            | exists 100; split; reflexivity | exists 110; split; reflexivity ].
Defined.

(** *** The limit price *)

(** X8: when the operator leaves the limit price empty, the price of the
    order built by [call], [put] or [strangle] is a whole number of cents
    nearest to the mid, the even one when the mid lies exactly between two
    cents; a price that is typed is taken as it is, whatever its sign or
    its distance from the quote. *)
Theorem limit_price_of_order :
  (forall k w symbol quantity strike width gtc weeklies delta t r,
      single k w symbol quantity strike width gtc weeklies delta = (t, Done r) ->
      match stdin_price w with
      | EmptyPrice =>
          exists n : Z,
            price (sl_order r) = (inject_Z n / (100 # 1))%Q /\
            (Qabs (sl_mid r * (100 # 1) - inject_Z n) <= 1 # 2)%Q /\
            ((Qabs (sl_mid r * (100 # 1) - inject_Z n) == 1 # 2)%Q -> Z.even n = true)
      | DecimalText d => price (sl_order r) = d
      | InvalidText => False
      end) /\
  (forall w symbol quantity call put width gtc weeklies delta t r,
      strangle w symbol quantity call width gtc weeklies delta put = (t, Done r) ->
      match stdin_price w with
      | EmptyPrice =>
          exists n : Z,
            price (st_order r) = (inject_Z n / (100 # 1))%Q /\
            (Qabs (st_mid r * (100 # 1) - inject_Z n) <= 1 # 2)%Q /\
            ((Qabs (st_mid r * (100 # 1) - inject_Z n) == 1 # 2)%Q -> Z.even n = true)
      | DecimalText d => price (st_order r) = d
      | InvalidText => False
      end).
Proof.
  split.
  - intros k w symbol quantity strike width gtc weeklies delta t r Hrun.
    apply single_Done in Hrun
      as (sub & sel & p & lg & t0 & t1 & t2 & t3 & t4 & t5
          & _ & _ & _ & _ & Hp & _ & Ho).
    apply limit_price_Done in Hp. rewrite Ho. simpl.
    destruct (stdin_price w); auto. subst p. apply round2_nearest.
  - intros w symbol quantity call put width gtc weeklies delta t r Hrun.
    apply strangle_Done in Hrun
      as (sub & p & lg & t0 & t1 & t2 & t3 & t4 & t5
          & _ & _ & _ & _ & Hp & _ & Ho).
    apply limit_price_Done in Hp. rewrite Ho. simpl.
    destruct (stdin_price w); auto. subst p. apply round2_nearest.
Qed.

(** Witness for X8: the sample call spread with mid 0.625 gets the default
    price 0.62, the even cent. *)
Lemma limit_price_of_order_witness :
  exists t r,
    call (Sample.world Sample.call_greeks Sample.call_spread_quotes EmptyPrice)
         "XYZ" (-5) None (Some 5) false false (Some 30) = (t, Done r) /\
    (sl_mid r == 0.625)%Q /\
    exists n : Z,
      price (sl_order r) = (inject_Z n / (100 # 1))%Q /\
      (Qabs (sl_mid r * (100 # 1) - inject_Z n) <= 1 # 2)%Q /\
      ((Qabs (sl_mid r * (100 # 1) - inject_Z n) == 1 # 2)%Q -> Z.even n = true).
Proof.
  destruct (call _ _ _ _ _ _ _ _) as [t o] eqn:Hrun.
  assert (Hc := Hrun). vm_compute in Hc. injection Hc as <- <-.
  eexists. eexists. split; [reflexivity|]. split; [reflexivity|].
  exact (proj1 limit_price_of_order _ _ _ _ _ _ _ _ _ _ _ Hrun).
Defined.

(** *** Legs of the strangle and of the iron condor *)

(** A list sorted by key is the only sorted arrangement of its elements
    when the keys are pairwise distinct. *)
Lemma sorted_arrangement_unique {A} (key : A -> Q) (l' : list A) : forall l,
  StronglySorted (fun a b => (key a <= key b)%Q) l ->
  Permutation l l' ->
  StronglySorted (fun a b => (key a < key b)%Q) l' ->
  l = l'.
Proof.
  induction l' as [|x l' IH]; intros l Hs Hp Hs'.
  - now apply Permutation_nil, Permutation_sym.
  - destruct l as [|y l]; [apply Permutation_nil_cons in Hp; contradiction|].
    inversion Hs as [|? ? Hsl Hy]; subst. inversion Hs' as [|? ? Hsl' Hx]; subst.
    rewrite Forall_forall in Hy, Hx.
    assert (Hyx : y = x).
    { assert (Hyin : In y (x :: l')) by (eapply Permutation_in; [exact Hp | now left]).
      destruct Hyin as [->|Hyin]; [reflexivity|].
      assert (Hxin : In x (y :: l))
        by (eapply Permutation_in; [symmetry; exact Hp | now left]).
      destruct Hxin as [->|Hxin]; [reflexivity|].
      exfalso. apply (Qlt_not_le _ _ (Hx _ Hyin)), Hy, Hxin. }
    subst y. f_equal. apply IH; auto.
    eapply Permutation_cons_inv; exact Hp.
Qed.

Lemma sort_asc_arrangement {A} (key : A -> Q) l l' :
  Permutation l l' ->
  StronglySorted (fun a b => (key a < key b)%Q) l' ->
  sort_asc key l = l'.
Proof.
  intros Hp Hs. apply (sorted_arrangement_unique key); auto.
  - apply sort_asc_sorted.
  - rewrite sort_asc_perm. exact Hp.
Qed.

Lemma legs_strangle_condor w put_strike call_strike ps cs quantity t legs :
  legs_strangle w put_strike call_strike (Some (ps, cs)) quantity = (t, Done legs) ->
  exists o0 o1 o2 o3 rest,
    sort_asc o_strike_price
             (get_options w [SDK.put put_strike; SDK.call call_strike;
                             SDK.put ps; SDK.call cs])
    = o0 :: o1 :: o2 :: o3 :: rest /\
    legs = [build_leg o0 (Z.abs quantity) (hedge quantity);
            build_leg o1 (Z.abs quantity) (primary quantity);
            build_leg o2 (Z.abs quantity) (primary quantity);
            build_leg o3 (Z.abs quantity) (hedge quantity)].
Proof.
  unfold legs_strangle, index, bind, emit, ret, raise. simpl app.
  destruct (sort_asc _ _) as [|o0 [|o1 [|o2 [|o3 rest]]]]; simpl; try discriminate.
  intros [= _ <-]. exists o0, o1, o2, o3, rest. auto.
Qed.

Lemma legs_strangle_plain w put_strike call_strike quantity t legs :
  legs_strangle w put_strike call_strike None quantity = (t, Done legs) ->
  exists o0 o1 rest,
    sort_asc o_strike_price
             (get_options w [SDK.put put_strike; SDK.call call_strike])
    = o0 :: o1 :: rest /\
    legs = [build_leg o0 (Z.abs quantity) (primary quantity);
            build_leg o1 (Z.abs quantity) (primary quantity)].
Proof.
  unfold legs_strangle, index, bind, emit, ret, raise. simpl app.
  destruct (sort_asc _ _) as [|o0 [|o1 rest]]; simpl; try discriminate.
  intros [= _ <-]. exists o0, o1, rest. auto.
Qed.

(** X9: when the put strike is below the call strike, [strangle] builds
    its legs in ascending strike order whatever the order of the
    brokerage's answer.  Without width: the put then the call, both with
    the primary action (SELL_TO_OPEN for a negative quantity, BUY_TO_OPEN
    otherwise).  With a positive width: the put wing, the put, the call and
    the call wing, the two wings with the opposite action.  All legs have
    quantity |q|. *)
Theorem strangle_legs w symbol quantity call put width gtc weeklies delta t r :
  strangle w symbol quantity call width gtc weeklies delta put = (t, Done r) ->
  (strike_price (st_put_strike r) < strike_price (st_call_strike r))%Q ->
  match width with Some wd => 0 <= wd | None => True end ->
  match st_spreads r with
  | None =>
      forall o_p o_c,
        Permutation (get_options w [SDK.put (st_put_strike r);
                                    SDK.call (st_call_strike r)])
                    [o_p; o_c] ->
        instrument_of o_p (SDK.put (st_put_strike r)) (strike_price (st_put_strike r)) ->
        instrument_of o_c (SDK.call (st_call_strike r)) (strike_price (st_call_strike r)) ->
        legs (st_order r) =
        [mkLeg (SDK.put (st_put_strike r)) (Z.abs quantity)
               (if quantity <? 0 then SELL_TO_OPEN else BUY_TO_OPEN);
         mkLeg (SDK.call (st_call_strike r)) (Z.abs quantity)
               (if quantity <? 0 then SELL_TO_OPEN else BUY_TO_OPEN)]
  | Some (ps, cs) =>
      forall o_ps o_p o_c o_cs,
        Permutation (get_options w [SDK.put (st_put_strike r);
                                    SDK.call (st_call_strike r);
                                    SDK.put ps; SDK.call cs])
                    [o_ps; o_p; o_c; o_cs] ->
        instrument_of o_ps (SDK.put ps) (strike_price ps) ->
        instrument_of o_p (SDK.put (st_put_strike r)) (strike_price (st_put_strike r)) ->
        instrument_of o_c (SDK.call (st_call_strike r)) (strike_price (st_call_strike r)) ->
        instrument_of o_cs (SDK.call cs) (strike_price cs) ->
        legs (st_order r) =
        [mkLeg (SDK.put ps) (Z.abs quantity)
               (if quantity <? 0 then BUY_TO_OPEN else SELL_TO_OPEN);
         mkLeg (SDK.put (st_put_strike r)) (Z.abs quantity)
               (if quantity <? 0 then SELL_TO_OPEN else BUY_TO_OPEN);
         mkLeg (SDK.call (st_call_strike r)) (Z.abs quantity)
               (if quantity <? 0 then SELL_TO_OPEN else BUY_TO_OPEN);
         mkLeg (SDK.call cs) (Z.abs quantity)
               (if quantity <? 0 then BUY_TO_OPEN else SELL_TO_OPEN)]
  end.
Proof.
  intros Hrun Hpc Hwd.
  apply strangle_Done in Hrun
    as (sub & p & lg & t0 & t1 & t2 & t3 & t4 & t5 & _ & _ & _ & Hq & _ & Hl & Ho).
  destruct (truthy_int width) eqn:Hw.
  - apply quote_strangle_condor in Hq
      as (wd & ps & cs & qd & cb & pb & psa & csa & -> & Hnz & Hsp & Hps & Hcs & _);
      [|exact Hw].
    rewrite Hsp in *.
    apply find_some in Hps as [_ Hps]. apply Qeq_bool_iff in Hps.
    apply find_some in Hcs as [_ Hcs]. apply Qeq_bool_iff in Hcs.
    assert (Hpos : (inject_Z 0 < inject_Z wd)%Q) by (rewrite <- Zlt_Qlt; lia).
    change (inject_Z 0) with 0%Q in Hpos.
    intros o_ps o_p o_c o_cs Hperm [S1 K1] [S2 K2] [S3 K3] [S4 K4].
    apply legs_strangle_condor in Hl as (o0 & o1 & o2 & o3 & rest & Hsort & ->).
    rewrite (sort_asc_arrangement o_strike_price Hperm) in Hsort.
    + injection Hsort as <- <- <- <- _. rewrite Ho. simpl.
      unfold build_leg, primary, hedge. now rewrite S1, S2, S3, S4.
    + repeat constructor; rewrite ?K1, ?K2, ?K3, ?K4, ?Hps, ?Hcs; lra.
  - apply quote_strangle_plain in Hq as (qd & Hsp & _); [|exact Hw].
    rewrite Hsp in *.
    intros o_p o_c Hperm [S1 K1] [S2 K2].
    apply legs_strangle_plain in Hl as (o0 & o1 & rest & Hsort & ->).
    rewrite (sort_asc_arrangement o_strike_price Hperm) in Hsort.
    + injection Hsort as <- <- _. rewrite Ho. simpl.
      unfold build_leg, primary, hedge. now rewrite S1, S2.
    + repeat constructor; rewrite ?K1, ?K2; lra.
Qed.

(** Witness for X9: the sample iron condor 95/100/105/110, sold once, the
    brokerage answering in reverse order of the request. *)
Lemma strangle_legs_witness :
  exists t r,
    strangle (Sample.world (Sample.put_greeks ++ Sample.call_greeks)
                           Sample.condor_quotes EmptyPrice)
             "XYZ" (-1) None (Some 5) false false (Some 30) None = (t, Done r) /\
    legs (st_order r) =
    [mkLeg "P95" 1 BUY_TO_OPEN; mkLeg "P100" 1 SELL_TO_OPEN;
     mkLeg "C105" 1 SELL_TO_OPEN; mkLeg "C110" 1 BUY_TO_OPEN].
Proof.
  destruct (strangle _ _ _ _ _ _ _ _ _) as [t o] eqn:Hrun.
  assert (Hc := Hrun). vm_compute in Hc. injection Hc as <- <-.
  eexists. eexists. split; [reflexivity|].
  refine (strangle_legs _ _ _ _ _ _ _ _ _ Hrun _ _
            (Sample.instrument "P95") (Sample.instrument "P100")
            (Sample.instrument "C105") (Sample.instrument "C110") _ _ _ _ _).
  - reflexivity.
  - simpl. lia.
  - simpl.
    apply (Permutation_trans
             (l' := [Sample.instrument "P95"; Sample.instrument "C110";
                     Sample.instrument "C105"; Sample.instrument "P100"])).
    + apply perm_swap.
    + apply perm_skip. apply Permutation_rev.
  - split; reflexivity.
  - split; reflexivity.
  - split; reflexivity.
  - split; reflexivity.
Defined.

(** *** Monthly expirations are third Fridays *)

Lemma weekday_shift y m d :
  weekday (Date y m d) = (weekday (Date y m 0) + d) mod 7.
Proof.
  unfold weekday, toordinal. cbn [year month day].
  rewrite Z.add_0_r, Zplus_mod_idemp_l. f_equal. lia.
Qed.

(** The weekday function on a few known dates: Thursday 1 January 1970,
    Tuesday 29 February 2000, Friday 19 January 2024, Wednesday 4 November
    2026. *)
Lemma weekday_known_dates :
  weekday (Date 1970 1 1) = 3 /\ weekday (Date 2000 2 29) = 1 /\
  weekday (Date 2024 1 19) = 4 /\ weekday (Date 2026 11 4) = 2.
Proof. repeat split. Qed.

(** X10: in every month of every year exactly one day is a monthly
    expiration day for [is_monthly]; it lies between the 15th and the 21st
    and it is the third Friday of the month: the Fridays up to it are that
    day and the days 7 and 14 days before it. *)
Theorem monthly_is_third_friday y m :
  1 <= y <= 9999 -> 1 <= m <= 12 ->
  exists d,
    15 <= d <= 21 /\
    is_monthly (Date y m d) = true /\
    (forall d', is_monthly (Date y m d') = true -> d' = d) /\
    (forall x, 1 <= x <= d ->
               (weekday (Date y m x) = 4 <-> x = d \/ x = d - 7 \/ x = d - 14)).
Proof.
  intros _ _.
  set (c := weekday (Date y m 0)).
  assert (Hc : 0 <= c < 7) by (apply Z.mod_pos_bound; lia).
  exists (15 + (3 - c) mod 7).
  assert (Hr : 0 <= (3 - c) mod 7 < 7) by (apply Z.mod_pos_bound; lia).
  split; [lia|]. split; [|split].
  - apply is_monthly_spec. cbn [day]. split; [|lia].
    rewrite weekday_shift. fold c.
    Z.to_euclidean_division_equations. lia.
  - intros d' Hd'. apply is_monthly_spec in Hd' as [Hw Hd]. cbn [day] in Hd.
    rewrite weekday_shift in Hw. fold c in Hw.
    Z.to_euclidean_division_equations. lia.
  - intros x Hx. rewrite weekday_shift. fold c.
    Z.to_euclidean_division_equations. lia.
Qed.

(** Witness for X10: January 2024, whose third Friday is the 19th. *)
Lemma monthly_is_third_friday_witness :
  exists d,
    15 <= d <= 21 /\
    is_monthly (Date 2024 1 d) = true /\
    (forall d', is_monthly (Date 2024 1 d') = true -> d' = d) /\
    (forall x, 1 <= x <= d ->
               (weekday (Date 2024 1 x) = 4 <-> x = d \/ x = d - 7 \/ x = d - 14)).
Proof. apply monthly_is_third_friday; lia. Defined.

(** *** Choosing an expiration by its number *)

Lemma print_menu_lines default exps : forall i c d b,
  In (Offer c d b) (fst (print_menu default i exps)) ->
  exists j, nth_error exps j = Some d /\ c = Z.of_nat (i + j) + 1 /\
            b = Nat.eqb (i + j) default.
Proof.
  induction exps as [|e exps IH]; intros i c d b; [intros []|].
  change (print_menu default i (e :: exps))
    with (bind (emit (Offer (Z.of_nat i + 1) e (Nat.eqb i default)))
               (fun _ => print_menu default (S i) exps)).
  rewrite bind_emit. cbn [fst]. intros [Heq|Hin].
  - injection Heq as <- <- <-. exists O. rewrite Nat.add_0_r. auto.
  - apply IH in Hin as (j & Hj & -> & ->). exists (S j).
    replace (i + S j)%nat with (S i + j)%nat by lia. auto.
Qed.

Lemma choose_loop_prompts_only exps default stdin : forall choice c d b,
  ~ In (Offer c d b) (fst (choose_loop exps default choice stdin)).
Proof.
  induction stdin as [|raw stdin IH]; intros choice c d b; rewrite choose_loop_step.
  - destruct (_ && _); [now rewrite index_silent|].
    intros [H|[]]. discriminate.
  - destruct (_ && _); [now rewrite index_silent|].
    cbn [fst]. intros [H|Hin]; [discriminate|].
    destruct raw; try (now apply IH in Hin). now rewrite index_silent in Hin.
Qed.

Lemma choose_loop_number exps default pre c rest : forall choice,
  (1 <=? choice) && (choice <? Z.of_nat (List.length exps) + 1) = false ->
  forallb (asks_again (List.length exps)) pre = true ->
  1 <= c <= Z.of_nat (List.length exps) ->
  snd (choose_loop exps default choice (pre ++ IntText c :: rest))
  = snd (index exps (Z.to_nat (c - 1))).
Proof.
  induction pre as [|raw pre IH]; intros choice Hout Hpre Hc;
    rewrite choose_loop_step, Hout; cbn [app snd].
  - rewrite choose_loop_step.
    replace ((1 <=? c) && (c <? Z.of_nat (List.length exps) + 1)) with true;
      [reflexivity|].
    symmetry. apply andb_true_iff. rewrite Z.leb_le, Z.ltb_lt. lia.
  - simpl in Hpre. apply andb_true_iff in Hpre as [Hraw Hpre].
    destruct raw as [|n|]; simpl in Hraw; try discriminate.
    + apply IH; auto.
      apply negb_true_iff in Hraw. rewrite <- Hraw.
      f_equal. apply eq_true_iff_eq. rewrite Z.ltb_lt, Z.leb_le. lia.
    + now apply IH.
Qed.

(** X11: the numbers of the expiration menu can be typed back.  When the
    operator's first answer that is not asked again is the number printed
    in front of an expiration, [choose_expiration] returns that expiration;
    and the only line marked as default is the one of
    [get_tasty_monthly()]. *)
Theorem choose_expiration_by_number
        (tm : date) (stdin : list RawInput) (chain : NestedOptionChain)
        (weeklies : bool) pre c rest d b :
  stdin = pre ++ IntText c :: rest ->
  forallb (asks_again
             (List.length (offers (fst (choose_expiration tm stdin chain weeklies)))))
          pre = true ->
  In (Offer c d b) (fst (choose_expiration tm stdin chain weeklies)) ->
  snd (choose_expiration tm stdin chain weeklies) = Done d /\
  (b = true -> d = tm).
Proof.
  intros -> Hpre Hline.
  set (exps := if weeklies then map expiration_date (expirations chain)
               else filter is_monthly (map expiration_date (expirations chain))).
  assert (Hexps : (if negb weeklies
                   then filter is_monthly (map expiration_date (expirations chain))
                   else map expiration_date (expirations chain)) = exps)
    by (unfold exps; now destruct weeklies).
  unfold choose_expiration in *. rewrite Hexps in *.
  destruct (list_index tm exps) as [default|] eqn:Hd; [|destruct Hline].
  rewrite (@bind_Done_pair _ _ (print_menu default O exps) _ tt) in *
    by apply print_menu_offers.
  cbn [fst snd] in *.
  assert (Hoff : offers (fst (print_menu default 0 exps)
                           ++ fst (choose_loop exps default 0
                                               (pre ++ IntText c :: rest))) = exps).
  { unfold offers. rewrite flat_map_app.
    fold (offers (fst (print_menu default O exps))).
    fold (offers (fst (choose_loop exps default 0 (pre ++ IntText c :: rest)))).
    rewrite choose_loop_offers, app_nil_r. apply print_menu_offers. }
  rewrite Hoff in Hpre.
  apply in_app_or in Hline as [Hline|Hline];
    [|now apply choose_loop_prompts_only in Hline].
  apply print_menu_lines in Hline as (j & Hj & -> & ->). simpl.
  assert (Hlt : (j < List.length exps)%nat)
    by (apply nth_error_Some; congruence).
  split.
  - rewrite choose_loop_number by (auto; lia).
    replace (Z.to_nat (Z.of_nat j + 1 - 1)) with j by lia.
    unfold index. now rewrite Hj.
  - intros Hb. apply Nat.eqb_eq in Hb. subst j.
    apply list_index_nth in Hd. congruence.
Qed.

(** Witness for X11: on the sample chain with weeklies shown, the operator
    types 9, then 3, the number of February 16th. *)
Lemma choose_expiration_by_number_witness :
  snd (choose_expiration Sample.jan19 [IntText 9; IntText 3] Sample.chain true)
  = Done Sample.feb16 /\
  (false = true -> Sample.feb16 = Sample.jan19).
Proof.
  apply (@choose_expiration_by_number Sample.jan19 [IntText 9; IntText 3]
           Sample.chain true [IntText 9] 3 [] Sample.feb16 false).
  - reflexivity.
  - reflexivity.
  - vm_compute. tauto.
Defined.

(** *** The console layer *)

Lemma io_bind_ret {A B} (a : A) (f : A -> IO B) : io_bind (io_ret a) f = f a.
Proof. unfold io_bind, io_ret. destruct (f a). reflexivity. Qed.

Lemma io_bind_emit {B} (e : IOEvent) (k : IO B) :
  io_bind (io_emit e) (fun _ => k) = (e :: fst k, snd k).
Proof. unfold io_bind, io_emit. destruct k. reflexivity. Qed.

Lemma io_bind_Ok_run {A B} (m : IO A) (f : A -> IO B) t a :
  m = (t, Ok a) -> io_bind m f = (t ++ fst (f a), snd (f a)).
Proof. intros ->. unfold io_bind. destruct (f a). reflexivity. Qed.

Lemma io_bind_Ok_inv {A B} (m : IO A) (f : A -> IO B) t b :
  io_bind m f = (t, Ok b) ->
  exists t1 a t2, m = (t1, Ok a) /\ f a = (t2, Ok b) /\ t = t1 ++ t2.
Proof.
  unfold io_bind. destruct m as [t1 [a|e| |]]; try discriminate.
  destruct (f a) as [t2 r] eqn:Hf. intros [= <- ->].
  exists t1, a, t2. auto.
Qed.

Lemma io_bind_trace {A B} (m : IO A) (f : A -> IO B) :
  exists t2, fst (io_bind m f) = fst m ++ t2 /\
             (forall a, snd m = Ok a -> t2 = fst (f a)) /\
             ((forall a, snd m <> Ok a) -> t2 = []).
Proof.
  destruct m as [t [a|e| |]]; cbn [io_bind fst snd].
  - destruct (f a) as [t2 r] eqn:Hf. exists t2. cbn. repeat split.
    + intros a' [= <-]. rewrite Hf. reflexivity.
    + intros Hn. exfalso. apply (Hn a). reflexivity.
  - exists []. rewrite app_nil_r. repeat split. discriminate.
  - exists []. rewrite app_nil_r. repeat split. discriminate.
  - exists []. rewrite app_nil_r. repeat split. discriminate.
Qed.

(** *** ConfigParser *)

Lemma io_bind_reads {A B} (m : IO A) (f : A -> IO B) :
  (exists r, m = ([], r) /\ r <> Stopped /\ r <> Waiting) ->
  (forall a, exists r, f a = ([], r) /\ r <> Stopped /\ r <> Waiting) ->
  exists r, io_bind m f = ([], r) /\ r <> Stopped /\ r <> Waiting.
Proof.
  intros (r & -> & Hs & Hw) Hf. destruct r as [a|e| |]; try congruence.
  - destruct (Hf a) as (r & Hr & H). exists r. cbn [io_bind]. rewrite Hr.
    split; [reflexivity|exact H].
  - exists (Failed e). repeat split; discriminate.
Qed.

Lemma io_ret_reads {A} (a : A) :
  exists r, io_ret a = ([], r) /\ r <> Stopped /\ r <> Waiting.
Proof. exists (Ok a). repeat split; discriminate. Qed.

Lemma io_raise_reads {A} (e : error) :
  exists r, @io_raise A e = ([], r) /\ r <> Stopped /\ r <> Waiting.
Proof. exists (Failed e). repeat split; discriminate. Qed.

(** Interpolation prints and asks nothing: it returns a string or raises
    one of its errors. *)
Lemma interpolate_some_reads : forall depth_left map rest,
  exists r, interpolate_some depth_left map rest = ([], r)
            /\ r <> Stopped /\ r <> Waiting.
Proof.
  induction depth_left as [|n IH]; intros map rest.
  - apply io_raise_reads.
  - cbn [interpolate_some].
    match goal with
    | |- exists r, ?scan Text rest = _ /\ _ =>
        enough (H : forall rest st, exists r,
                     scan st rest = ([], r) /\ r <> Stopped /\ r <> Waiting)
          by apply H
    end.
    clear rest. induction rest as [|c rest IHrest]; intros st.
    + destruct st; first [apply io_ret_reads | apply io_raise_reads].
    + destruct st as [| |var|var].
      * destruct (Ascii.eqb c _); [apply IHrest|].
        apply io_bind_reads; [apply IHrest|]. intros s. apply io_ret_reads.
      * destruct (Ascii.eqb c _).
        { apply io_bind_reads; [apply IHrest|]. intros s. apply io_ret_reads. }
        destruct (Ascii.eqb c _); [apply IHrest|apply io_raise_reads].
      * destruct (Ascii.eqb c _); [|apply IHrest].
        destruct var; [apply io_raise_reads|apply IHrest].
      * destruct (Ascii.eqb c _); [|apply io_raise_reads].
        destruct (map (lower var)) as [v|]; [|apply io_raise_reads].
        apply io_bind_reads.
        { destruct (has_percent v); [apply IH|apply io_ret_reads]. }
        intros v'. apply io_bind_reads; [apply IHrest|].
        intros s. apply io_ret_reads.
Qed.

Lemma SectionProxy_get_reads cfg section_dict option_ :
  exists r, SectionProxy_get cfg section_dict option_ = ([], r)
            /\ r <> Stopped /\ r <> Waiting.
Proof.
  unfold SectionProxy_get.
  destruct (match dict_get option_ section_dict with
            | Some v => Some v
            | None => dict_get option_ (defaults cfg)
            end) as [value|]; [|apply io_ret_reads].
  apply io_bind_reads; [apply interpolate_some_reads|].
  intros v. apply io_ret_reads.
Qed.

(** A value without [%] is read as it is written. *)
Lemma interpolate_some_plain depth_left map : forall rest,
  has_percent rest = false ->
  interpolate_some (S depth_left) map rest = io_ret rest.
Proof.
  cbn [interpolate_some].
  induction rest as [|c rest IH]; intros Hp; [reflexivity|].
  cbn [has_percent] in Hp. apply orb_false_iff in Hp as [Hc Hp].
  rewrite Hc, (IH Hp), io_bind_ret. reflexivity.
Qed.

Lemma SectionProxy_get_plain cfg section_dict option_ value :
  dict_get option_ section_dict = Some value ->
  has_percent value = false ->
  SectionProxy_get cfg section_dict option_ = ([], Ok (Some value)).
Proof.
  intros Hv Hp. unfold SectionProxy_get. rewrite Hv.
  rewrite (interpolate_some_plain _ _ _ Hp), io_bind_ret. reflexivity.
Qed.

Lemma SectionProxy_get_default cfg section_dict option_ value :
  dict_get option_ section_dict = None ->
  dict_get option_ (defaults cfg) = Some value ->
  has_percent value = false ->
  SectionProxy_get cfg section_dict option_ = ([], Ok (Some value)).
Proof.
  intros Hs Hv Hp. unfold SectionProxy_get. rewrite Hs, Hv.
  rewrite (interpolate_some_plain _ _ _ Hp), io_bind_ret. reflexivity.
Qed.

Lemma SectionProxy_get_missing cfg section_dict option_ :
  dict_get option_ section_dict = None ->
  dict_get option_ (defaults cfg) = None ->
  SectionProxy_get cfg section_dict option_ = ([], Ok None).
Proof.
  intros Hs Hv. unfold SectionProxy_get. rewrite Hs, Hv. reflexivity.
Qed.

(** *** get_confirmation *)

Module ConfirmationFacts.
Import Stdlib.Strings.Ascii.

Lemma lower_char_y (c : ascii) :
  Ascii.eqb (lower_char c) "y" = Ascii.eqb c "y" || Ascii.eqb c "Y".
Proof. destruct c as [[] [] [] [] [] [] [] []]; reflexivity. Qed.

Lemma lower_char_n (c : ascii) :
  Ascii.eqb (lower_char c) "n" = Ascii.eqb c "n" || Ascii.eqb c "N".
Proof. destruct c as [[] [] [] [] [] [] [] []]; reflexivity. Qed.

Lemma prefix_char (c c' : ascii) s :
  prefix (String c EmptyString) (String c' s) = Ascii.eqb c c'.
Proof.
  cbn [prefix]. destruct (ascii_dec c c') as [->|Hne].
  - rewrite Ascii.eqb_refl. destruct s; reflexivity.
  - symmetry. apply Ascii.eqb_neq. exact Hne.
Qed.

(** One turn of the confirmation loop. *)
Lemma get_confirmation_step prompt default line stdin :
  get_confirmation prompt default (line :: stdin)
  = match verdict default line with
    | Some b => ([Core (Prompt prompt)], Ok b)
    | None => let r := get_confirmation prompt default stdin in
              (Core (Prompt prompt) :: fst r, snd r)
    end.
Proof.
  cbn [get_confirmation]. unfold input. rewrite io_bind_emit.
  unfold verdict. destruct line as [|c s].
  - reflexivity.
  - cbn [lower String.eqb].
    change "y"%string with (String "y"%char EmptyString).
    change "Y"%string with (String "Y"%char EmptyString).
    change "n"%string with (String "n"%char EmptyString).
    change "N"%string with (String "N"%char EmptyString).
    rewrite !prefix_char.
    rewrite lower_char_y, lower_char_n.
    rewrite (Ascii.eqb_sym c "y"%char), (Ascii.eqb_sym c "Y"%char).
    destruct (Ascii.eqb "y" c || Ascii.eqb "Y" c); [reflexivity|].
    rewrite (Ascii.eqb_sym c "n"%char), (Ascii.eqb_sym c "N"%char).
    destruct (Ascii.eqb "n" c || Ascii.eqb "N" c); [reflexivity|].
    destruct (get_confirmation prompt default stdin). reflexivity.
Qed.

End ConfirmationFacts.

Lemma get_confirmation_EOF prompt default stdin :
  Forall (fun l => verdict default l = None) stdin ->
  get_confirmation prompt default stdin
  = (prompts prompt (S (List.length stdin)), Failed (Py EOFError)).
Proof.
  induction 1 as [|l stdin Hl _ IH].
  - reflexivity.
  - rewrite ConfirmationFacts.get_confirmation_step, Hl, IH. reflexivity.
Qed.

(** X12: the confirmation prompt is repeated until an answer decides: an
    empty answer gives the default, an answer whose first letter is y or
    Y gives yes, n or N gives no; every answer before it was ignored, and
    the prompt was shown once per answer read. *)
Theorem get_confirmation_first_decisive_answer
        prompt default (ignored : list string) answer rest b :
  Forall (fun l => verdict default l = None) ignored ->
  verdict default answer = Some b ->
  get_confirmation prompt default (ignored ++ answer :: rest)
  = (prompts prompt (S (List.length ignored)), Ok b).
Proof.
  intros Hign Hans. induction Hign as [|l ignored Hl _ IH].
  - cbn [app]. rewrite ConfirmationFacts.get_confirmation_step, Hans. reflexivity.
  - cbn [app]. rewrite ConfirmationFacts.get_confirmation_step, Hl, IH. reflexivity.
Qed.

(** Witness for X12: two answers that decide nothing, then a yes, with the
    default set to no. *)
Lemma get_confirmation_first_decisive_answer_witness :
  get_confirmation "Send order? Y/n " false ["maybe"; "1"; "Yes please"; "n"]%string
  = (prompts "Send order? Y/n " 3, Ok true).
Proof.
  apply (@get_confirmation_first_decisive_answer
           "Send order? Y/n " false ["maybe"; "1"]%string "Yes please" ["n"]%string true).
  - repeat constructor.
  - reflexivity.
Defined.

(** *** get_account *)

Lemma print_accounts_lines accs : forall i,
  print_accounts i accs = (account_lines i accs, Ok tt).
Proof.
  induction accs as [|a accs IH]; intros i.
  - reflexivity.
  - cbn [print_accounts account_lines]. rewrite io_bind_emit, IH. reflexivity.
Qed.

Lemma choose_account_step accs choice raw stdin :
  ~ (1 <= choice <= Z.of_nat (List.length accs)) ->
  choose_account accs choice (raw :: stdin)
  = let r := match raw with
             | IntText n => choose_account accs n stdin
             | _ => io_index accs 0
             end in
    (Core (Prompt "Please choose an account: ") :: fst r, snd r).
Proof.
  intros Hout. cbn [choose_account].
  destruct ((1 <=? choice) && (choice <? Z.of_nat (List.length accs) + 1)) eqn:E.
  - exfalso. apply Hout. apply andb_true_iff in E as [E1 E2]. lia.
  - unfold input. rewrite io_bind_emit. destruct raw; reflexivity.
Qed.

Lemma choose_account_in_range accs choice stdin :
  1 <= choice <= Z.of_nat (List.length accs) ->
  choose_account accs choice stdin = io_index accs (Z.to_nat (choice - 1)).
Proof.
  intros Hin.
  assert (E : (1 <=? choice) && (choice <? Z.of_nat (List.length accs) + 1) = true)
    by (apply andb_true_iff; lia).
  destruct stdin; cbn [choose_account]; rewrite E; reflexivity.
Qed.

Lemma choose_account_picks accs a raw rest : forall outs choice,
  ~ (1 <= choice <= Z.of_nat (List.length accs)) ->
  Forall (off_menu (List.length accs)) outs ->
  picked accs raw = Some a ->
  choose_account accs choice (outs ++ raw :: rest)
  = (prompts "Please choose an account: " (S (List.length outs)), Ok a).
Proof.
  induction outs as [|o outs IH]; intros choice Hout Houts Hpick.
  - cbn [app]. rewrite choose_account_step by exact Hout.
    destruct raw as [|k|]; cbn [picked] in Hpick.
    + unfold io_index. rewrite Hpick. reflexivity.
    + destruct ((1 <=? k) && (k <=? Z.of_nat (List.length accs))) eqn:E;
        [|discriminate].
      apply andb_true_iff in E as [E1 E2].
      rewrite choose_account_in_range by lia.
      unfold io_index. rewrite Hpick. reflexivity.
    + unfold io_index. rewrite Hpick. reflexivity.
  - inversion Houts as [|? ? (k & -> & Hk) Houts']; subst.
    cbn [app]. rewrite choose_account_step by exact Hout.
    rewrite (IH k Hk Houts' Hpick). reflexivity.
Qed.

Lemma io_index_In {A} (xs : list A) i t a :
  io_index xs i = (t, Ok a) -> In a xs /\ t = [].
Proof.
  unfold io_index. destruct (nth_error xs i) eqn:E; [|discriminate].
  intros [= <- <-]. split; [eapply nth_error_In; exact E | reflexivity].
Qed.

Lemma choose_account_In accs : forall stdin choice t a,
  choose_account accs choice stdin = (t, Ok a) -> In a accs.
Proof.
  induction stdin as [|raw stdin IH]; intros choice t a.
  - cbn [choose_account].
    destruct ((1 <=? choice) && (choice <? Z.of_nat (List.length accs) + 1)).
    + intros H. apply io_index_In in H. tauto.
    + unfold input. rewrite io_bind_emit. cbn. discriminate.
  - cbn [choose_account].
    destruct ((1 <=? choice) && (choice <? Z.of_nat (List.length accs) + 1)).
    + intros H. apply io_index_In in H. tauto.
    + unfold input. rewrite io_bind_emit.
      destruct raw as [|k|].
      * destruct (io_index accs 0) as [t' r'] eqn:E. cbn [fst snd].
        intros [= <- ->]. apply io_index_In in E. tauto.
      * destruct (choose_account accs k stdin) as [t' r'] eqn:E. cbn [fst snd].
        intros [= <- ->]. eapply IH. exact E.
      * destruct (io_index accs 0) as [t' r'] eqn:E. cbn [fst snd].
        intros [= <- ->]. apply io_index_In in E. tauto.
Qed.

(** X13: whichever way the account is found (the configured default, a
    number typed at the menu, or the fallback on any other answer),
    [get_account] returns one of the accounts of the session. *)
Theorem get_account_returns_session_account
        (s : RenewableSession) (stdin : list RawInput) t a :
  get_account s stdin = (t, Ok a) -> In a (accounts s).
Proof.
  unfold get_account. unfold field.
  destruct (dict_get "general" (sections (config s))) as [general|]; [|discriminate].
  rewrite io_bind_ret. intros Hrun.
  apply io_bind_Ok_inv in Hrun as (tc & account & tm & _ & Hrun & _).
  revert Hrun.
  assert (Hmenu : forall a',
             snd (print_accounts 0 (accounts s);;~
                  choose_account (accounts s) 0 stdin) = Ok a' ->
             In a' (accounts s)).
  { intros a' H.
    destruct (io_bind _ _) as [t' r'] eqn:E in H. cbn [snd] in H. subst r'.
    apply io_bind_Ok_inv in E as (t1 & [] & t2 & _ & E & _).
    eapply choose_account_In. exact E. }
  destruct (truthy_str account).
  - destruct (find _ (accounts s)) as [a0|] eqn:Hfind.
    + intros [= _ <-]. apply find_some in Hfind. tauto.
    + unfold print_warning. rewrite io_bind_emit.
      intros [= _ H]. apply Hmenu. exact H.
  - intros H. apply Hmenu. rewrite H. reflexivity.
Qed.

(** Witness for X13: a stale default, a number off the menu, then a text. *)
Lemma get_account_returns_session_account_witness :
  In SampleDesk.individual (accounts SampleDesk.stale).
Proof.
  destruct (get_account SampleDesk.stale [IntText 7; OtherText]) as [t o] eqn:Hrun.
  assert (Hc := Hrun). vm_compute in Hc. injection Hc as <- <-.
  exact (get_account_returns_session_account _ _ Hrun).
Defined.

(** X14: when the configuration has a [general] section whose
    [default-account] option reads (after interpolation, with the
    [DEFAULT] section as fallback) as [account], and that is not a usable
    default (no value, an empty one, or a number the session does not
    have, which adds a warning), the menu lists every account, numbered
    from 1 with the first marked as default; numbers outside the menu are
    asked again, a number on the menu returns that account, and any other
    answer (nothing, or a text that is not an integer) returns the first
    account. *)
Theorem get_account_menu
        (s : RenewableSession) general account (outs : list RawInput) raw rest a :
  dict_get "general" (sections (config s)) = Some general ->
  SectionProxy_get (config s) general "default-account" = ([], Ok account) ->
  (forall n, account = Some n ->
             Forall (fun b => account_number b <> n) (accounts s)) ->
  Forall (off_menu (List.length (accounts s))) outs ->
  picked (accounts s) raw = Some a ->
  get_account s (outs ++ raw :: rest)
  = ((if truthy_str account
      then [PrintWarning "Default account is set, but the account doesn't appear to exist!"]
      else [])
     ++ account_lines 0 (accounts s)
     ++ prompts "Please choose an account: " (S (List.length outs)),
     Ok a).
Proof.
  intros Hgen Hget Hnone Houts Hpick.
  unfold get_account, field. rewrite Hgen, io_bind_ret.
  erewrite io_bind_Ok_run by exact Hget. cbn [app].
  assert (Hmenu : (print_accounts 0 (accounts s);;~
                   choose_account (accounts s) 0 (outs ++ raw :: rest))
                  = (account_lines 0 (accounts s)
                     ++ prompts "Please choose an account: " (S (List.length outs)),
                     Ok a)).
  { erewrite io_bind_Ok_run by apply print_accounts_lines.
    rewrite (@choose_account_picks (accounts s) a raw rest outs 0); auto.
    lia. }
  destruct (truthy_str account) eqn:Ht.
  - destruct account as [n|]; [|discriminate].
    specialize (Hnone n eq_refl).
    destruct (find _ (accounts s)) as [a0|] eqn:Hfind.
    + exfalso. apply find_some in Hfind as [Hin Heq].
      rewrite Forall_forall in Hnone. apply (Hnone a0 Hin).
      apply String.eqb_eq. exact Heq.
    + unfold print_warning. rewrite io_bind_emit, Hmenu. reflexivity.
  - rewrite Hmenu. reflexivity.
Qed.

(** Witness for X14: the same session, with two numbers off the menu
    before the text. *)
Lemma get_account_menu_witness :
  get_account SampleDesk.stale ([IntText 0; IntText 3] ++ OtherText :: [IntText 2])
  = ([PrintWarning "Default account is set, but the account doesn't appear to exist!";
      AccountLine 1 SampleDesk.individual true;
      AccountLine 2 SampleDesk.ira false;
      Core (Prompt "Please choose an account: ");
      Core (Prompt "Please choose an account: ");
      Core (Prompt "Please choose an account: ")],
     Ok SampleDesk.individual).
Proof.
  apply (@get_account_menu SampleDesk.stale
           [("default-account", "5WX00009")]%string (Some "5WX00009"%string)
           [IntText 0; IntText 3] OtherText [IntText 2] SampleDesk.individual).
  - reflexivity.
  - reflexivity.
  - intros n [= <-]. repeat constructor; discriminate.
  - repeat constructor; eexists; (split; [reflexivity|cbn; lia]).
  - reflexivity.
Defined.

(** *** test_order_handle_errors *)

Lemma accepted_iff (r : Response) :
  negb (status_code r / 100 =? 2) = false <-> accepted r.
Proof.
  unfold accepted. rewrite negb_false_iff, Z.eqb_eq. split.
  - intros H. Z.to_euclidean_division_equations. lia.
  - intros H. Z.to_euclidean_division_equations. lia.
Qed.

Lemma print_errors_lines : forall errors lines,
  map error_line errors = map Some lines ->
  print_errors errors = (map (fun l => Core (PrintError l)) lines, Ok tt).
Proof.
  induction errors as [|e errors IH]; intros [|l lines] Hmap; try discriminate.
  - reflexivity.
  - cbn [map] in Hmap. injection Hmap as He Hmap.
    cbn [print_errors map].
    assert (Hline : match dict_get "code" e with
                    | Some _ => m <~ field (dict_get "message" e);; print_error m
                    | None => m <~ field (dict_get "reason" e);; print_error m
                    end = ([Core (PrintError l)], Ok tt)).
    { unfold error_line in He. destruct (dict_get "code" e); rewrite He;
        unfold field; rewrite io_bind_ret; reflexivity. }
    erewrite io_bind_Ok_run by exact Hline.
    rewrite (IH lines Hmap). reflexivity.
Qed.

Lemma test_order_accepted (post : Account -> NewOrder -> Response) acc order d :
  accepted (post acc order) -> json_data (post acc order) = Some d ->
  test_order_handle_errors post acc order = ([DryRun acc order], Ok (Some d)).
Proof.
  intros Ha Hd. unfold test_order_handle_errors. rewrite io_bind_emit.
  apply accepted_iff in Ha. rewrite Ha, Hd. reflexivity.
Qed.

Lemma test_order_Some_inv (post : Account -> NewOrder -> Response) acc order t d :
  test_order_handle_errors post acc order = (t, Ok (Some d)) ->
  accepted (post acc order) /\ json_data (post acc order) = Some d
  /\ t = [DryRun acc order].
Proof.
  unfold test_order_handle_errors. rewrite io_bind_emit.
  destruct (negb (status_code (post acc order) / 100 =? 2)) eqn:E.
  - intros H. exfalso.
    destruct (field (json_error (post acc order))) as [t1 [c| | |]] eqn:Hc;
      cbn [io_bind fst snd] in H; try discriminate.
    destruct (field (ec_message c)) as [t2 [m| | |]] eqn:Hm;
      cbn [io_bind fst snd] in H; try discriminate.
    unfold print_error in H. rewrite io_bind_emit in H.
    destruct (match ec_errors c with
              | Some errors => print_errors errors
              | None => io_ret tt
              end) as [t3 [[]| | |]]; cbn in H; discriminate.
  - apply accepted_iff in E. unfold field.
    destruct (json_data (post acc order)) as [d'|]; [|discriminate].
    rewrite io_bind_ret. cbn [io_ret fst snd]. intros [= <- <-]. auto.
Qed.

(** X15: the order check hands back the dry-run result exactly when the
    brokerage answered with a 2xx status (and the body holds the data);
    nothing is printed in that case. *)
Theorem dry_run_result_iff_accepted
        (post : Account -> NewOrder -> Response) acc order t d :
  test_order_handle_errors post acc order = (t, Ok (Some d))
  <-> accepted (post acc order) /\ json_data (post acc order) = Some d
      /\ t = [DryRun acc order].
Proof.
  split.
  - intros Hrun. destruct (test_order_Some_inv _ _ _ Hrun) as (Ha & Hd & Ht).
    auto.
  - intros (Ha & Hd & ->). apply test_order_accepted; assumption.
Qed.

(** X16: on any other status the check prints the message of the error
    body, then one line per entry of its [errors] list, in order (the
    entry's message when it has a code, else its reason), and returns
    nothing. *)
Theorem dry_run_rejection_report
        (post : Account -> NewOrder -> Response) acc order c m lines :
  ~ accepted (post acc order) ->
  json_error (post acc order) = Some c ->
  ec_message c = Some m ->
  map error_line (match ec_errors c with Some errors => errors | None => [] end)
  = map Some lines ->
  test_order_handle_errors post acc order
  = (DryRun acc order :: map (fun l => Core (PrintError l)) (m :: lines), Ok None).
Proof.
  intros Hrej Hc Hm Hlines.
  unfold test_order_handle_errors. rewrite io_bind_emit.
  destruct (negb (status_code (post acc order) / 100 =? 2)) eqn:E.
  - unfold field. rewrite Hc. cbv iota. rewrite io_bind_ret.
    rewrite Hm. cbv iota. rewrite io_bind_ret.
    unfold print_error. rewrite io_bind_emit.
    assert (Hloop : match ec_errors c with
                    | Some errors => print_errors errors
                    | None => io_ret tt
                    end = (map (fun l => Core (PrintError l)) lines, Ok tt)).
    { destruct (ec_errors c) as [errors|].
      - apply print_errors_lines. exact Hlines.
      - destruct lines; [reflexivity|discriminate]. }
    rewrite Hloop. cbn. rewrite app_nil_r. reflexivity.
  - exfalso. apply Hrej. apply accepted_iff. exact E.
Qed.

(** Witness for X16: a 422 answer with one coded and one plain error. *)
Lemma dry_run_rejection_report_witness :
  test_order_handle_errors (fun _ _ => SampleDesk.rejected) SampleDesk.ira
                           (mkOrder DAY LIMIT [] 1.25 DEBIT)
  = ([DryRun SampleDesk.ira (mkOrder DAY LIMIT [] 1.25 DEBIT);
      Core (PrintError "Order failed validation");
      Core (PrintError "Insufficient buying power");
      Core (PrintError "Price out of range")],
     Ok None).
Proof.
  eapply (@dry_run_rejection_report (fun _ _ => SampleDesk.rejected)
            SampleDesk.ira (mkOrder DAY LIMIT [] 1.25 DEBIT) _
            "Order failed validation"
            ["Insufficient buying power"; "Price out of range"]%string).
  - unfold accepted. cbn. lia.
  - reflexivity.
  - reflexivity.
  - reflexivity.
Defined.

(** *** Review and submission *)

Lemma sent_app t1 t2 : sent (t1 ++ t2) = sent t1 ++ sent t2.
Proof.
  induction t1 as [|e t1 IH]; [reflexivity|].
  destruct e; cbn [app sent]; rewrite IH; reflexivity.
Qed.

Lemma sent_Core t : sent (map Core t) = [].
Proof. induction t as [|e t IH]; [reflexivity|exact IH]. Qed.

Lemma sent_bind {A B} (m : IO A) (f : A -> IO B) :
  sent (fst m) = [] ->
  (forall a, snd m = Ok a -> sent (fst (f a)) = []) ->
  sent (fst (io_bind m f)) = [].
Proof.
  destruct m as [t [a|e| |]]; cbn [io_bind fst snd]; intros Ht Hf; try exact Ht.
  specialize (Hf a eq_refl). destruct (f a) as [t' r]. cbn [fst] in *.
  rewrite sent_app, Ht, Hf. reflexivity.
Qed.

Lemma io_index_quiet {A} (xs : list A) i : fst (io_index xs i) = [].
Proof. unfold io_index. destruct (nth_error xs i); reflexivity. Qed.

Lemma field_quiet {A} (v : option A) : fst (field v) = [].
Proof. destruct v; reflexivity. Qed.

Lemma choose_account_quiet accs : forall stdin choice,
  sent (fst (choose_account accs choice stdin)) = [].
Proof.
  induction stdin as [|raw stdin IH]; intros choice; cbn [choose_account];
    destruct ((1 <=? choice) && (choice <? Z.of_nat (List.length accs) + 1)).
  - rewrite io_index_quiet. reflexivity.
  - reflexivity.
  - rewrite io_index_quiet. reflexivity.
  - unfold input. rewrite io_bind_emit. cbn [fst sent].
    destruct raw; [rewrite io_index_quiet; reflexivity | apply IH
                  | rewrite io_index_quiet; reflexivity].
Qed.

(** The option is read the way the parser reads it: a value of the
    [DEFAULT] section stands in for a missing one, and a value with a
    stray [%] is an error, not an account number. *)
Lemma get_account_reads_through_the_parser stdin :
  get_account
    (mkSession (mkConfig [("default-account", "5WX00002")] [("general", [])])
               [SampleDesk.individual; SampleDesk.ira])%string stdin
  = ([], Ok SampleDesk.ira)
  /\ get_account
       (mkSession (mkConfig [] [("general", [("default-account", "5WX%")])])
                  [SampleDesk.individual; SampleDesk.ira])%string stdin
     = ([], Failed InterpolationSyntaxError)
  /\ get_account
       (mkSession (mkConfig [] [("general", [("main", "5WX00002");
                                            ("default-account", "%(MAIN)s")])])
                  [SampleDesk.individual; SampleDesk.ira])%string stdin
     = ([], Ok SampleDesk.ira).
Proof. repeat split. Qed.

Lemma account_lines_quiet accs : forall i, sent (account_lines i accs) = [].
Proof. induction accs as [|a accs IH]; intros i; [reflexivity|apply IH]. Qed.

Lemma get_account_quiet s stdin : sent (fst (get_account s stdin)) = [].
Proof.
  unfold get_account. apply sent_bind; [rewrite field_quiet; reflexivity|].
  intros general _.
  assert (Hmenu : sent (fst (print_accounts 0 (accounts s);;~
                             choose_account (accounts s) 0 stdin)) = []).
  { apply sent_bind.
    - rewrite print_accounts_lines. apply account_lines_quiet.
    - intros _ _. apply choose_account_quiet. }
  apply sent_bind.
  { destruct (SectionProxy_get_reads (config s) general "default-account")
      as (r & -> & _). reflexivity. }
  intros account _.
  destruct (truthy_str account); [|exact Hmenu].
  destruct (find _ _); [reflexivity|].
  unfold print_warning. rewrite io_bind_emit. exact Hmenu.
Qed.

Lemma print_errors_quiet errors : sent (fst (print_errors errors)) = [].
Proof.
  induction errors as [|e errors IH]; [reflexivity|].
  cbn [print_errors]. apply sent_bind; [|intros _ _; exact IH].
  destruct (dict_get "code" e);
    (apply sent_bind; [rewrite field_quiet; reflexivity|intros; reflexivity]).
Qed.

Lemma test_order_quiet post acc order :
  sent (fst (test_order_handle_errors post acc order)) = [].
Proof.
  unfold test_order_handle_errors. rewrite io_bind_emit. cbn [fst sent].
  destruct (negb _).
  - apply sent_bind; [rewrite field_quiet; reflexivity|]. intros c _.
    apply sent_bind; [rewrite field_quiet; reflexivity|]. intros m _.
    unfold print_error. rewrite io_bind_emit. cbn [fst sent].
    apply sent_bind; [|intros; reflexivity].
    destruct (ec_errors c); [apply print_errors_quiet|reflexivity].
  - apply sent_bind; [rewrite field_quiet; reflexivity|intros; reflexivity].
Qed.

Lemma print_warnings_run ws :
  print_warnings ws = (map PrintWarning ws, Ok tt).
Proof.
  induction ws as [|w ws IH]; [reflexivity|].
  cbn [print_warnings map]. unfold print_warning. rewrite io_bind_emit, IH.
  reflexivity.
Qed.

Lemma sent_warnings ws : sent (map PrintWarning ws) = [].
Proof. induction ws as [|w ws IH]; [reflexivity|exact IH]. Qed.

Lemma get_confirmation_quiet prompt default : forall stdin,
  sent (fst (get_confirmation prompt default stdin)) = [].
Proof.
  induction stdin as [|l stdin IH]; [reflexivity|].
  rewrite ConfirmationFacts.get_confirmation_step.
  destruct (verdict default l); [reflexivity|exact IH].
Qed.

(** What [review_and_send] submits, once the account is known. *)
Lemma review_and_send_sent dk order rows ta acc :
  get_account (session dk) (stdin_account dk) = (ta, Ok acc) ->
  (sent (fst (review_and_send dk order rows)) = [(acc, order)]
   /\ cleared dk order acc)
  \/ (sent (fst (review_and_send dk order rows)) = []
      /\ ~ cleared dk order acc).
Proof.
  intros Hacc. unfold review_and_send.
  erewrite io_bind_Ok_run by exact Hacc. cbn [fst].
  assert (Hta : sent ta = []).
  { pose proof (get_account_quiet (session dk) (stdin_account dk)) as H.
    rewrite Hacc in H. exact H. }
  rewrite sent_app, Hta, app_nil_l.
  destruct (test_order_handle_errors (dry_run dk) acc order) as [td rd] eqn:Htest.
  assert (Htd : sent td = []).
  { pose proof (test_order_quiet (dry_run dk) acc order) as H.
    rewrite Htest in H. exact H. }
  assert (Hno : (forall d, rd <> Ok (Some d)) ->
                ~ cleared dk order acc).
  { intros Hrd (_ & Ha & (d & Hd) & _).
    assert (H : test_order_handle_errors (dry_run dk) acc order
                = ([DryRun acc order], Ok (Some d)))
      by (apply test_order_accepted; auto).
    rewrite Htest in H. injection H as _ H. exact (Hrd d H). }
  destruct rd as [[d|]| | |]; cbn [io_bind fst];
    try (right; split; [cbn [io_stop]; rewrite ?app_nil_r; exact Htd
                       | apply Hno; intros d'; discriminate]).
  apply test_order_Some_inv in Htest as (Ha & Hd & ->).
  rewrite io_bind_emit.
  unfold decimal_div.
  destruct (Qeq_bool (net_liquidating_value dk acc) (0 # 1)) eqn:Hnl.
  - right. split.
    + destruct (Qeq_bool (change_in_buying_power d) (0 # 1)); reflexivity.
    + intros (_ & _ & _ & Hz & _). apply Hz. apply Qeq_bool_iff. exact Hnl.
  - rewrite io_bind_ret, io_bind_emit.
    erewrite io_bind_Ok_run by apply print_warnings_run.
    destruct (get_confirmation "Send order? Y/n " true (stdin_confirm dk))
      as [tc rc] eqn:Hconf.
    assert (Htc : sent tc = []).
    { pose proof (get_confirmation_quiet "Send order? Y/n " true (stdin_confirm dk)) as H.
      rewrite Hconf in H. exact H. }
    assert (Hnz : ~ (net_liquidating_value dk acc == 0)%Q).
    { intros Hz. apply Qeq_bool_iff in Hz. congruence. }
    destruct rc as [[|]| | |]; cbn [io_bind fst snd sent app io_emit io_ret];
      rewrite ?sent_app, ?sent_warnings, ?Htc; cbn [app sent].
    + left. split; [reflexivity|].
      unfold cleared. rewrite ?Hconf. repeat split; eauto; apply Ha.
    + right. split; [reflexivity|].
      intros (_ & _ & _ & _ & Hc). rewrite ?Hconf in Hc. discriminate.
    + right. split; [reflexivity|].
      intros (_ & _ & _ & _ & Hc). rewrite ?Hconf in Hc. discriminate.
    + right. split; [reflexivity|].
      intros (_ & _ & _ & _ & Hc). rewrite ?Hconf in Hc. discriminate.
    + right. split; [reflexivity|].
      intros (_ & _ & _ & _ & Hc). rewrite ?Hconf in Hc. discriminate.
Qed.

Lemma review_and_send_no_account dk order rows :
  (forall ta a, get_account (session dk) (stdin_account dk) <> (ta, Ok a)) ->
  sent (fst (review_and_send dk order rows)) = [].
Proof.
  intros Hno. unfold review_and_send.
  pose proof (get_account_quiet (session dk) (stdin_account dk)) as Hq.
  destruct (get_account (session dk) (stdin_account dk)) as [ta [a|e| |]];
    cbn [io_bind fst] in *; try exact Hq.
  exfalso. exact (Hno ta a eq_refl).
Qed.

Lemma review_and_send_cases dk order rows :
  (exists a, sent (fst (review_and_send dk order rows)) = [(a, order)]
             /\ cleared dk order a)
  \/ (sent (fst (review_and_send dk order rows)) = []
      /\ forall a, ~ cleared dk order a).
Proof.
  destruct (get_account (session dk) (stdin_account dk)) as [ta ra] eqn:Hacc.
  destruct ra as [acc|e| |].
  - destruct (review_and_send_sent dk order rows Hacc) as [[Hs Hc]|[Hs Hc]].
    + left. exists acc. auto.
    + right. split; [exact Hs|]. intros a Ha. apply Hc.
      assert (a = acc)
        by (destruct Ha as ((ta' & Hta') & _); congruence).
      subst a. exact Ha.
  - right. split.
    + apply review_and_send_no_account. intros ta' a H. congruence.
    + intros a ((ta' & H) & _). congruence.
  - right. split.
    + apply review_and_send_no_account. intros ta' a H. congruence.
    + intros a ((ta' & H) & _). congruence.
  - right. split.
    + apply review_and_send_no_account. intros ta' a H. congruence.
    + intros a ((ta' & H) & _). congruence.
Qed.

Lemma order_goes_out_cases
      (dk : Desk) (order : NewOrder) (rows : Q -> Q -> Q -> list ReviewRow) :
  forall a o, In (a, o) (sent (fst (review_and_send dk order rows)))
              <-> o = order /\ cleared dk order a.
Proof.
  destruct (review_and_send_cases dk order rows) as [(acc & Hs & Hc)|[Hs Hc]];
    rewrite Hs; intros a o; split.
  - intros [[= <- <-]|[]]. auto.
  - intros (-> & Ha). left.
    destruct Hc as ((t1 & H1) & _), Ha as ((t2 & H2) & _).
    assert (a = acc) by congruence. subst. reflexivity.
  - intros [].
  - intros (_ & Ha). exact (Hc a Ha).
Qed.

(** X17: the last part of every order command submits an order on an
    account exactly when that order is the one it was given and the
    submission is cleared: the session yields the account, the dry run
    was accepted, the net liquidating value is not zero and the operator
    said yes (an empty answer counts as yes); it never submits more than
    one order. *)
Theorem order_goes_out_iff_cleared
        (dk : Desk) (order : NewOrder) (rows : Q -> Q -> Q -> list ReviewRow) :
  (forall a o, In (a, o) (sent (fst (review_and_send dk order rows)))
               <-> o = order /\ cleared dk order a)
  /\ (List.length (sent (fst (review_and_send dk order rows))) <= 1)%nat.
Proof.
  split; [apply order_goes_out_cases|].
  destruct (review_and_send_cases dk order rows) as [(acc & Hs & _)|[Hs _]];
    rewrite Hs; cbn; lia.
Qed.

Lemma lift_run {A} (m : M A) t a :
  m = (t, Done a) -> lift m = (map Core t, Ok a).
Proof. intros ->. reflexivity. Qed.

Lemma command_sent {A} (m : M A) (f : A -> IO unit) (order : A -> NewOrder)
      (dk : Desk) :
  (forall r, (forall a o, In (a, o) (sent (fst (f r)))
                          <-> o = order r /\ cleared dk (order r) a)) ->
  forall a o,
    In (a, o) (sent (fst (io_bind (lift m) f)))
    <-> exists t r, m = (t, Done r) /\ o = order r /\ cleared dk o a.
Proof.
  intros Hf a o. destruct m as [t [r|e| |]]; unfold lift; cbn [fst snd io_bind].
  - destruct (f r) as [t' res] eqn:Hfr. cbn [fst].
    rewrite sent_app, sent_Core, app_nil_l.
    specialize (Hf r a o). rewrite Hfr in Hf. cbn [fst] in Hf. rewrite Hf.
    split.
    + intros (-> & Hc). exists t, r. auto.
    + intros (t0 & r0 & [= <- <-] & -> & Hc). auto.
  - rewrite sent_Core. split; [intros []|]. intros (? & ? & [=] & _).
  - rewrite sent_Core. split; [intros []|]. intros (? & ? & [=] & _).
  - rewrite sent_Core. split; [intros []|]. intros (? & ? & [=] & _).
Qed.

(** X18: [call], [put] and [strangle] submit an order only when their
    first half ran to the end (no parameter was rejected, nothing raised,
    the feeds delivered), and then only the order that half built, and
    only if its submission is cleared. *)
Theorem commands_submit_the_order_they_built :
  (forall k w dk symbol quantity strike width gtc weeklies delta a o,
      In (a, o) (sent (fst (single_command k w dk symbol quantity strike
                                           width gtc weeklies delta)))
      <-> exists t r,
          single k w symbol quantity strike width gtc weeklies delta = (t, Done r)
          /\ o = sl_order r /\ cleared dk o a)
  /\ (forall w dk symbol quantity call width gtc weeklies delta put a o,
      In (a, o) (sent (fst (strangle_command w dk symbol quantity call
                                             width gtc weeklies delta put)))
      <-> exists t r,
          strangle w symbol quantity call width gtc weeklies delta put = (t, Done r)
          /\ o = st_order r /\ cleared dk o a).
Proof.
  split; intros.
  - unfold single_command.
    apply (@command_sent _ _ _ sl_order dk).
    intros r. apply order_goes_out_cases.
  - unfold strangle_command.
    apply (@command_sent _ _ _ st_order dk).
    intros r. apply order_goes_out_cases.
Qed.

(** The sample desk, where the operator presses Enter, submits the order
    on the preset account. *)
Example funded_desk_submits :
  sent (fst (review_and_send SampleDesks.funded (mkOrder DAY LIMIT [] 1.25 DEBIT)
                             (fun _ _ _ => [])))
  = [(SampleDesk.ira, mkOrder DAY LIMIT [] 1.25 DEBIT)].
Proof. vm_compute. reflexivity. Qed.

(** X19: on an account whose net liquidating value is zero the command
    fails right after the accepted dry run, in the division for the
    buying-power percentage ([InvalidOperation] when the buying power
    effect is zero as well, [DivisionByZero] otherwise): no review is
    shown, nothing is asked and nothing is submitted. *)
Theorem review_fails_on_zero_net_liquidating_value
        (dk : Desk) (order : NewOrder) rows ta acc d :
  get_account (session dk) (stdin_account dk) = (ta, Ok acc) ->
  accepted (dry_run dk acc order) ->
  json_data (dry_run dk acc order) = Some d ->
  (net_liquidating_value dk acc == 0)%Q ->
  review_and_send dk order rows
  = (ta ++ [DryRun acc order; GetBalances acc],
     Failed (if Qeq_bool (change_in_buying_power d) 0
             then Py InvalidOperation else DivisionByZero)).
Proof.
  intros Hacc Ha Hd Hz. unfold review_and_send.
  erewrite io_bind_Ok_run by exact Hacc.
  assert (Ht : test_order_handle_errors (dry_run dk) acc order
               = ([DryRun acc order], Ok (Some d)))
    by (apply test_order_accepted; auto).
  rewrite Ht. cbn [io_bind]. rewrite io_bind_emit.
  unfold decimal_div. apply Qeq_bool_iff in Hz. rewrite Hz.
  destruct (Qeq_bool (change_in_buying_power d) (0 # 1)); reflexivity.
Qed.

(** Witness for X19: the sample desk with an empty account. *)
Lemma review_fails_on_zero_net_liquidating_value_witness :
  review_and_send SampleDesks.unfunded (mkOrder DAY LIMIT [] 1.25 DEBIT)
                  (fun _ _ _ => [])
  = ([DryRun SampleDesk.ira (mkOrder DAY LIMIT [] 1.25 DEBIT);
      GetBalances SampleDesk.ira],
     Failed DivisionByZero).
Proof.
  apply (@review_fails_on_zero_net_liquidating_value
           SampleDesks.unfunded (mkOrder DAY LIMIT [] 1.25 DEBIT)
           (fun _ _ _ => []) [] SampleDesk.ira SampleDesk.filled).
  - reflexivity.
  - unfold accepted. cbn. lia.
  - reflexivity.
  - reflexivity.
Defined.

(** *** chain *)

Lemma find_mid_index_stops spot below s above : forall i,
  Forall (fun x => (strike_price x < spot)%Q) below ->
  (spot <= strike_price s)%Q ->
  find_mid_index (below ++ s :: above) spot i = ret (i + List.length below)%nat.
Proof.
  induction below as [|b below IH]; intros i Hbelow Hs; cbn [app find_mid_index].
  - unfold Qltb. apply Qle_bool_iff in Hs. rewrite Hs. cbn [negb].
    rewrite Nat.add_0_r. reflexivity.
  - inversion Hbelow as [|? ? Hb Hbelow']; subst.
    unfold Qltb at 1.
    destruct (Qle_bool spot (strike_price b)) eqn:E.
    + apply Qle_bool_iff in E. exfalso. apply (Qlt_not_le _ _ Hb E).
    + cbn [negb]. rewrite (IH (S i) Hbelow' Hs). cbn [List.length].
      rewrite Nat.add_succ_r. reflexivity.
Qed.


Lemma slice_inside {A} (xs : list A) (a b : Z) :
  0 <= a <= b ->
  slice xs a b
  = firstn (Z.to_nat (Z.min b (Z.of_nat (List.length xs)) - Z.min a (Z.of_nat (List.length xs))))
           (skipn (Z.to_nat (Z.min a (Z.of_nat (List.length xs)))) xs).
Proof.
  intros H. unfold slice.
  destruct (a <? 0) eqn:Ea; [lia|]. destruct (b <? 0) eqn:Eb; [lia|].
  reflexivity.
Qed.


(** With more than [2n] strikes the window is the slice around the
    first strike at or above the spot. *)
Lemma all_strikes_slice (n : Z) spot subchain below s above :
  strikes subchain = below ++ s :: above ->
  Forall (fun x => (strike_price x < spot)%Q) below ->
  (spot <= strike_price s)%Q ->
  n * 2 < Z.of_nat (List.length (strikes subchain)) ->
  all_strikes n spot subchain
  = ret (slice (below ++ s :: above)
               (Z.of_nat (List.length below) - n)
               (Z.of_nat (List.length below) + n)).
Proof.
  intros Hs Hbelow Hat Hlen. unfold all_strikes.
  destruct (n * 2 <? _) eqn:E; [|lia].
  rewrite Hs. rewrite (@find_mid_index_stops spot below s above 0 Hbelow Hat).
  rewrite bind_ret. reflexivity.
Qed.

(** A slice that starts [n] places before an element with at least [n]
    predecessors. *)
Lemma slice_window {A} (below : list A) (s : A) (above : list A) (n : Z) :
  0 < n ->
  n <= Z.of_nat (List.length below) ->
  slice (below ++ s :: above)
        (Z.of_nat (List.length below) - n) (Z.of_nat (List.length below) + n)
  = skipn (List.length below - Z.to_nat n) below
    ++ firstn (Z.to_nat n) (s :: above).
Proof.
  intros Hn Hroom.
  rewrite slice_inside by lia.
  rewrite length_app. cbn [List.length].
  replace (Z.to_nat (Z.min (Z.of_nat (List.length below) - n) _))
    with (List.length below - Z.to_nat n)%nat by lia.
  rewrite skipn_app.
  replace (List.length below - Z.to_nat n - List.length below)%nat with O by lia.
  cbn [skipn]. rewrite firstn_app, length_skipn. f_equal.
  - apply firstn_all2. rewrite length_skipn. lia.
  - destruct (Z.le_gt_cases (Z.of_nat (List.length below) + n)
                (Z.of_nat (List.length below + S (List.length above))))
      as [Hle|Hgt].
    + f_equal. lia.
    + rewrite !firstn_all2 by (cbn [List.length]; lia). reflexivity.
Qed.

(** X20: when the chain has more than twice the requested number [n] of
    strikes and at least [n] strikes lie below the spot price, the strikes
    shown are the [n] nearest below the spot followed by the first [n]
    from the first strike at or above it (fewer if the chain ends
    before). *)
Theorem chain_window_around_spot
        (n : Z) spot subchain below s above :
  strikes subchain = below ++ s :: above ->
  Forall (fun x => (strike_price x < spot)%Q) below ->
  (spot <= strike_price s)%Q ->
  0 < n ->
  n * 2 < Z.of_nat (List.length (strikes subchain)) ->
  n <= Z.of_nat (List.length below) ->
  all_strikes n spot subchain
  = ret (skipn (List.length below - Z.to_nat n) below
         ++ firstn (Z.to_nat n) (s :: above)).
Proof.
  intros Hs Hbelow Hat Hn Hlen Hroom.
  rewrite (@all_strikes_slice n spot subchain below s above) by assumption.
  rewrite slice_window by assumption.
  reflexivity.
Qed.

(** Witness for X20: one strike each side of a spot of 102 among the
    four sample strikes. *)
Lemma chain_window_around_spot_witness :
  all_strikes 1 102 (mkExpiration Sample.jan19 Sample.strikes4)
  = ret [mkStrike 100 "C100" "P100" ".C100" ".P100";
         mkStrike 105 "C105" "P105" ".C105" ".P105"].
Proof.
  apply (@chain_window_around_spot 1 102
           (mkExpiration Sample.jan19 Sample.strikes4)
           [mkStrike 95 "C95" "P95" ".C95" ".P95";
            mkStrike 100 "C100" "P100" ".C100" ".P100"]
           (mkStrike 105 "C105" "P105" ".C105" ".P105")
           [mkStrike 110 "C110" "P110" ".C110" ".P110"]).
  - reflexivity.
  - repeat constructor.
  - cbn. discriminate.
  - lia.
  - cbn. lia.
  - cbn. lia.
Defined.







Lemma strike_rows_Row rs : strike_rows (map Row rs) = rs.
Proof. induction rs as [|r rs IH]; [reflexivity|]. cbn. rewrite IH. reflexivity. Qed.

Ltac zbool E :=
  rewrite ?andb_true_iff, ?andb_false_iff, ?Z.ltb_lt, ?Z.leb_le,
          ?Z.ltb_ge, ?Z.leb_gt in E.

Lemma chain_rows_shape n qd gd : forall shown i t rows,
  chain_rows n qd gd i shown = (t, Done rows) ->
  t = [] /\
  map row_strike (strike_rows rows) = map strike_price shown /\
  rows = map Row (firstn (Z.to_nat (n - Z.of_nat i)) (strike_rows rows))
         ++ (if (Z.of_nat i <? n) && (n <=? Z.of_nat i + Z.of_nat (List.length shown))
             then [Separator] else [])
         ++ map Row (skipn (Z.to_nat (n - Z.of_nat i)) (strike_rows rows)).
Proof.
  induction shown as [|x shown IH]; intros i t rows Hrun; cbn [chain_rows] in Hrun.
  - apply ret_Done_inv in Hrun as [<- ->]. cbn [strike_rows map List.length].
    rewrite firstn_nil, skipn_nil.
    destruct ((Z.of_nat i <? n) && (n <=? Z.of_nat i + Z.of_nat 0)) eqn:E;
      [zbool E; lia|]. auto.
  - bind_inv Hrun. apply getitem_Done_inv in Hm as [Hpq ->].
    bind_inv Hrun. apply getitem_Done_inv in Hm as [Hpg ->].
    bind_inv Hrun. apply getitem_Done_inv in Hm as [Hcq ->].
    bind_inv Hrun. apply getitem_Done_inv in Hm as [Hcg ->].
    bind_inv Hrun. apply IH in Hm as (-> & Hstr & Hrows).
    apply ret_Done_inv in Hrun as [<- ->]. subst. cbn [app].
    split; [reflexivity|].
    set (r := mkChainRow _ _ _ _ _ _ _).
    set (rows' := a3) in *.
    assert (Hsr : strike_rows (Row r :: (if Z.of_nat i =? n - 1 then [Separator] else [])
                                      ++ rows') = r :: strike_rows rows').
    { destruct (Z.of_nat i =? n - 1); reflexivity. }
    rewrite Hsr. split; [cbn [map]; rewrite Hstr; reflexivity|].
    cbn [List.length]. rewrite Nat2Z.inj_succ in *.
    destruct (Z.of_nat i =? n - 1) eqn:Ei.
    + apply Z.eqb_eq in Ei.
      replace (Z.to_nat (n - Z.of_nat i)) with 1%nat by lia.
      replace (Z.to_nat (n - Z.succ (Z.of_nat i))) with 0%nat in Hrows by lia.
      destruct ((Z.succ (Z.of_nat i) <? n) && _) eqn:E in Hrows;
        [zbool E; lia|].
      cbn [firstn skipn map app] in *.
      destruct ((Z.of_nat i <? n) && _) eqn:E';
        [|zbool E'; lia].
      cbn [app]. rewrite <- Hrows. reflexivity.
    + apply Z.eqb_neq in Ei. cbn [app].
      destruct (Z.le_gt_cases n (Z.of_nat i)) as [Hle|Hgt].
      * replace (Z.to_nat (n - Z.of_nat i)) with 0%nat by lia.
        replace (Z.to_nat (n - Z.succ (Z.of_nat i))) with 0%nat in Hrows by lia.
        destruct ((Z.succ (Z.of_nat i) <? n) && _) eqn:E in Hrows;
          [zbool E; lia|].
        destruct ((Z.of_nat i <? n) && _) eqn:E';
          [zbool E'; lia|].
        cbn [firstn skipn map app] in *. rewrite <- Hrows. reflexivity.
      * replace (Z.to_nat (n - Z.of_nat i))
          with (S (Z.to_nat (n - Z.succ (Z.of_nat i)))) by lia.
        cbn [firstn skipn map app].
        replace ((Z.of_nat i <? n)
                 && (n <=? Z.of_nat i + Z.succ (Z.of_nat (List.length shown))))
          with ((Z.succ (Z.of_nat i) <? n)
                && (n <=? Z.succ (Z.of_nat i) + Z.of_nat (List.length shown))).
        -- rewrite <- Hrows. reflexivity.
        -- f_equal; [apply eq_true_iff_eq; rewrite !Z.ltb_lt; lia
                    | apply eq_true_iff_eq; rewrite !Z.leb_le; lia].
Qed.

(** X23: a table that [chain] prints has one line per strike shown, in
    the order of the chain, and the ITM separator right after the line
    of the n-th strike, when [n] is positive and that many strikes are
    shown; otherwise it has no separator. *)
Theorem chain_table_layout n qd gd shown t rows :
  chain_rows n qd gd 0 shown = (t, Done rows) ->
  map row_strike (strike_rows rows) = map strike_price shown /\
  rows = map Row (firstn (Z.to_nat n) (strike_rows rows))
         ++ (if (0 <? n) && (n <=? Z.of_nat (List.length shown))
             then [Separator] else [])
         ++ map Row (skipn (Z.to_nat n) (strike_rows rows)).
Proof.
  intros Hrun. apply chain_rows_shape in Hrun as (_ & Hstr & Hrows).
  split; [exact Hstr|].
  cbn [Z.of_nat] in Hrows. rewrite Z.sub_0_r, Z.add_0_l in Hrows. exact Hrows.
Qed.

(** Witness for X23: the sample table of two strikes with [n = 1]. *)
Lemma chain_table_layout_witness :
  map row_strike (strike_rows SampleTable.table) = map strike_price SampleTable.shown
  /\ SampleTable.table
     = map Row (firstn 1 (strike_rows SampleTable.table))
       ++ [Separator]
       ++ map Row (skipn 1 (strike_rows SampleTable.table)).
Proof.
  destruct (chain_rows 1 SampleTable.quote_dict SampleTable.greeks_dict 0
                       SampleTable.shown) as [t o] eqn:Hrun.
  assert (Hc := Hrun). vm_compute in Hc. injection Hc as <- <-.
  exact (@chain_table_layout _ _ _ _ _ _ Hrun).
Defined.


Section Coverage.
Context {E : Type} `{Event E}.


End Coverage.




(** *** Credentials *)






(** A password written [p%ss] in the configuration file is not a
    password the program can use: reading it fails, unless the
    environment provides the password, and then the file's is not read. *)
Lemma get_credentials_percent typed :
  let cfg := mkConfig [] [("general", [("username", "trader");
                                        ("password", "p%ss")])]%string in
  get_credentials (fun _ => None) cfg typed
  = ([], Failed InterpolationSyntaxError)
  /\ get_credentials
       (fun v => if String.eqb v "TT_PASSWORD" then Some "secret"%string else None)
       cfg typed
     = ([], Ok ("trader", "secret")%string).
Proof. split; reflexivity. Qed.

(** *** The separator of the chain table *)

Lemma Forall_skipn {A} (P : A -> Prop) (l : list A) : forall n,
  Forall P l -> Forall P (skipn n l).
Proof.
  induction l as [|x l IH]; intros [|n] Hl; cbn [skipn]; auto.
  inversion Hl; subst. apply IH. assumption.
Qed.

Lemma chain_table_Done w symbol n sp subchain t rows :
  chain_table w symbol n sp subchain = (t, Done rows) ->
  exists shown qd gd,
    snd (all_strikes n sp subchain) = Done shown /\
    chain_rows n qd gd 0 shown = ([], Done rows).
Proof.
  unfold chain_table. intros Hrun.
  bind_inv Hrun. exists a. rewrite Hm. cbn [snd].
  bind_inv Hrun. bind_inv Hrun.
  bind_inv Hrun. bind_inv Hrun.
  exists a3, a2. split; [reflexivity|].
  destruct (chain_rows_shape _ _ _ _ _ Hrun) as (-> & _). exact Hrun.
Qed.

(** X26: when at least [n] strikes lie below the spot in a chain of
    more than [2n] strikes, the separator of the printed table marks the
    spot: the [n] lines above it are strikes below the spot price, and
    the line right under it is the first strike at or above the spot. *)
Theorem chain_separator_marks_spot
        (w : World) symbol (n : Z) sp subchain below s above t rows :
  strikes subchain = below ++ s :: above ->
  Forall (fun x => (strike_price x < sp)%Q) below ->
  (sp <= strike_price s)%Q ->
  0 < n ->
  n * 2 < Z.of_nat (List.length (strikes subchain)) ->
  n <= Z.of_nat (List.length below) ->
  chain_table w symbol n sp subchain = (t, Done rows) ->
  exists lower r upper,
    rows = map Row lower ++ Separator :: Row r :: map Row upper /\
    List.length lower = Z.to_nat n /\
    Forall (fun x => (row_strike x < sp)%Q) lower /\
    row_strike r = strike_price s.
Proof.
  intros Hs Hbelow Hat Hn Hlen Hroom Hrun.
  apply chain_table_Done in Hrun as (shown & qd & gd & Hshown & Hrows).
  rewrite (@all_strikes_slice n sp subchain below s above) in Hshown by assumption.
  rewrite slice_window in Hshown by assumption.
  cbn [ret snd] in Hshown. injection Hshown as <-.
  apply chain_rows_shape in Hrows as (_ & Hstr & Hrows).
  set (sr := strike_rows rows) in *.
  set (near := skipn (List.length below - Z.to_nat n) below) in *.
  assert (Hnear : List.length near = Z.to_nat n)
    by (unfold near; rewrite length_skipn; lia).
  assert (Hk : Z.to_nat n = S (Z.to_nat n - 1)) by lia.
  assert (Hup : firstn (Z.to_nat n) (s :: above)
                = s :: firstn (Z.to_nat n - 1) above)
    by (rewrite Hk at 1; reflexivity).
  rewrite Hup in *.
  cbn [Z.of_nat] in Hrows. rewrite Z.sub_0_r, Z.add_0_l in Hrows.
  destruct ((0 <? n) && (n <=? Z.of_nat (List.length (near ++ s :: firstn (Z.to_nat n - 1) above))))
    eqn:E.
  2:{ zbool E. rewrite length_app in E. cbn [List.length] in E. lia. }
  assert (Hlow : map row_strike (firstn (Z.to_nat n) sr) = map strike_price near).
  { rewrite <- firstn_map, Hstr, map_app, firstn_app, length_map, Hnear.
    rewrite Nat.sub_diag. cbn [firstn]. rewrite app_nil_r.
    apply firstn_all2. rewrite length_map. lia. }
  assert (Hhigh : map row_strike (skipn (Z.to_nat n) sr)
                  = map strike_price (s :: firstn (Z.to_nat n - 1) above)).
  { rewrite <- skipn_map, Hstr, map_app, skipn_app, length_map, Hnear.
    rewrite Nat.sub_diag. cbn [skipn].
    rewrite skipn_all2 by (rewrite length_map; lia). reflexivity. }
  destruct (skipn (Z.to_nat n) sr) as [|r upper] eqn:Hsk; [discriminate|].
  cbn [map] in Hhigh. injection Hhigh as Hr _.
  exists (firstn (Z.to_nat n) sr), r, upper. repeat split.
  - exact Hrows.
  - apply (f_equal (@List.length _)) in Hlow. rewrite !length_map in Hlow.
    rewrite Hlow. exact Hnear.
  - apply (Forall_map row_strike (fun p => (p < sp)%Q)). rewrite Hlow.
    apply Forall_map. apply Forall_skipn. exact Hbelow.
  - exact Hr.
Qed.

(** Witness for X26: the sample table, split between 100 and 105. *)
Lemma chain_separator_marks_spot_witness :
  exists lower r upper,
    SampleTable.table = map Row lower ++ Separator :: Row r :: map Row upper /\
    List.length lower = 1%nat /\
    Forall (fun x => (row_strike x < spot SampleChain.mid)%Q) lower /\
    row_strike r = 105%Q.
Proof.
  destruct (chain_table (SampleChain.world SampleChain.mid) "XYZ" 1
                        (spot SampleChain.mid)
                        (mkExpiration Sample.jan19 Sample.strikes4))
    as [t o] eqn:Hrun.
  assert (Hc := Hrun). vm_compute in Hc. injection Hc as <- <-.
  eapply (@chain_separator_marks_spot
           (SampleChain.world SampleChain.mid) "XYZ" 1 (spot SampleChain.mid)
           (mkExpiration Sample.jan19 Sample.strikes4)
           [mkStrike 95 "C95" "P95" ".C95" ".P95";
            mkStrike 100 "C100" "P100" ".C100" ".P100"]
           (mkStrike 105 "C105" "P105" ".C105" ".P105")
           [mkStrike 110 "C110" "P110" ".C110" ".P110"] _ _).
  - reflexivity.
  - repeat constructor.
  - cbn. discriminate.
  - lia.
  - cbn. lia.
  - cbn. lia.
  - exact Hrun.
Defined.

(** X27: when the [default-account] option of the [general] section
    reads (after interpolation, with the [DEFAULT] section as fallback)
    as a number that is not empty and the session has an account with
    that number, that account (the first with the number) is returned at
    once, with no menu and no prompt, whatever the operator would type. *)
Theorem get_account_configured_default
        (s : RenewableSession) general (stdin : list RawInput)
        (number : string) before a after :
  dict_get "general" (sections (config s)) = Some general ->
  SectionProxy_get (config s) general "default-account"
  = ([], Ok (Some number)) ->
  number <> EmptyString ->
  accounts s = before ++ a :: after ->
  Forall (fun b => account_number b <> number) before ->
  account_number a = number ->
  get_account s stdin = ([], Ok a).
Proof.
  intros Hgen Hdef Hne Haccs Hbefore Ha.
  unfold get_account, field. rewrite Hgen, io_bind_ret, Hdef.
  rewrite (@io_bind_ret _ _ (Some number)).
  assert (Ht : truthy_str (Some number) = true)
    by (destruct number; [congruence|reflexivity]).
  rewrite Ht, Haccs.
  assert (Hfind : find (fun b => String.eqb (account_number b) number)
                       (before ++ a :: after) = Some a).
  { clear Haccs. induction Hbefore as [|b before Hb _ IH]; cbn [app find].
    - rewrite Ha, String.eqb_refl. reflexivity.
    - apply String.eqb_neq in Hb. rewrite Hb. exact IH. }
  rewrite Hfind. reflexivity.
Qed.

(** Witness for X27: the preset second account, with answers waiting that
    are never read. *)
Lemma get_account_configured_default_witness :
  get_account SampleDesk.preset [IntText 1; Blank] = ([], Ok SampleDesk.ira).
Proof.
  apply (@get_account_configured_default SampleDesk.preset
           [("default-account", "5WX00002")]%string [IntText 1; Blank]
           "5WX00002" [SampleDesk.individual] SampleDesk.ira []).
  - reflexivity.
  - reflexivity.
  - discriminate.
  - reflexivity.
  - repeat constructor. discriminate.
  - reflexivity.
Defined.
